(** * kubefwd: local address allocator and service forwarding

    A shallow embedding of [pkg/fwdnet] (both [Allocate] implementations) and
    of [cmd/kubefwd/services/services.go], with the properties of the
    specification stated and proved over it. *)

From Stdlib Require Import ZArith NArith Lia List Ascii String Permutation.
From stdpp Require Import base option list strings gmap pretty.

Local Open Scope string_scope.
Local Open Scope list_scope.

(** Go's [error] values are carried by their message. *)
Definition error := string.

(* ===================================================================== *)
(** ** The parts of Go's standard library the code calls *)
(* ===================================================================== *)

Module strconv.

(** [strconv.Itoa]: the decimal rendering of an integer, with a leading
    minus sign for negative values. *)
Definition Itoa (i : Z) : string := pretty i.

Definition digit_val (ch : ascii) : option N :=
  let n := N_of_ascii ch in
  if ((48 <=? n) && (n <=? 57))%N then Some (n - 48)%N else None.

(** The digit loop of [Atoi]/[ParseUint]: [n = n*10 + int(ch)], a syntax
    error on any byte that is not a decimal digit. *)
Fixpoint digits_from (n : N) (s : string) : option N :=
  match s with
  | EmptyString => Some n
  | String ch rest =>
      match digit_val ch with
      | Some d => digits_from (n * 10 + d) rest
      | None => None
      end
  end.

Definition parse_digits (s : string) : option N :=
  match s with
  | EmptyString => None
  | _ => digits_from 0 s
  end.

(** [strconv.Atoi] on a platform with 64-bit [int]: an optional sign, then
    one or more decimal digits, the value inside the range of [int].
    [None] stands for a non-nil error (syntax or range). *)
Definition Atoi (s : string) : option Z :=
  match s with
  | String "-" rest =>
      match parse_digits rest with
      | Some n => if (n <=? 2 ^ 63)%N then Some (- Z.of_N n)%Z else None
      | None => None
      end
  | String "+" rest =>
      match parse_digits rest with
      | Some n => if (n <? 2 ^ 63)%N then Some (Z.of_N n) else None
      | None => None
      end
  | _ =>
      match parse_digits s with
      | Some n => if (n <? 2 ^ 63)%N then Some (Z.of_N n) else None
      | None => None
      end
  end.

End strconv.

Module strings.

(** [strings.Contains(s, substr)]. *)
Fixpoint Contains (s substr : string) : bool :=
  if String.prefix substr s then true
  else match s with
       | EmptyString => false
       | String _ rest => Contains rest substr
       end.

End strings.

Module net.

(** [net.IP] holding an IPv4 address: its four octets. *)
Record IP : Type := mkIP { o1 : N; o2 : N; o3 : N; o4 : N }.

(** [ip.String()]: dotted decimal. *)
Definition IP_String (ip : IP) : string :=
  pretty (o1 ip) +:+ "." +:+ pretty (o2 ip) +:+ "." +:+
  pretty (o3 ip) +:+ "." +:+ pretty (o4 ip).

Definition to_N (ip : IP) : N :=
  (((o1 ip * 256 + o2 ip) * 256 + o3 ip) * 256 + o4 ip)%N.

Definition of_N (n : N) : IP :=
  mkIP ((n / 16777216) mod 256)%N ((n / 65536) mod 256)%N
       ((n / 256) mod 256)%N (n mod 256)%N.

End net.

(* ===================================================================== *)
(** ** github.com/apcera/util/iprange *)
(* ===================================================================== *)

Module iprange.

(** Modelled from the spec: the address-range library is a third-party
    dependency whose source is not part of the repository.  The spec describes
    an AddressRange as a contiguous span of addresses, written like
    "127.1.27.1-254", immutable once parsed, whose invalid specifications fail
    parsing, and whose candidates are iterated in the range's defined order
    until the range is exhausted. *)
Record IPRange : Type := mkIPRange { Start : net.IP; End : net.IP }.

(** Fields of [s] separated by the byte [sep]. *)
Fixpoint split_on (sep : ascii) (s : string) : list string :=
  match s with
  | EmptyString => [EmptyString]
  | String ch rest =>
      if Ascii.eqb ch sep then EmptyString :: split_on sep rest
      else match split_on sep rest with
           | field :: fields => String ch field :: fields
           | [] => [String ch EmptyString]
           end
  end.

Definition parse_octet (s : string) : option N :=
  match strconv.parse_digits s with
  | Some n => if (n <=? 255)%N then Some n else None
  | None => None
  end.

Definition parse_ip (s : string) : option net.IP :=
  match split_on "." s with
  | [a; b; c; d] =>
      match parse_octet a, parse_octet b, parse_octet c, parse_octet d with
      | Some a, Some b, Some c, Some d => Some (net.mkIP a b c d)
      | _, _, _, _ => None
      end
  | _ => None
  end.

(** Modelled from the spec: "A.B.C.D" is the one-address range,
    "A.B.C.D-E" runs to the last octet [E], and "A.B.C.D-W.X.Y.Z" runs to the
    second address; the end may not precede the start. *)
Definition ParseIPRange (s : string) : error + IPRange :=
  match split_on "-" s with
  | [single] =>
      match parse_ip single with
      | Some ip => inr (mkIPRange ip ip)
      | None => inl ("invalid IP range: " +:+ s)
      end
  | [first; last] =>
      match parse_ip first with
      | Some ip =>
          let stop :=
            match parse_octet last with
            | Some e => Some (net.mkIP (net.o1 ip) (net.o2 ip) (net.o3 ip) e)
            | None => parse_ip last
            end in
          match stop with
          | Some ip' =>
              if (net.to_N ip <=? net.to_N ip')%N then inr (mkIPRange ip ip')
              else inl ("invalid IP range: " +:+ s)
          | None => inl ("invalid IP range: " +:+ s)
          end
      | None => inl ("invalid IP range: " +:+ s)
      end
  | _ => inl ("invalid IP range: " +:+ s)
  end.

(** Modelled from the spec: the addresses of a range "in the range's
    defined order (not randomized)", the start first. *)
Definition addresses (ipr : IPRange) : list net.IP :=
  (fun i => net.of_N (net.to_N (Start ipr) + N.of_nat i)) <$>
    seq 0 (N.to_nat (net.to_N (End ipr) + 1 - net.to_N (Start ipr))).

(** Modelled from the spec: the allocator of a range holds the addresses it
    has not handed out yet, the next one first.  [Remaining()] is the length
    of [pending]; [Allocate()] removes and returns its head. *)
Record Allocator : Type := mkAllocator { pending : list net.IP }.

Definition NewAllocator (ipr : IPRange) : Allocator :=
  mkAllocator (addresses ipr).

Definition Remaining (a : Allocator) : nat := length (pending a).

End iprange.


(* ===================================================================== *)
(** ** Data of the Kubernetes API and of the collaborators *)
(* ===================================================================== *)

Module v1.

(** [intstr.IntOrString]: the target port of a service port. *)
Inductive IntOrString : Type :=
| IntVal (i : Z)
| StrVal (s : string).

(** [TargetPort.String()]. *)
Definition IntOrString_String (p : IntOrString) : string :=
  match p with
  | StrVal s => s
  | IntVal i => strconv.Itoa i
  end.

Record ContainerPort : Type :=
  mkContainerPort { cp_Name : string; cp_ContainerPort : Z }.

Record Container : Type := mkContainer { c_Ports : list ContainerPort }.

Record ServicePort : Type :=
  mkServicePort { sp_Port : Z; sp_TargetPort : IntOrString }.

(** [svc_Selector] is [svc.Spec.Selector], a [map[string]string], given as
    the sequence of entries a [range] over it yields. *)
Record Service : Type := mkService {
  svc_Name : string;
  svc_Namespace : string;
  svc_ClusterName : string;
  svc_Selector : list (string * string);
  svc_Ports : list ServicePort
}.

Record Pod : Type := mkPod {
  pod_Name : string;
  pod_Namespace : string;
  pod_Containers : list Container
}.

End v1.

(** [metav1.ListOptions], its label selector only. *)
Record ListOptions : Type := mkListOptions { LabelSelector : string }.

(** Handles of the cluster client; the code only passes them on. *)
Inductive RestConfig : Type := mkRestConfig (id : nat).
Inductive Clientset : Type := mkClientset (id : nat).

(** The kubeconfig as [fwdcfg.GetConfig] returns it. *)
Record NamedContext : Type :=
  mkNamedContext { ctx_Name : string; ctx_Namespace : string }.
Record Config : Type :=
  mkConfig { CurrentContext : string; Contexts : list NamedContext }.

(** [txeh.Hosts]. *)
Record Hosts : Type := mkHosts { ReadFilePath : string }.

(** [ping.Pinger], the fields [Allocate] sets. *)
Record Pinger : Type :=
  mkPinger { pg_addr : string; pg_Count : Z; pg_privileged : bool }.

(** What [pinger.Run()] met on the wire. *)
Inductive RunResult : Type :=
| TransportError (err : error)
| Received (n : nat).

(** Modelled from the spec: the liveness-probe library is a third-party
    dependency.  It "sends N echo requests to an address and reports reply
    count within a timeout; treated as best-effort (errors = no replies)":
    [Run()] returns nothing, and after a transport error the statistics count
    no received packet. *)
Definition PacketsRecv (r : RunResult) : Z :=
  match r with
  | TransportError _ => 0
  | Received n => Z.of_nat n
  end.

(** [fwdpub.Publisher]. *)
Record Publisher : Type :=
  mkPublisher { PublisherName : string; Output : bool }.

(** [fwdport.PortForwardOpts]: what one forwarding goroutine is given. *)
Record PortForwardOpts : Type := mkPortForwardOpts {
  pfo_Out : Publisher;
  pfo_Config : RestConfig;
  pfo_ClientSet : Clientset;
  pfo_Context : string;
  pfo_Namespace : string;
  pfo_Service : string;
  pfo_PodName : string;
  pfo_PodPort : string;
  pfo_LocalIP : net.IP;
  pfo_LocalPort : string;
  pfo_NetworkInterface : string;
  pfo_Hostfile : Hosts;
  pfo_ShortName : bool;
  pfo_Remote : bool;
  pfo_ExitOnFail : bool
}.

(** The external collaborators, each answering from the state [W] of the
    world outside the process and leaving a new one. *)
Class Collaborators (W : Type) : Type := {
  CheckRoot : W -> (bool * option error) * W;
  NewHostsDefault : W -> (error + Hosts) * W;
  BackupHostFile : Hosts -> W -> (error + string) * W;
  Hosts_Save : Hosts -> W -> option error * W;
  GetConfig : string -> W -> (error + Config) * W;
  GetRestConfig : string -> string -> W -> (error + RestConfig) * W;
  NewForConfig : RestConfig -> W -> (error + Clientset) * W;
  Services_List :
    Clientset -> string -> ListOptions -> W -> (error + list v1.Service) * W;
  Pods_List :
    Clientset -> string -> ListOptions -> W -> (error + list v1.Pod) * W;
  Pods_Get : Clientset -> string -> string -> W -> (error + v1.Pod) * W;
  NewPinger : string -> W -> option error * W;
  Pinger_Run : Pinger -> W -> RunResult * W;
  exec_Run : string -> list string -> W -> option error * W;
  exec_Output : string -> list string -> W -> (string * option error) * W;
  exec_CombinedOutput :
    string -> list string -> W -> (string * option error) * W;
  PortForward : PortForwardOpts -> W -> option error * W
}.

(* ===================================================================== *)
(** ** The main goroutine: state, events, and its monad *)
(* ===================================================================== *)

(** What the main goroutine does that is visible outside it. *)
Inductive Event : Type :=
| EvPing (p : Pinger) (r : RunResult)
| EvOutput (name : string) (args : list string) (out : string) (err : option error)
| EvRun (name : string) (args : list string) (err : option error)
| EvLog (msg : string)
| EvPrint (msg : string)
| EvGo (pfo : PortForwardOpts)
| EvWait
| EvSave (err : option error).

(** How a computation ends: it yields a value, the process exits
    ([os.Exit], [log.Fatalf]), or it panics. *)
Inductive Res (A : Type) : Type :=
| Val (a : A)
| Exit (code : Z)
| Panic (err : error).
Arguments Val {A} a.
Arguments Exit {A} code.
Arguments Panic {A} err.

(** The package variable [allocated] of [fwdnet] and the world outside. *)
Record State (W : Type) : Type :=
  mkState { allocated : gmap string bool; world : W }.
Arguments mkState {W} allocated world.
Arguments allocated {W} s.
Arguments world {W} s.

Definition M (W A : Type) : Type := State W -> Res A * State W * list Event.

Global Instance M_ret {W} : MRet (M W) := fun A a s => (Val a, s, []).

Global Instance M_bind {W} : MBind (M W) := fun A B f m s =>
  match m s with
  | (Val a, s', evs) => let '(r, s'', evs') := f a s' in (r, s'', evs ++ evs')
  | (Exit code, s', evs) => (Exit code, s', evs)
  | (Panic err, s', evs) => (Panic err, s', evs)
  end.

Definition emit {W} (e : Event) : M W unit := fun s => (Val tt, s, [e]).

Definition call {W A} (f : W -> A * W) : M W A := fun s =>
  let '(a, w) := f (world s) in (Val a, mkState (allocated s) w, []).

Definition os_Exit {W A} (code : Z) : M W A := fun s => (Exit code, s, []).

Definition panic {W A} (err : error) : M W A := fun s => (Panic err, s, []).

Definition log_Printf {W} (msg : string) : M W unit := emit (EvLog msg).

Definition log_Fatalf {W A} (msg : string) : M W A :=
  emit (EvLog msg);; os_Exit 1.

Definition is_allocated {W} (key : string) : M W bool := fun s =>
  (Val (bool_decide (is_Some (allocated s !! key))), s, []).

Definition set_allocated {W} (key : string) : M W unit := fun s =>
  (Val tt, mkState (<[key := true]> (allocated s)) (world s), []).

(* ===================================================================== *)
(** ** pkg/fwdnet: the allocator that probes with the ICMP library *)
(* ===================================================================== *)

Module fwdnet.
Section Allocate.
Context {W : Type} `{!Collaborators W}.

(** The loop of [Allocate] over the addresses the range allocator still
    holds: [Remaining() == 0] is the empty list, [ipAllocator.Allocate()]
    takes the head. *)
Fixpoint Allocate_loop (pending : list net.IP) : M W (error + net.IP) :=
  match pending with
  | [] => mret (inl "No IP addresses available")
  | ip :: pending =>
      ok ← is_allocated (net.IP_String ip);
      if ok : bool then Allocate_loop pending
      else
        set_allocated (net.IP_String ip);;
        err ← call (NewPinger (net.IP_String ip));
        match err with
        | Some err => panic err
        | None =>
            let pinger := mkPinger (net.IP_String ip) 3 false in
            r ← call (Pinger_Run pinger);
            emit (EvPing pinger r);;
            if (PacketsRecv r =? 3)%Z then Allocate_loop pending
            else mret (inr ip)
        end
  end.

Definition Allocate (iprange : string) : M W (error + net.IP) :=
  match iprange.ParseIPRange iprange with
  | inl err => mret (inl err)
  | inr ipr => Allocate_loop (iprange.pending (iprange.NewAllocator ipr))
  end.

End Allocate.
End fwdnet.

(* ===================================================================== *)
(** ** pkg/fwdnet: the allocator that probes with the ping command *)
(* ===================================================================== *)

Module fwdnet_exec.
Section Allocate.
Context {W : Type} `{!Collaborators W}.

Fixpoint Allocate_loop (pending : list net.IP) : M W (error + net.IP) :=
  match pending with
  | [] => mret (inl "No IP addresses available")
  | ip :: pending =>
      ok ← is_allocated (net.IP_String ip);
      if ok : bool then Allocate_loop pending
      else
        set_allocated (net.IP_String ip);;
        let args := [net.IP_String ip; "-c 2"; "-w 10"] in
        '(out, err) ← call (exec_Output "ping" args);
        emit (EvOutput "ping" args out err);;
        if strings.Contains out "Destination Host Unreachable"
        then mret (inr ip)
        else Allocate_loop pending
  end.

Definition Allocate (iprange : string) : M W (error + net.IP) :=
  match iprange.ParseIPRange iprange with
  | inl err => mret (inl err)
  | inr ipr => Allocate_loop (iprange.pending (iprange.NewAllocator ipr))
  end.

End Allocate.
End fwdnet_exec.

(* ===================================================================== *)
(** ** cmd/kubefwd/services *)
(* ===================================================================== *)

(** The repository holds two implementations of [fwdnet.Allocate]. *)
Inductive Prober : Type := IcmpLibrary | PingCommand.

Definition fwdnet_Allocate {W} `{!Collaborators W} (p : Prober)
  : string -> M W (error + net.IP) :=
  match p with
  | IcmpLibrary => fwdnet.Allocate
  | PingCommand => fwdnet_exec.Allocate
  end.

Module services.

(** The package variables the command-line flags fill in. *)
Record Flags : Type := mkFlags {
  kubeconfig : string;
  selector : string;
  contexts : list string;
  namespaces : list string;
  exitOnFail : bool;
  verbose : bool;
  iface : string;
  networkRange : string
}.

(** [FwdServiceOpts]; its [Wg] is the one [sync.WaitGroup] of the run. *)
Record FwdServiceOpts : Type := mkFwdServiceOpts {
  ClientSet : Clientset;
  Context : string;
  Namespace : string;
  ListOpts : ListOptions;
  Hostfile : Hosts;
  ClientConfig : RestConfig;
  ShortName : bool;
  Remote : bool;
  NetworkInterface : string;
  NetworkRange : string;
  ExitOnFail : bool
}.

Definition nl : string := String (ascii_of_nat 10) EmptyString.

(** The inner loop of [portSearch], over one container's ports. *)
Fixpoint portSearch_ports (portName : string) (ports : list v1.ContainerPort)
  : option string :=
  match ports with
  | [] => None
  | cp :: ports =>
      if String.eqb (v1.cp_Name cp) portName
      then Some (strconv.Itoa (v1.cp_ContainerPort cp))
      else portSearch_ports portName ports
  end.

Fixpoint portSearch (portName : string) (containers : list v1.Container)
  : string * bool :=
  match containers with
  | [] => ("", false)
  | container :: containers =>
      match portSearch_ports portName (v1.c_Ports container) with
      | Some port => (port, true)
      | None => portSearch portName containers
      end
  end.

Definition mapToSelectorStr (msel : list (string * string)) : string :=
  fold_left
    (fun selector '(k, v) =>
       let selector :=
         if negb (String.eqb selector "") then selector +:+ "," else selector in
       selector +:+ (k +:+ "=" +:+ v))
    msel "".

(** The pod port of a service port, as the port loop of [fwdServices]
    computes it before it starts the forwarding. *)
Definition podPort_of (port : v1.ServicePort) (containers : list v1.Container)
  : string :=
  let podPort := v1.IntOrString_String (v1.sp_TargetPort port) in
  match strconv.Atoi podPort with
  | Some _ => podPort
  | None =>
      match portSearch podPort containers with
      | (namedPodPort, true) => namedPodPort
      | (_, false) => podPort
      end
  end.

Section Services.
Context {W : Type} `{!Collaborators W}.
Variable prober : Prober.
Variable flags : Flags.

(** The loop over [svc.Spec.Ports]; an error of [Pods.Get] breaks out. *)
Fixpoint forward_ports (opts : FwdServiceOpts) (svc : v1.Service)
  (pod0 : v1.Pod) (localIP : net.IP) (ports : list v1.ServicePort) : M W unit :=
  match ports with
  | [] => mret tt
  | port :: ports =>
      let podName := v1.pod_Name pod0 in
      let podNamespace := v1.pod_Namespace pod0 in
      let localPort := strconv.Itoa (v1.sp_Port port) in
      let podPort := podPort_of port (v1.pod_Containers pod0) in
      got ← call (Pods_Get (ClientSet opts) podNamespace podName);
      match got with
      | inl err => log_Printf ("WARNING: Error getting pod: " +:+ err +:+ nl)
      | inr _ =>
          let full :=
            if negb (ShortName opts)
            then "." +:+ podNamespace +:+ ".svc.cluster.local" else "" in
          let full :=
            if Remote opts
            then "." +:+ podNamespace +:+ ".svc.cluster." +:+ Context opts
            else full in
          (if verbose flags
           then log_Printf ("Resolving: " +:+ v1.svc_Name svc +:+ full +:+ " to "
                            +:+ net.IP_String localIP +:+ nl)
           else mret tt);;
          log_Printf ("Forwarding: " +:+ v1.svc_Name svc +:+ full +:+ ":"
                      +:+ strconv.Itoa (v1.sp_Port port) +:+ " to pod "
                      +:+ podName +:+ ":" +:+ podPort +:+ nl);;
          emit (EvGo {|
            pfo_Out := mkPublisher "Services" false;
            pfo_Config := ClientConfig opts;
            pfo_ClientSet := ClientSet opts;
            pfo_Context := Context opts;
            pfo_Namespace := podNamespace;
            pfo_Service := v1.svc_Name svc;
            pfo_PodName := podName;
            pfo_PodPort := podPort;
            pfo_LocalIP := localIP;
            pfo_LocalPort := localPort;
            pfo_NetworkInterface := NetworkInterface opts;
            pfo_Hostfile := Hostfile opts;
            pfo_ShortName := ShortName opts;
            pfo_Remote := Remote opts;
            pfo_ExitOnFail := exitOnFail flags
          |});;
          forward_ports opts svc pod0 localIP ports
      end
  end.

(** One turn of the loop over [services.Items]; [continue] ends the turn. *)
Definition forward_service (opts : FwdServiceOpts) (svc : v1.Service) : M W unit :=
  let selector := mapToSelectorStr (v1.svc_Selector svc) in
  if String.eqb selector "" then
    log_Printf ("WARNING: No backing pods for service " +:+ v1.svc_Name svc
                +:+ " in " +:+ v1.svc_Namespace svc +:+ " on cluster "
                +:+ v1.svc_ClusterName svc +:+ "." +:+ nl)
  else
    pods ← call (Pods_List (ClientSet opts) (v1.svc_Namespace svc)
                   (mkListOptions selector));
    match pods with
    | inl err =>
        log_Printf ("WARNING: No pods found for " +:+ selector +:+ ": "
                    +:+ err +:+ nl)
    | inr [] =>
        log_Printf ("WARNING: No pods returned for service " +:+ v1.svc_Name svc
                    +:+ " in " +:+ v1.svc_Namespace svc +:+ " on cluster "
                    +:+ v1.svc_ClusterName svc +:+ "." +:+ nl)
    | inr (pod0 :: _) =>
        got ← fwdnet_Allocate prober (NetworkRange opts);
        match got with
        | inl err =>
            log_Printf ("WARNING: Error getting IP address: " +:+ err +:+ nl)
        | inr localIP =>
            let args := ["addr"; "add"; net.IP_String localIP; "dev";
                         NetworkInterface opts] in
            failed ← call (exec_Run "ip" args);
            emit (EvRun "ip" args failed);;
            match failed with
            | Some err =>
                emit (EvPrint ("Cannot ifconfig " +:+ NetworkInterface opts
                               +:+ " alias " +:+ net.IP_String localIP
                               +:+ " up: " +:+ err +:+ nl));;
                os_Exit 1
            | None =>
                log_Printf ("🔥 DNS: " +:+ v1.svc_Name svc +:+ "."
                            +:+ v1.svc_Namespace svc +:+ "."
                            +:+ net.IP_String localIP +:+ ".xip.io");;
                forward_ports opts svc pod0 localIP (v1.svc_Ports svc)
            end
        end
    end.

Fixpoint forward_services (opts : FwdServiceOpts) (items : list v1.Service)
  : M W unit :=
  match items with
  | [] => mret tt
  | svc :: items => forward_service opts svc;; forward_services opts items
  end.

Definition fwdServices (opts : FwdServiceOpts) : M W (option error) :=
  listed ← call (Services_List (ClientSet opts) (Namespace opts) (ListOpts opts));
  match listed with
  | inl err => mret (Some err)
  | inr items => forward_services opts items;; mret None
  end.

(** The loop over [namespaces] inside the loop over [contexts]. *)
Fixpoint namespaces_loop (hostFile : Hosts) (restConfig : RestConfig)
  (clientSet : Clientset) (listOptions : ListOptions) (i : nat) (ctx : string)
  (ii : nat) (nss : list string) : M W unit :=
  match nss with
  | [] => mret tt
  | namespace :: nss =>
      err ← fwdServices {|
        ClientSet := clientSet;
        Context := ctx;
        Namespace := namespace;
        ListOpts := listOptions;
        Hostfile := hostFile;
        ClientConfig := restConfig;
        ShortName := (i <? 1)%nat && (ii <? 1)%nat;
        Remote := (0 <? i)%nat;
        NetworkInterface := iface flags;
        NetworkRange := networkRange flags;
        ExitOnFail := exitOnFail flags
      |};
      match err with
      | Some err => log_Printf ("Error forwarding service: " +:+ err +:+ nl)
      | None => mret tt
      end;;
      namespaces_loop hostFile restConfig clientSet listOptions i ctx (S ii) nss
  end.

Fixpoint contexts_loop (hostFile : Hosts) (cfgFilePath : string)
  (listOptions : ListOptions) (nss : list string) (i : nat)
  (ctxs : list string) : M W unit :=
  match ctxs with
  | [] => mret tt
  | ctx :: ctxs =>
      rc ← call (GetRestConfig cfgFilePath ctx);
      match rc with
      | inl err =>
          log_Fatalf ("Error generating REST configuration: " +:+ err +:+ nl)
      | inr restConfig =>
          cs ← call (NewForConfig restConfig);
          match cs with
          | inl err => log_Fatalf ("Error creating k8s client: " +:+ err +:+ nl)
          | inr clientSet =>
              namespaces_loop hostFile restConfig clientSet listOptions i ctx 0 nss;;
              contexts_loop hostFile cfgFilePath listOptions nss (S i) ctxs
          end
      end
  end.

(** The search of the kubeconfig for the namespace of context [x]: the first
    entry of that name with a namespace set. *)
Fixpoint context_namespace (x : string) (ctxs : list NamedContext)
  : option NamedContext :=
  match ctxs with
  | [] => None
  | ctx :: ctxs =>
      if String.eqb (ctx_Name ctx) x && negb (String.eqb (ctx_Namespace ctx) "")
      then Some ctx
      else context_namespace x ctxs
  end.

Definition root_notice : string :=
  nl +:+ "This program requires superuser privileges to run. These" +:+ nl
  +:+ "privileges are required to add IP address aliases to your" +:+ nl
  +:+ "loopback interface. Superuser privileges are also needed" +:+ nl
  +:+ "to listen on low port numbers for these IP addresses." +:+ nl +:+ nl
  +:+ "Try:" +:+ nl +:+ " - sudo -E kubefwd services (Unix)" +:+ nl
  +:+ " - Running a shell with administrator rights (Windows)" +:+ nl +:+ nl.

(** The end of [Cmd.Run]: [wg.Wait()] and what follows it. *)
Definition wait_and_save (hostFile : Hosts) : M W unit :=
  emit EvWait;;
  log_Printf ("Done..." +:+ nl);;
  failed ← call (Hosts_Save hostFile);
  emit (EvSave failed);;
  match failed with
  | Some err => log_Fatalf ("Error saving hostfile: " +:+ err +:+ nl)
  | None => mret tt
  end.

(** [Cmd.Run]. *)
Definition Run : M W unit :=
  '(hasRoot, err) ← call CheckRoot;
  if negb hasRoot then
    emit (EvPrint root_notice);;
    match err with
    | Some err => log_Fatalf ("Root check failure: " +:+ err)
    | None => mret tt
    end
  else
    log_Printf "Press [Ctrl-C] to stop forwarding.";;
    log_Printf "'cat /etc/hosts' to see all host entries.";;
    hf ← call NewHostsDefault;
    match hf with
    | inl err => log_Fatalf ("Hostfile error: " +:+ err)
    | inr hostFile =>
    log_Printf ("Loaded hosts file " +:+ ReadFilePath hostFile +:+ nl);;
    bk ← call (BackupHostFile hostFile);
    match bk with
    | inl err => log_Fatalf ("Error backing up hostfile: " +:+ err +:+ nl)
    | inr msg =>
    log_Printf ("Hostfile management: " +:+ msg);;
    let cfgFilePath := kubeconfig flags in
    if String.eqb cfgFilePath "" then
      log_Fatalf "No config found. Use --kubeconfig to specify one"
    else
    cfg ← call (GetConfig cfgFilePath);
    match cfg with
    | inl err =>
        log_Fatalf ("Error reading configuration configuration: " +:+ err +:+ nl)
    | inr clientConfig =>
    let listOptions := mkListOptions (selector flags) in
    nss ←
      (if (length (namespaces flags) <? 1)%nat then
         let x := match contexts flags with
                  | first :: _ => first
                  | [] => CurrentContext clientConfig
                  end in
         match context_namespace x (Contexts clientConfig) with
         | Some ctx =>
             log_Printf ("Using namespace " +:+ ctx_Namespace ctx
                         +:+ " from current context " +:+ ctx_Name ctx +:+ ".");;
             mret [ctx_Namespace ctx]
         | None => mret ["default"]
         end
       else mret (namespaces flags));
    let ctxs :=
      if (length (contexts flags) <? 1)%nat
      then contexts flags ++ [CurrentContext clientConfig]
      else contexts flags in
    contexts_loop hostFile cfgFilePath listOptions nss 0 ctxs;;
    wait_and_save hostFile
    end end end.

(** [deleteIP], run by a forwarding goroutine under the package mutex. *)
Definition deleteIP (ip : net.IP) (iface : string) : M W unit :=
  let args := ["addr"; "show"; iface] in
  '(out, err) ← call (exec_CombinedOutput "ip" args);
  emit (EvOutput "ip" args out err);;
  match err with
  | Some err =>
      log_Printf ("Error listing " +:+ iface +:+ " IP addresses: " +:+ err +:+ nl)
  | None => mret tt
  end;;
  if strings.Contains out (net.IP_String ip) then
    let args := ["addr"; "del"; net.IP_String ip; "dev"; iface] in
    failed ← call (exec_Run "ip" args);
    emit (EvRun "ip" args failed);;
    match failed with
    | Some err =>
        log_Printf ("Cannot ifconfig " +:+ iface +:+ " alias "
                    +:+ net.IP_String ip +:+ " down: " +:+ err +:+ nl)
    | None => mret tt
    end
  else mret tt.

(** The body of the goroutine [fwdServices] starts for a port, up to its
    [Wg.Done()]: first the tunnel, which blocks until it ends, then the
    release of the address. *)
Definition forwarding_tunnel (pfo : PortForwardOpts) : M W unit :=
  err ← call (PortForward pfo);
  match err with
  | Some err => log_Printf ("ERROR: " +:+ err)
  | None => mret tt
  end;;
  log_Printf ("Stopped forwarding " +:+ pfo_Service pfo +:+ " in "
              +:+ pfo_Namespace pfo +:+ ".").

Definition forwarding (pfo : PortForwardOpts) : M W unit :=
  forwarding_tunnel pfo;;
  deleteIP (pfo_LocalIP pfo) (pfo_NetworkInterface pfo).

End Services.
End services.

(* ===================================================================== *)
(** ** The process: the main goroutine and the goroutines it starts *)
(* ===================================================================== *)

(** Modelled from the spec: [main], which calls [Cmd.Run], is not among the
    sources; the spec gives the "process exit codes 0 (normal) and 1".  The
    exit code of the process when [Cmd.Run] ends is 0 when it returns, the
    code given to [os.Exit] (1 for [log.Fatalf]), and 2, that of the Go
    runtime, for a panic nobody recovers. *)
Definition exit_code (r : Res unit) : Z :=
  match r with
  | Val _ => 0
  | Exit code => code
  | Panic _ => 2
  end.

Module process.

(** What has happened in the process. *)
Inductive Step : Type :=
| Main (e : Event)
| TunnelEnded (pfo : PortForwardOpts) (evs : list Event)
| Released (pfo : PortForwardOpts) (evs : list Event).

(** The process at an instant: what the main goroutine has still to do, the
    goroutines blocked in their tunnel, those whose tunnel has ended and that
    have not reached [Wg.Done()] yet, what has happened so far, and the exit
    code once the process is gone.  The counter of the [sync.WaitGroup] is
    the number of goroutines in [tunnelling] and [stopping]. *)
Record Process : Type := mkProcess {
  script : list Event;
  tunnelling : list PortForwardOpts;
  stopping : list PortForwardOpts;
  history : list Step;
  exit_status : option Z
}.

Definition sessions (p : Process) : list PortForwardOpts :=
  tunnelling p ++ stopping p.

Section Steps.
Context {W : Type} `{!Collaborators W}.

(** One step of the process whose main goroutine ends with [outcome] after
    its script.  [go] starts a goroutine after [Wg.Add(1)]; [Wg.Wait()]
    returns when the counter is zero; a tunnel ends whenever the world lets
    it; the process exits when the main goroutine is done, whatever the
    other goroutines are doing. *)
Inductive step (outcome : Res unit) : Process -> Process -> Prop :=
| step_go pfo todo tn sp h :
    step outcome (mkProcess (EvGo pfo :: todo) tn sp h None)
                 (mkProcess todo (tn ++ [pfo]) sp (h ++ [Main (EvGo pfo)]) None)
| step_wait todo h :
    step outcome (mkProcess (EvWait :: todo) [] [] h None)
                 (mkProcess todo [] [] (h ++ [Main EvWait]) None)
| step_main e todo tn sp h :
    (forall pfo, e <> EvGo pfo) -> e <> EvWait ->
    step outcome (mkProcess (e :: todo) tn sp h None)
                 (mkProcess todo tn sp (h ++ [Main e]) None)
| step_tunnel_end todo tn1 pfo tn2 sp h (st : State W) r st' evs :
    services.forwarding_tunnel pfo st = (r, st', evs) ->
    step outcome (mkProcess todo (tn1 ++ pfo :: tn2) sp h None)
                 (mkProcess todo (tn1 ++ tn2) (sp ++ [pfo])
                            (h ++ [TunnelEnded pfo evs]) None)
| step_release todo tn sp1 pfo sp2 h (st : State W) r st' evs :
    services.deleteIP (pfo_LocalIP pfo) (pfo_NetworkInterface pfo) st
      = (r, st', evs) ->
    step outcome (mkProcess todo tn (sp1 ++ pfo :: sp2) h None)
                 (mkProcess todo tn (sp1 ++ sp2) (h ++ [Released pfo evs]) None)
| step_exit tn sp h :
    step outcome (mkProcess [] tn sp h None)
                 (mkProcess [] tn sp h (Some (exit_code outcome))).

(** The process when [Cmd.Run] is entered in state [st]. *)
Definition start (prober : Prober) (flags : services.Flags) (st : State W)
  : Process :=
  mkProcess (services.Run prober flags st).2 [] [] [] None.

(** The processes a run can be found in. *)
Definition reachable (prober : Prober) (flags : services.Flags) (st : State W)
  (p : Process) : Prop :=
  rtc (step (services.Run prober flags st).1.1) (start prober flags st) p.

End Steps.
End process.

(* ===================================================================== *)
(** ** Vocabulary of the statements *)
(* ===================================================================== *)

Section AllocateCalls.
Context {W : Type} `{!Collaborators W}.

(** A process run that calls [fwdnet.Allocate], in either implementation,
    on the given range texts, one call after the other, up to a call that
    panics: every call with its result and its events, and the state after
    the last one. *)
Fixpoint Allocate_calls (prober : Prober) (ranges : list string) (st : State W)
  : list (Res (error + net.IP) * list Event) * State W :=
  match ranges with
  | [] => ([], st)
  | range :: ranges =>
      let '(res, st', evs) := fwdnet_Allocate prober range st in
      match res with
      | Val _ =>
          let '(calls, final) := Allocate_calls prober ranges st' in
          ((res, evs) :: calls, final)
      | _ => ([(res, evs)], st')
      end
  end.

End AllocateCalls.

(** The addresses the calls returned, in the order of the calls. *)
Definition returned (calls : list (Res (error + net.IP) * list Event))
  : list net.IP :=
  omap (fun call => match call.1 with Val (inr ip) => Some ip | _ => None end)
       calls.

(** The events of all the calls, in order. *)
Definition events_of (calls : list (Res (error + net.IP) * list Event))
  : list Event :=
  mjoin (calls.*2).

(** The spawned sessions among the events of the main goroutine. *)
Definition spawned (evs : list Event) : list PortForwardOpts :=
  omap (fun e => match e with EvGo pfo => Some pfo | _ => None end) evs.

Definition is_wait (e : Event) : bool :=
  match e with EvWait => true | _ => false end.

Definition is_save (e : Event) : bool :=
  match e with EvSave _ => true | _ => false end.

(** Two sessions that differ at most in the ports they forward: they were
    started for the same service, pod, cluster and address. *)
Definition same_service (s1 s2 : PortForwardOpts) : Prop :=
  pfo_Out s1 = pfo_Out s2 /\ pfo_Config s1 = pfo_Config s2 /\
  pfo_ClientSet s1 = pfo_ClientSet s2 /\ pfo_Context s1 = pfo_Context s2 /\
  pfo_Namespace s1 = pfo_Namespace s2 /\ pfo_Service s1 = pfo_Service s2 /\
  pfo_PodName s1 = pfo_PodName s2 /\ pfo_LocalIP s1 = pfo_LocalIP s2 /\
  pfo_NetworkInterface s1 = pfo_NetworkInterface s2 /\
  pfo_Hostfile s1 = pfo_Hostfile s2 /\ pfo_ShortName s1 = pfo_ShortName s2 /\
  pfo_Remote s1 = pfo_Remote s2 /\ pfo_ExitOnFail s1 = pfo_ExitOnFail s2.

(** The address is not in the table [allocated]. *)
Definition unclaimed {W} (st : State W) (ip : net.IP) : Prop :=
  allocated st !! net.IP_String ip = None.

Global Instance unclaimed_dec {W} (st : State W) ip : Decision (unclaimed st ip).
Proof. unfold unclaimed. apply _. Defined.

(** The probe event of the ICMP allocator for an address. *)
Definition ping_event (probe : net.IP * RunResult) : Event :=
  EvPing (mkPinger (net.IP_String probe.1) 3 false) probe.2.

(** A probe all of whose three echo requests were answered. *)
Definition fully_live (r : RunResult) : Prop := PacketsRecv r = 3%Z.

(** The probe event of the ping-command allocator for an address. *)
Definition exec_event (probe : net.IP * (string * option error)) : Event :=
  EvOutput "ping" [net.IP_String probe.1; "-c 2"; "-w 10"] probe.2.1 probe.2.2.

(** The output of the ping command says the host is unreachable. *)
Definition unreachable (out : string) : Prop :=
  strings.Contains out "Destination Host Unreachable" = true.

Definition is_probe (e : Event) : Prop :=
  match e with
  | EvPing _ _ | EvOutput _ _ _ _ => True
  | _ => False
  end.

(** The text of one selector entry. *)
Definition pair_text (kv : string * string) : string := kv.1 +:+ "=" +:+ kv.2.

(** The port declarations of a pod, container by container, and the test
    [portSearch] applies to them. *)
Definition declared_ports (containers : list v1.Container)
  : list v1.ContainerPort :=
  concat (v1.c_Ports <$> containers).

Definition named (portName : string) (cp : v1.ContainerPort) : bool :=
  String.eqb (v1.cp_Name cp) portName.

(** The warning [fwdServices] logs for a service without a selector. *)
Definition no_backing_pods (svc : v1.Service) : string :=
  "WARNING: No backing pods for service " +:+ v1.svc_Name svc +:+ " in "
  +:+ v1.svc_Namespace svc +:+ " on cluster " +:+ v1.svc_ClusterName svc
  +:+ "." +:+ services.nl.

(** The key is in the table [allocated]. *)
Definition claimed {W} (st : State W) (key : string) : Prop :=
  is_Some (allocated st !! key).

(** An event of the part of [Cmd.Run] before [wg.Wait()]. *)
Definition before_wait (e : Event) : Prop :=
  is_wait e = false /\ is_save e = false.

(** The command that adds the address alias to the interface failed. *)
Definition bind_failure (e : Event) : Prop :=
  exists args err, e = EvRun "ip" ("addr" :: "add" :: args) (Some err).

(** A stretch of the main goroutine from state [st] to state [st'] with
    events [evs] and result [r] is orderly when the table only grows, the
    stretch neither waits nor saves, every session it starts has an address
    that was unclaimed before and is claimed after, two of its sessions share
    an address only when they are of the same service, a failed alias
    command ends it with exit code 1, and it exits with no other code. *)
Record orderly {W A} (st : State W) (r : Res A) (st' : State W)
  (evs : list Event) : Prop := mk_orderly {
  ord_mono : forall key, claimed st key -> claimed st' key;
  ord_body : Forall before_wait evs;
  ord_fresh : forall pfo, pfo ∈ spawned evs ->
    unclaimed st (pfo_LocalIP pfo) /\
    claimed st' (net.IP_String (pfo_LocalIP pfo));
  ord_group : forall s1 s2, s1 ∈ spawned evs -> s2 ∈ spawned evs ->
    pfo_LocalIP s1 = pfo_LocalIP s2 -> same_service s1 s2;
  ord_bind : forall e, e ∈ evs -> bind_failure e -> r = Exit 1;
  ord_exit : forall code, r = Exit code -> code = 1%Z
}.

Definition keeps {W A} (m : M W A) : Prop :=
  forall st r st' evs, m st = (r, st', evs) -> orderly st r st' evs.

(** The session [fwdServices] starts for a port of service [svc], backed by
    pod [pod0], on address [ip]: everything but its two ports is fixed. *)
Definition session_of (flags : services.Flags) (opts : services.FwdServiceOpts)
  (svc : v1.Service) (pod0 : v1.Pod) (ip : net.IP) (pfo : PortForwardOpts) : Prop :=
  pfo_Out pfo = mkPublisher "Services" false /\
  pfo_Config pfo = services.ClientConfig opts /\
  pfo_ClientSet pfo = services.ClientSet opts /\
  pfo_Context pfo = services.Context opts /\
  pfo_Namespace pfo = v1.pod_Namespace pod0 /\
  pfo_Service pfo = v1.svc_Name svc /\
  pfo_PodName pfo = v1.pod_Name pod0 /\
  pfo_LocalIP pfo = ip /\
  pfo_NetworkInterface pfo = services.NetworkInterface opts /\
  pfo_Hostfile pfo = services.Hostfile opts /\
  pfo_ShortName pfo = services.ShortName opts /\
  pfo_Remote pfo = services.Remote opts /\
  pfo_ExitOnFail pfo = services.exitOnFail flags.

(** The events of [wg.Wait()] and what follows it. *)
Definition tail_of (failed : option error) : list Event :=
  EvWait :: EvLog ("Done..." +:+ services.nl) :: EvSave failed ::
  match failed with
  | Some err => [EvLog ("Error saving hostfile: " +:+ err +:+ services.nl)]
  | None => []
  end.


(** A run of [Cmd.Run] either ends before [wg.Wait()], orderly all the way,
    or is orderly up to [wg.Wait()], waits, saves the hosts file, and ends
    with exit code 1 when the save failed. *)
Inductive run_shape {W} (st : State W) (r : Res unit) (st' : State W)
  (evs : list Event) : Prop :=
| ended_early : orderly st r st' evs -> run_shape st r st' evs
| ran_through pre stm failed :
    orderly st (Val tt) stm pre ->
    evs = pre ++ tail_of failed ->
    r = match failed with Some _ => Exit 1 | None => Val tt end ->
    run_shape st r st' evs.

Definition shaped {W} (m : M W unit) : Prop :=
  forall st r st' evs, m st = (r, st', evs) -> run_shape st r st' evs.

(** The events of the main goroutine in the history of the process. *)
Definition main_events (h : list process.Step) : list Event :=
  omap (fun s => match s with process.Main e => Some e | _ => None end) h.

(** What holds of the process at every instant of a run with events [evs]:
    the main goroutine follows its script, every session it counts was
    started by the main goroutine, sessions exist only before [wg.Wait()]
    has returned, and the process exits with the code of the main
    goroutine, after its script. *)
Definition inv (outcome : Res unit) (evs : list Event) (p : process.Process)
  : Prop :=
  main_events (process.history p) ++ process.script p = evs /\
  (forall s, s ∈ process.sessions p ->
     s ∈ spawned (main_events (process.history p))) /\
  (Forall before_wait (main_events (process.history p)) \/
   process.sessions p = []) /\
  (forall code, process.exit_status p = Some code ->
     code = exit_code outcome /\ process.script p = []).

Global Instance is_go_dec (e : Event) : Decision (exists pfo, e = EvGo pfo).
Proof.
  destruct e; first [by left; eexists | right; by intros [? ?]].
Defined.

(* ===================================================================== *)
(** ** Collaborators with fixed answers *)
(* ===================================================================== *)

(** Answers fixed in advance, for a world without state. *)
Record Fixture : Type := mkFixture {
  fx_root : bool * option error;
  fx_new_pinger : string -> option error;
  fx_replies : string -> RunResult;
  fx_ping_output : string -> string * option error;
  fx_ip_addr_add : string -> option error;
  fx_services : list v1.Service;
  fx_pods : list v1.Pod
}.

Definition fixture_collaborators (fx : Fixture) : Collaborators unit := {|
  CheckRoot := fun w => (fx_root fx, w);
  NewHostsDefault := fun w => (inr (mkHosts "/etc/hosts"), w);
  BackupHostFile := fun _ w => (inr "Original hosts backup already exists.", w);
  Hosts_Save := fun _ w => (None, w);
  GetConfig := fun _ w =>
    (inr (mkConfig "minikube" [mkNamedContext "minikube" ""]), w);
  GetRestConfig := fun _ _ w => (inr (mkRestConfig 0), w);
  NewForConfig := fun _ w => (inr (mkClientset 0), w);
  Services_List := fun _ _ _ w => (inr (fx_services fx), w);
  Pods_List := fun _ _ _ w => (inr (fx_pods fx), w);
  Pods_Get := fun _ _ name w => (inr (v1.mkPod name "default" []), w);
  NewPinger := fun addr w => (fx_new_pinger fx addr, w);
  Pinger_Run := fun p w => (fx_replies fx (pg_addr p), w);
  exec_Run := fun _ args w =>
    (match args with
     | [_; "add"; addr; _; _] => fx_ip_addr_add fx addr
     | _ => None
     end, w);
  exec_Output := fun _ args w =>
    (match args with
     | addr :: _ => fx_ping_output fx addr
     | [] => ("", None)
     end, w);
  exec_CombinedOutput := fun _ _ w => (("", None), w);
  PortForward := fun _ w => (None, w)
|}.

(** The fixture in which every address is silent and every call succeeds,
    with the liveness of addresses and the cluster's content to fill in. *)
Definition fixture (live : list string) (svcs : list v1.Service)
  (pods : list v1.Pod) : Fixture := {|
  fx_root := (true, None);
  fx_new_pinger := fun _ => None;
  fx_replies := fun addr =>
    if bool_decide (addr ∈ live) then Received 3 else Received 0;
  fx_ping_output := fun addr =>
    if bool_decide (addr ∈ live)
    then ("2 packets transmitted, 2 received, 0% packet loss", None)
    else ("From 10.0.0.254 icmp_seq=1 Destination Host Unreachable",
          Some "exit status 1");
  fx_ip_addr_add := fun _ => None;
  fx_services := svcs;
  fx_pods := pods
|}.

(** The state of a process that has just started. *)
Definition fresh : State unit := mkState ∅ tt.

(** The fixture of a network on which the ping command never prints that a
    host is unreachable: it cannot be started for 10.0.0.1, and loses every
    packet without a word from a router for any other address. *)
Definition silent_ping (addr : string) : string * option error :=
  if String.eqb addr "10.0.0.1"
  then ("", Some "fork/exec /bin/ping: operation not permitted")
  else ("2 packets transmitted, 0 received, 100% packet loss",
        Some "exit status 1").

Definition silent_fixture : Fixture := {|
  fx_root := (true, None);
  fx_new_pinger := fun _ => None;
  fx_replies := fun _ => TransportError "sendto: operation not permitted";
  fx_ping_output := silent_ping;
  fx_ip_addr_add := fun _ => None;
  fx_services := [];
  fx_pods := []
|}.

(** The fixture of a network that loses packets: 10.0.0.1 answers one echo
    request of three, 10.0.0.4 answers two, 10.0.0.3 answers all three, and
    no other address answers. *)
Definition lossy_fixture : Fixture := {|
  fx_root := (true, None);
  fx_new_pinger := fun _ => None;
  fx_replies := fun addr =>
    if String.eqb addr "10.0.0.1" then Received 1
    else if String.eqb addr "10.0.0.4" then Received 2
    else if String.eqb addr "10.0.0.3" then Received 3
    else Received 0;
  fx_ping_output := fun _ => ("", None);
  fx_ip_addr_add := fun _ => None;
  fx_services := [];
  fx_pods := []
|}.

(** The flags of [kubefwd services -n default -c /root/.kube/config]. *)
Definition default_flags : services.Flags := {|
  services.kubeconfig := "/root/.kube/config";
  services.selector := "";
  services.contexts := [];
  services.namespaces := ["default"];
  services.exitOnFail := false;
  services.verbose := false;
  services.iface := "lo";
  services.networkRange := "127.1.27.1-254"
|}.

(** A service with two ports, one named and one numbered, and its pod. *)
Definition web_pod : v1.Pod :=
  v1.mkPod "web-0" "default"
    [v1.mkContainer [v1.mkContainerPort "http" 8080]].

Definition web_service : v1.Service :=
  v1.mkService "web" "default" "" [("app", "web")]
    [v1.mkServicePort 80 (v1.StrVal "http");
     v1.mkServicePort 9090 (v1.IntVal 9090)].

(** A headless service: its selector is empty. *)
Definition headless_service : v1.Service :=
  v1.mkService "db" "default" "" [] [v1.mkServicePort 5432 (v1.IntVal 5432)].

(** The fixture of a user who is not the superuser: the check of
    [utils.CheckRoot] answers no, without an error. *)
Definition unprivileged_fixture : Fixture := {|
  fx_root := (false, None);
  fx_new_pinger := fun _ => None;
  fx_replies := fun _ => Received 0;
  fx_ping_output := fun _ => ("", None);
  fx_ip_addr_add := fun _ => None;
  fx_services := [web_service];
  fx_pods := [web_pod]
|}.

(** The fixture of an interface that refuses the address alias. *)
Definition unbindable_fixture : Fixture := {|
  fx_root := (true, None);
  fx_new_pinger := fun _ => None;
  fx_replies := fun _ => Received 0;
  fx_ping_output := fun _ => ("", None);
  fx_ip_addr_add := fun _ => Some "exit status 2";
  fx_services := [web_service];
  fx_pods := [web_pod]
|}.

(** The session of [web_service] for one of its ports, on the first address
    of the default range. *)
Definition web_session (podPort localPort : string) : PortForwardOpts := {|
  pfo_Out := mkPublisher "Services" false;
  pfo_Config := mkRestConfig 0;
  pfo_ClientSet := mkClientset 0;
  pfo_Context := "minikube";
  pfo_Namespace := "default";
  pfo_Service := "web";
  pfo_PodName := "web-0";
  pfo_PodPort := podPort;
  pfo_LocalIP := net.mkIP 127 1 27 1;
  pfo_LocalPort := localPort;
  pfo_NetworkInterface := "lo";
  pfo_Hostfile := mkHosts "/etc/hosts";
  pfo_ShortName := true;
  pfo_Remote := false;
  pfo_ExitOnFail := false
|}.

(* ===================================================================== *)
(** ** Vocabulary of the further properties *)
(* ===================================================================== *)

(** The address a probe event went to: that of the pinger, or the first
    argument of the ping command. *)
Definition probe_addr (e : Event) : option string :=
  match e with
  | EvPing p _ => Some (pg_addr p)
  | EvOutput _ (addr :: _) _ _ => Some addr
  | _ => None
  end.

(** The session the port loop of [fwdServices] starts for [port] of service
    [svc], backed by pod [pod0], on address [ip]. *)
Definition port_session (flags : services.Flags) (opts : services.FwdServiceOpts)
  (svc : v1.Service) (pod0 : v1.Pod) (ip : net.IP) (port : v1.ServicePort)
  : PortForwardOpts :=
  {| pfo_Out := mkPublisher "Services" false;
     pfo_Config := services.ClientConfig opts;
     pfo_ClientSet := services.ClientSet opts;
     pfo_Context := services.Context opts;
     pfo_Namespace := v1.pod_Namespace pod0;
     pfo_Service := v1.svc_Name svc;
     pfo_PodName := v1.pod_Name pod0;
     pfo_PodPort := services.podPort_of port (v1.pod_Containers pod0);
     pfo_LocalIP := ip;
     pfo_LocalPort := strconv.Itoa (v1.sp_Port port);
     pfo_NetworkInterface := services.NetworkInterface opts;
     pfo_Hostfile := services.Hostfile opts;
     pfo_ShortName := services.ShortName opts;
     pfo_Remote := services.Remote opts;
     pfo_ExitOnFail := services.exitOnFail flags |}.

(** The warning that ends the port loop of a service. *)
Definition pod_get_warning (err : error) : Event :=
  EvLog ("WARNING: Error getting pod: " +:+ err +:+ services.nl).

(** An event that spends something: a probe, a command or a session. *)
Definition spends (e : Event) : Prop :=
  match e with
  | EvPing _ _ | EvOutput _ _ _ _ | EvRun _ _ _ | EvGo _ => True
  | _ => False
  end.

(** A port number of Kubernetes, an [int32]. *)
Definition int32 (i : Z) : Prop := (- 2 ^ 31 <= i < 2 ^ 31)%Z.

(** The options of [fwdServices] in the run of [default_flags] on the fixed
    collaborators: first context, first namespace. *)
Definition web_opts : services.FwdServiceOpts := {|
  services.ClientSet := mkClientset 0;
  services.Context := "minikube";
  services.Namespace := "default";
  services.ListOpts := mkListOptions "";
  services.Hostfile := mkHosts "/etc/hosts";
  services.ClientConfig := mkRestConfig 0;
  services.ShortName := true;
  services.Remote := false;
  services.NetworkInterface := "lo";
  services.NetworkRange := "127.1.27.1-254";
  services.ExitOnFail := false
|}.

(** How a computation ended, without the value it returned. *)
Definition outcome {A} (r : Res A) : Res unit :=
  match r with
  | Val _ => Val tt
  | Exit code => Exit code
  | Panic err => Panic err
  end.

(** A property of the stretches of the main goroutine (the state before, how
    the stretch ended, the state after, its events) is lawful when it holds
    of a stretch that does nothing but change the world and when it holds of
    two stretches put end to end. *)
Record lawful {W}
  (P : State W -> Res unit -> State W -> list Event -> Prop) : Prop := mk_lawful {
  law_quiet : forall st st', allocated st' = allocated st -> P st (Val tt) st' [];
  law_seq : forall st st1 st2 r e1 e2,
    P st (Val tt) st1 e1 -> P st1 r st2 e2 -> P st r st2 (e1 ++ e2)
}.

(** Every run of [m] has the property [P]. *)
Definition obeys {W A}
  (P : State W -> Res unit -> State W -> list Event -> Prop) (m : M W A) : Prop :=
  forall st r st' evs, m st = (r, st', evs) -> P st (outcome r) st' evs.

(** The messages [Cmd.Run] logs with [log.Fatalf]. *)
Inductive fatal : string -> Prop :=
| fatal_root err : fatal ("Root check failure: " +:+ err)
| fatal_hosts err : fatal ("Hostfile error: " +:+ err)
| fatal_backup err :
    fatal ("Error backing up hostfile: " +:+ err +:+ services.nl)
| fatal_no_config : fatal "No config found. Use --kubeconfig to specify one"
| fatal_config err :
    fatal ("Error reading configuration configuration: " +:+ err +:+ services.nl)
| fatal_rest err :
    fatal ("Error generating REST configuration: " +:+ err +:+ services.nl)
| fatal_client err : fatal ("Error creating k8s client: " +:+ err +:+ services.nl)
| fatal_save err : fatal ("Error saving hostfile: " +:+ err +:+ services.nl).

(** The contexts [Cmd.Run] goes through: those of the flag, or the current
    context of the kubeconfig when the flag names none. *)
Definition run_contexts (flags : services.Flags) (current : string)
  : list string :=
  if (length (services.contexts flags) <? 1)%nat
  then services.contexts flags ++ [current]
  else services.contexts flags.

(** The options [Cmd.Run] calls [fwdServices] with, for the context at
    position [i] of the list [ctxs] and the namespace at position [ii]. *)
Definition run_opts (flags : services.Flags) (hostFile : Hosts)
  (ctxs : list string) (opts : services.FwdServiceOpts) : Prop :=
  services.Hostfile opts = hostFile /\
  services.NetworkInterface opts = services.iface flags /\
  services.NetworkRange opts = services.networkRange flags /\
  services.ExitOnFail opts = services.exitOnFail flags /\
  exists i ii : nat,
    ctxs !! i = Some (services.Context opts) /\
    services.ShortName opts = (i <? 1)%nat && (ii <? 1)%nat /\
    services.Remote opts = (0 <? i)%nat.

(** The command that puts the address of a session on its interface. *)
Definition alias_args (ip : net.IP) (iface : string) : list string :=
  ["addr"; "add"; net.IP_String ip; "dev"; iface].

Definition alias_added (pfo : PortForwardOpts) : Event :=
  EvRun "ip" (alias_args (pfo_LocalIP pfo) (pfo_NetworkInterface pfo)) None.

(** Every session is started after the command that put its address on its
    interface has succeeded. *)
Definition aliased_first (evs : list Event) : Prop :=
  forall i pfo, evs !! i = Some (EvGo pfo) ->
    exists j, j < i /\ evs !! j = Some (alias_added pfo).

(** The address an [ip addr add] command is run for. *)
Definition added_addr (e : Event) : option string :=
  match e with
  | EvRun "ip" ["addr"; "add"; addr; "dev"; _] _ => Some addr
  | _ => None
  end.

(** The keys of the events of a stretch, under [key], are pairwise distinct,
    were not in the table before the stretch and are in it after; the table
    loses no key. *)
Definition uses {W} (key : Event -> option string)
  (st : State W) (st' : State W) (evs : list Event) : Prop :=
  (forall k, is_Some (allocated st !! k) -> is_Some (allocated st' !! k)) /\
  NoDup (omap key evs) /\
  forall k, k ∈ omap key evs ->
    allocated st !! k = None /\ is_Some (allocated st' !! k).

(** What ends a run with an exit: a fatal message, or the notice that the
    alias of an address could not be added, right after the command failed. *)
Definition exit_cause (evs : list Event) : Prop :=
  (exists msg pre, evs = pre ++ [EvLog msg] /\ fatal msg) \/
  (exists pre ip iface err,
     evs = pre ++ [EvRun "ip" (alias_args ip iface) (Some err);
                   EvPrint ("Cannot ifconfig " +:+ iface +:+ " alias "
                            +:+ net.IP_String ip +:+ " up: " +:+ err
                            +:+ services.nl)]).

(** An event of the port loop: a line of the log or the start of a session. *)
Definition log_or_go (e : Event) : Prop :=
  match e with
  | EvLog _ | EvGo _ => True
  | _ => False
  end.

(** How [Cmd.Run] may end other than by returning: with exit code 1 and a
    cause, or with the panic of [Allocate] on an error of [NewPinger]. *)
Definition ends_with_a_cause {W} `{!Collaborators W} (prober : Prober)
  (r : Res unit) (evs : list Event) : Prop :=
  match r with
  | Val _ => True
  | Exit code => code = 1%Z /\ exit_cause evs
  | Panic err =>
      prober = IcmpLibrary /\ exists addr w, (NewPinger addr w).1 = Some err
  end.

(** The commands run among the events: name and arguments. *)
Definition commands (evs : list Event) : list (string * list string) :=
  omap (fun e => match e with EvRun name args _ => Some (name, args) | _ => None end)
       evs.

(** The command that takes the address of a session off its interface. *)
Definition alias_removal (pfo : PortForwardOpts) : string * list string :=
  ("ip", ["addr"; "del"; net.IP_String (pfo_LocalIP pfo); "dev";
          pfo_NetworkInterface pfo]).

(** The fixture of a network on which the ping command reports an
    unreachable host and still ends without an error: 10.0.0.1 and 10.0.0.2
    answer, for any other address a router says the host is unreachable. *)
Definition unreachable_fixture : Fixture := {|
  fx_root := (true, None);
  fx_new_pinger := fun _ => None;
  fx_replies := fun _ => Received 0;
  fx_ping_output := fun addr =>
    if bool_decide (addr ∈ ["10.0.0.1"; "10.0.0.2"])
    then ("2 packets transmitted, 2 received, 0% packet loss", None)
    else ("From 10.0.0.254 icmp_seq=1 Destination Host Unreachable", None);
  fx_ip_addr_add := fun _ => None;
  fx_services := [];
  fx_pods := []
|}.

(** [Pods.Get] for the pod answered [n] times in a row without an error,
    taking the world from [w] to [w']. *)
Inductive got {W} `{!Collaborators W} (cs : Clientset) (ns name : string)
  : W -> nat -> W -> Prop :=
| got_none w : got cs ns name w 0 w
| got_more w pod w1 n w2 :
    Pods_Get cs ns name w = (inr pod, w1) ->
    got cs ns name w1 n w2 ->
    got cs ns name w (S n) w2.

(** Collaborators of a cluster and a host in trouble.  The world counts the
    calls of [Pods.Get], the first of which finds the pod and the later ones
    do not.  The listing of the interface fails after it has printed the
    address 127.1.27.1, and the command that takes an alias off fails too.
    Every other call succeeds and no address answers. *)
Definition troubled_collaborators : Collaborators nat := {|
  CheckRoot := fun w => ((true, None), w);
  NewHostsDefault := fun w => (inr (mkHosts "/etc/hosts"), w);
  BackupHostFile := fun _ w => (inr "Original hosts backup already exists.", w);
  Hosts_Save := fun _ w => (None, w);
  GetConfig := fun _ w =>
    (inr (mkConfig "minikube" [mkNamedContext "minikube" ""]), w);
  GetRestConfig := fun _ _ w => (inr (mkRestConfig 0), w);
  NewForConfig := fun _ w => (inr (mkClientset 0), w);
  Services_List := fun _ _ _ w => (inr [web_service], w);
  Pods_List := fun _ _ _ w => (inr [web_pod], w);
  Pods_Get := fun _ _ name w =>
    (match w with
     | 0 => inr (v1.mkPod name "default" [])
     | _ => inl ("pods " +:+ name +:+ " not found")
     end, S w);
  NewPinger := fun _ w => (None, w);
  Pinger_Run := fun _ w => (Received 0, w);
  exec_Run := fun _ args w =>
    (match args with
     | [_; "del"; _; _; _] => Some "exit status 2"
     | _ => None
     end, w);
  exec_Output := fun _ _ w => (("", None), w);
  exec_CombinedOutput := fun _ _ w =>
    (("    inet 127.1.27.1/8 scope host lo", Some "signal: killed"), w);
  PortForward := fun _ w => (Some "lost connection to pod", w)
|}.

(* ===================================================================== *)
(** * Properties *)
(* ===================================================================== *)

Local Set Warnings "-clear-no-such-hyp".

(* ===================================================================== *)
(** ** Decimal renderings and dotted addresses *)
(* ===================================================================== *)

Lemma digit_val_pretty_N_char (d : N) :
  (d < 10)%N -> strconv.digit_val (pretty_N_char d) = Some d.
Proof.
  intros Hd.
  assert (d = 0 \/ d = 1 \/ d = 2 \/ d = 3 \/ d = 4 \/ d = 5 \/ d = 6 \/ d = 7
          \/ d = 8 \/ d = 9)%N as Hcases by lia.
  repeat (destruct Hcases as [->|Hcases]; [reflexivity|]). by subst.
Qed.

Lemma digits_from_pretty_N_go (x : N) : forall s,
  strconv.digits_from 0 (pretty_N_go x s) = strconv.digits_from x s.
Proof.
  induction (N.lt_wf_0 x) as [x _ IH]; intros s.
  destruct (decide (x = 0)%N) as [->|Hx]; [by rewrite pretty_N_go_0|].
  rewrite pretty_N_go_step by lia.
  rewrite IH by (apply N.div_lt; lia).
  cbn [strconv.digits_from].
  rewrite digit_val_pretty_N_char by (apply N.mod_lt; lia).
  f_equal. pose proof (N.div_mod x 10). lia.
Qed.

Lemma digits_from_pretty (n : N) : strconv.digits_from 0 (pretty n) = Some n.
Proof.
  unfold pretty, pretty_N. case_decide as Hn; [by subst|].
  by rewrite digits_from_pretty_N_go.
Qed.

Lemma pretty_N_nonempty (n : N) : pretty n <> "".
Proof.
  unfold pretty, pretty_N. case_decide as Hn; [done|].
  rewrite pretty_N_go_step by lia.
  intros Hempty.
  assert (Hlen : forall x s, String.length s <= String.length (pretty_N_go x s)).
  { clear. intros x. induction (N.lt_wf_0 x) as [x _ IH]; intros s.
    destruct (decide (x = 0)%N) as [->|Hx]; [by rewrite pretty_N_go_0|].
    rewrite pretty_N_go_step by lia.
    etrans; [|apply IH, N.div_lt; lia]. cbn. lia. }
  specialize (Hlen (n `div` 10)%N (String (pretty_N_char (n `mod` 10)) "")).
  rewrite Hempty in Hlen. cbn in Hlen. lia.
Qed.

Lemma parse_digits_pretty (n : N) : strconv.parse_digits (pretty n) = Some n.
Proof.
  unfold strconv.parse_digits.
  pose proof (pretty_N_nonempty n) as Hne.
  destruct (pretty n) eqn:Heq; [done|]. rewrite <- Heq.
  apply digits_from_pretty.
Qed.

(** Two texts that start with digits up to a dot agree on both parts. *)
Lemma digits_dot_inj (s1 : string) : forall s2 r1 r2 n1 n2 v1 v2,
  strconv.digits_from n1 s1 = Some v1 ->
  strconv.digits_from n2 s2 = Some v2 ->
  s1 +:+ "." +:+ r1 = s2 +:+ "." +:+ r2 -> s1 = s2 /\ r1 = r2.
Proof.
  induction s1 as [|c1 s1 IH]; intros [|c2 s2] r1 r2 n1 n2 v1 v2 H1 H2 Heq;
    cbn in Heq.
  - by simplify_eq.
  - simplify_eq; cbn in H2; done.
  - simplify_eq; cbn in H1; done.
  - injection Heq as -> Heq. cbn in H1, H2.
    destruct (strconv.digit_val c2); [|done].
    destruct (IH _ _ _ _ _ _ _ H1 H2 Heq) as [-> ->]. done.
Qed.

(** Two addresses with the same dotted text are the same address. *)
Lemma IP_String_inj : Inj (=) (=) net.IP_String.
Proof.
  intros [a1 b1 c1 d1] [a2 b2 c2 d2]. unfold net.IP_String; cbn.
  intros Heq.
  eapply digits_dot_inj in Heq as [Ha Heq]; [|apply digits_from_pretty..].
  eapply digits_dot_inj in Heq as [Hb Heq]; [|apply digits_from_pretty..].
  eapply digits_dot_inj in Heq as [Hc Hd]; [|apply digits_from_pretty..].
  apply (inj pretty) in Ha, Hb, Hc, Hd. by subst.
Qed.

#[global] Existing Instance IP_String_inj.

Lemma to_N_of_N (n : N) : (n < 2 ^ 32)%N -> net.to_N (net.of_N n) = n.
Proof.
  intros Hn. unfold net.to_N, net.of_N; cbn.
  change (2 ^ 32)%N with 4294967296%N in Hn.
  pose proof (N.Div0.div_mod n 256).
  pose proof (N.Div0.div_mod (n / 256) 256).
  pose proof (N.Div0.div_mod (n / 256 / 256) 256).
  assert (n / 65536 = n / 256 / 256)%N as -> by (rewrite N.Div0.div_div; done).
  assert (n / 16777216 = n / 256 / 256 / 256)%N as ->
    by (rewrite !N.Div0.div_div; done).
  assert (n / 256 / 256 / 256 < 256)%N.
  { rewrite !N.Div0.div_div. apply N.Div0.div_lt_upper_bound. lia. }
  rewrite (N.mod_small (n / 256 / 256 / 256) 256) by done.
  lia.
Qed.

Lemma parse_octet_bound s n : iprange.parse_octet s = Some n -> (n <= 255)%N.
Proof.
  unfold iprange.parse_octet.
  destruct (strconv.parse_digits s); [|done].
  destruct (_ <=? _)%N eqn:Hle; [|done]. intros [= <-]. by apply N.leb_le.
Qed.

Lemma parse_ip_bound s ip :
  iprange.parse_ip s = Some ip ->
  (net.o1 ip <= 255 /\ net.o2 ip <= 255 /\ net.o3 ip <= 255 /\ net.o4 ip <= 255)%N.
Proof.
  unfold iprange.parse_ip.
  destruct (iprange.split_on "." s) as [|a [|b [|c [|d [|]]]]]; try done.
  destruct (iprange.parse_octet a) eqn:Ha; [|done].
  destruct (iprange.parse_octet b) eqn:Hb; [|done].
  destruct (iprange.parse_octet c) eqn:Hc; [|done].
  destruct (iprange.parse_octet d) eqn:Hd; [|done].
  intros [= <-]; cbn. split_and!; eapply parse_octet_bound; eassumption.
Qed.

Lemma ParseIPRange_bounds s ipr :
  iprange.ParseIPRange s = inr ipr ->
  (net.to_N (iprange.Start ipr) <= net.to_N (iprange.End ipr) < 2 ^ 32)%N.
Proof.
  assert (Hsmall : forall ip,
    (net.o1 ip <= 255 /\ net.o2 ip <= 255 /\ net.o3 ip <= 255 /\ net.o4 ip <= 255)%N ->
    (net.to_N ip < 2 ^ 32)%N).
  { intros ip (? & ? & ? & ?). unfold net.to_N.
    change (2 ^ 32)%N with 4294967296%N. lia. }
  unfold iprange.ParseIPRange.
  destruct (iprange.split_on "-" s) as [|first [|last [|]]]; try done.
  - destruct (iprange.parse_ip first) as [ip|] eqn:Hip; [|done].
    intros [= <-]; cbn. split; [lia|]. eauto using parse_ip_bound.
  - destruct (iprange.parse_ip first) as [ip|] eqn:Hip; [|done].
    pose proof (parse_ip_bound _ _ Hip) as (? & ? & ? & ?).
    destruct (iprange.parse_octet last) as [e|] eqn:He.
    + cbv zeta. destruct (_ <=? _)%N eqn:Hle; [|done]. apply N.leb_le in Hle.
      intros [= <-]; cbn [iprange.Start iprange.End]. split; [lia|].
      apply Hsmall; cbn. eauto using parse_octet_bound.
    + destruct (iprange.parse_ip last) as [ip'|] eqn:Hip'; [|done].
      cbv zeta. destruct (_ <=? _)%N eqn:Hle; [|done]. apply N.leb_le in Hle.
      intros [= <-]; cbn [iprange.Start iprange.End]. split; [lia|].
      eauto using parse_ip_bound.
Qed.

(** The candidates of a parsed range are pairwise distinct, also as texts. *)
Lemma addresses_NoDup s ipr :
  iprange.ParseIPRange s = inr ipr ->
  NoDup (net.IP_String <$> iprange.addresses ipr).
Proof.
  intros [Hle Hlt]%ParseIPRange_bounds.
  apply (NoDup_fmap_2 _). unfold iprange.addresses.
  apply NoDup_fmap_2_strong; [|apply NoDup_seq].
  intros i j [_ Hi]%elem_of_seq [_ Hj]%elem_of_seq Heq.
  apply (f_equal net.to_N) in Heq.
  rewrite !to_N_of_N in Heq by lia. lia.
Qed.

Lemma addresses_length ipr :
  length (iprange.addresses ipr) =
  N.to_nat (net.to_N (iprange.End ipr) + 1 - net.to_N (iprange.Start ipr)).
Proof. unfold iprange.addresses. by rewrite length_fmap, length_seq. Qed.

Lemma claimed_insert (m : gmap string bool) (k key : string) :
  is_Some (<[k := true]> m !! key) <-> is_Some (m !! key) \/ key = k.
Proof.
  rewrite lookup_insert_is_Some'. split; intros [?|?]; auto.
Qed.

Lemma filter_ext_elem {A} (P Q : A -> Prop)
  `{!forall x, Decision (P x)} `{!forall x, Decision (Q x)} (l : list A) :
  (forall x, x ∈ l -> P x <-> Q x) -> filter P l = filter Q l.
Proof.
  induction l as [|x l IH]; intros Hext; [done|].
  rewrite !filter_cons.
  rewrite IH by (intros y Hy; apply Hext; by right).
  destruct (decide (P x)) as [HP|HP], (decide (Q x)) as [HQ|HQ]; try done.
  - apply Hext in HP; [done|by left].
  - apply Hext in HQ; [done|by left].
Qed.

Section AllocateFacts.
Context {W : Type} `{!Collaborators W}.

Lemma Allocate_loop_nil (st : State W) :
  fwdnet.Allocate_loop [] st = (Val (inl "No IP addresses available"), st, []).
Proof. reflexivity. Qed.

Lemma Allocate_loop_cons ip pending (st : State W) :
  fwdnet.Allocate_loop (ip :: pending) st =
  match allocated st !! net.IP_String ip with
  | Some _ => fwdnet.Allocate_loop pending st
  | None =>
      let table := <[net.IP_String ip := true]> (allocated st) in
      let pinger := mkPinger (net.IP_String ip) 3 false in
      match NewPinger (net.IP_String ip) (world st) with
      | (Some err, w1) => (Panic err, mkState table w1, [])
      | (None, w1) =>
          let '(r, w2) := Pinger_Run pinger w1 in
          if (PacketsRecv r =? 3)%Z then
            let '(res, st', evs) :=
              fwdnet.Allocate_loop pending (mkState table w2) in
            (res, st', EvPing pinger r :: evs)
          else (Val (inr ip), mkState table w2, [EvPing pinger r])
      end
  end.
Proof.
  cbn [fwdnet.Allocate_loop].
  unfold mbind, M_bind, is_allocated, set_allocated, call, emit, mret, M_ret, panic.
  destruct (allocated st !! net.IP_String ip) as [b|] eqn:Hlook; cbn.
  - by destruct (fwdnet.Allocate_loop pending st) as [[[]]].
  - destruct (NewPinger (net.IP_String ip) (world st)) as [[err|] w1]; cbn; [done|].
    destruct (Pinger_Run _ w1) as [r w2]; cbn.
    destruct (PacketsRecv r =? 3)%Z; cbn; [|done].
    destruct (fwdnet.Allocate_loop pending _) as [[[]]]; done.
Qed.

(** What one run of the loop did: the candidates [tried] before it stopped,
    those of them it probed ([lives], all found fully live), and how it
    stopped. *)
Lemma Allocate_loop_spec pending : forall (st : State W) res st' evs,
  NoDup (net.IP_String <$> pending) ->
  fwdnet.Allocate_loop pending st = (res, st', evs) ->
  exists (tried : list net.IP) (lives : list (net.IP * RunResult)),
    lives.*1 = filter (unclaimed st) tried /\
    Forall (fun probe => fully_live probe.2) lives /\
    match res with
    | Val (inr ip) => exists rest r,
        pending = tried ++ ip :: rest /\ unclaimed st ip /\ ~ fully_live r /\
        evs = ping_event <$> (lives ++ [(ip, r)]) /\
        forall key, is_Some (allocated st' !! key) <->
          is_Some (allocated st !! key) \/
          key ∈ net.IP_String <$> (lives.*1 ++ [ip])
    | Val (inl err) =>
        err = "No IP addresses available" /\ tried = pending /\
        evs = ping_event <$> lives /\
        forall key, is_Some (allocated st' !! key) <->
          is_Some (allocated st !! key) \/
          key ∈ net.IP_String <$> lives.*1
    | Panic err => exists ip rest w,
        pending = tried ++ ip :: rest /\ unclaimed st ip /\
        (NewPinger (net.IP_String ip) w).1 = Some err /\
        evs = ping_event <$> lives /\
        forall key, is_Some (allocated st' !! key) <->
          is_Some (allocated st !! key) \/
          key ∈ net.IP_String <$> (lives.*1 ++ [ip])
    | Exit _ => False
    end.
Proof.
  induction pending as [|c pending IH]; intros st res st' evs Hnd Hrun.
  - rewrite Allocate_loop_nil in Hrun. simplify_eq.
    exists [], []. repeat split; auto; set_solver.
  - rewrite Allocate_loop_cons in Hrun.
    rewrite fmap_cons in Hnd. apply NoDup_cons in Hnd as [Hc Hnd].
    destruct (allocated st !! net.IP_String c) as [b|] eqn:Hlook.
    + destruct (IH _ _ _ _ Hnd Hrun) as (tried & lives & Hmap & Hlive & Hres).
      exists (c :: tried), lives. split; [|split; [done|]].
      { rewrite filter_cons_False; [done|]. unfold unclaimed. congruence. }
      destruct res as [[err|ip]| |err]; [| | done |].
      * destruct Hres as (-> & -> & -> & Hdom). done.
      * destruct Hres as (rest & r & -> & ? & ? & -> & Hdom).
        exists rest, r. done.
      * destruct Hres as (ip & rest & w & -> & ? & ? & -> & Hdom).
        exists ip, rest, w. done.
    + cbv zeta in Hrun.
      destruct (NewPinger (net.IP_String c) (world st)) as [[err|] w1] eqn:Hnew.
      { simplify_eq. exists [], []. split; [done|]. split; [done|].
        exists c, pending, (world st). rewrite Hnew. repeat split; auto.
        all: cbn; rewrite claimed_insert; set_solver. }
      destruct (Pinger_Run _ w1) as [r w2] eqn:Hping.
      destruct (PacketsRecv r =? 3)%Z eqn:Hr.
      * destruct (fwdnet.Allocate_loop pending _) as [[res1 st1] evs1] eqn:Hrec.
        simplify_eq.
        destruct (IH _ _ _ _ Hnd Hrec) as (tried & lives & Hmap & Hlive & Hres).
        set (st1 := mkState (<[net.IP_String c:=true]> (allocated st)) w2) in *.
        assert (Hsame : forall ips : list net.IP, net.IP_String c ∉ net.IP_String <$> ips ->
                  filter (unclaimed st1) ips = filter (unclaimed st) ips).
        { intros ips Hnot. apply filter_ext_elem. intros ip Hip.
          unfold unclaimed, st1; cbn. rewrite lookup_insert_ne; [done|].
          intros Heq. apply Hnot. rewrite Heq. by apply list_elem_of_fmap_2. }
        assert (Hstep : forall ip, unclaimed st1 ip -> unclaimed st ip).
        { intros ip. unfold unclaimed, st1; cbn.
          intros [? _]%lookup_insert_None. done. }
        assert (Hdom1 : forall key (ips : list net.IP),
                  (is_Some (allocated st1 !! key) \/ key ∈ net.IP_String <$> ips) <->
                  is_Some (allocated st !! key) \/
                  key ∈ net.IP_String <$> (c :: ips)).
        { intros key ips. unfold st1; cbn. rewrite claimed_insert. set_solver. }
        assert (Hlive1 : fully_live r) by (unfold fully_live; lia).
        destruct res as [[err|ip]| |err]; [| | done |].
        -- destruct Hres as (-> & -> & -> & Hdom).
           exists (c :: pending), ((c, r) :: lives). split_and!; auto.
           ++ rewrite filter_cons_True by done. cbn. rewrite Hmap. f_equal. auto.
           ++ intros key. rewrite Hdom. exact (Hdom1 key _).
        -- destruct Hres as (rest & r' & -> & ? & ? & -> & Hdom).
           assert (net.IP_String c ∉ net.IP_String <$> tried).
           { intros Hin. apply Hc. rewrite fmap_app. apply elem_of_app. by left. }
           exists (c :: tried), ((c, r) :: lives). split; [|split; [by constructor|]].
           { rewrite filter_cons_True by done. cbn. rewrite Hmap. f_equal. auto. }
           exists rest, r'. split_and!; auto.
           intros key. rewrite Hdom. exact (Hdom1 key _).
        -- destruct Hres as (ip & rest & w & -> & ? & ? & -> & Hdom).
           assert (net.IP_String c ∉ net.IP_String <$> tried).
           { intros Hin. apply Hc. rewrite fmap_app. apply elem_of_app. by left. }
           exists (c :: tried), ((c, r) :: lives). split; [|split; [by constructor|]].
           { rewrite filter_cons_True by done. cbn. rewrite Hmap. f_equal. auto. }
           exists ip, rest, w. split_and!; auto.
           intros key. rewrite Hdom. exact (Hdom1 key _).
      * simplify_eq. exists [], []. split; [done|]. split; [done|].
        exists pending, r. repeat split; auto.
        -- unfold fully_live. lia.
        -- cbn. rewrite claimed_insert. set_solver.
        -- cbn. rewrite claimed_insert. set_solver.
Qed.

End AllocateFacts.

(* ===================================================================== *)
(** ** The allocator that probes with the ping command *)
(* ===================================================================== *)

Section ExecAllocateFacts.
Context {W : Type} `{!Collaborators W}.

Lemma exec_Allocate_loop_cons ip pending (st : State W) :
  fwdnet_exec.Allocate_loop (ip :: pending) st =
  match allocated st !! net.IP_String ip with
  | Some _ => fwdnet_exec.Allocate_loop pending st
  | None =>
      let table := <[net.IP_String ip := true]> (allocated st) in
      let args := [net.IP_String ip; "-c 2"; "-w 10"] in
      let '(out, err, w1) := exec_Output "ping" args (world st) in
      if strings.Contains out "Destination Host Unreachable"
      then (Val (inr ip), mkState table w1, [EvOutput "ping" args out err])
      else
        let '(res, st', evs) :=
          fwdnet_exec.Allocate_loop pending (mkState table w1) in
        (res, st', EvOutput "ping" args out err :: evs)
  end.
Proof.
  cbn [fwdnet_exec.Allocate_loop].
  unfold mbind, M_bind, is_allocated, set_allocated, call, emit, mret, M_ret.
  destruct (allocated st !! net.IP_String ip) as [b|] eqn:Hlook; cbn.
  - by destruct (fwdnet_exec.Allocate_loop pending st) as [[[]]].
  - destruct (exec_Output _ _ (world st)) as [[out err] w1]; cbn.
    destruct (strings.Contains out _); cbn; [done|].
    destruct (fwdnet_exec.Allocate_loop pending _) as [[[]]]; done.
Qed.

Lemma exec_Allocate_loop_spec pending : forall (st : State W) res st' evs,
  NoDup (net.IP_String <$> pending) ->
  fwdnet_exec.Allocate_loop pending st = (res, st', evs) ->
  exists (tried : list net.IP) (skipped : list (net.IP * (string * option error))),
    skipped.*1 = filter (unclaimed st) tried /\
    Forall (fun probe => ~ unreachable probe.2.1) skipped /\
    match res with
    | Val (inr ip) => exists rest out err,
        pending = tried ++ ip :: rest /\ unclaimed st ip /\ unreachable out /\
        evs = exec_event <$> (skipped ++ [(ip, (out, err))]) /\
        forall key, is_Some (allocated st' !! key) <->
          is_Some (allocated st !! key) \/
          key ∈ net.IP_String <$> (skipped.*1 ++ [ip])
    | Val (inl err) =>
        err = "No IP addresses available" /\ tried = pending /\
        evs = exec_event <$> skipped /\
        forall key, is_Some (allocated st' !! key) <->
          is_Some (allocated st !! key) \/
          key ∈ net.IP_String <$> skipped.*1
    | Exit _ | Panic _ => False
    end.
Proof.
  induction pending as [|c pending IH]; intros st res st' evs Hnd Hrun.
  - cbn in Hrun. unfold mret, M_ret in Hrun. simplify_eq.
    exists [], []. split_and!; auto. set_solver.
  - rewrite exec_Allocate_loop_cons in Hrun.
    rewrite fmap_cons in Hnd. apply NoDup_cons in Hnd as [Hc Hnd].
    destruct (allocated st !! net.IP_String c) as [b|] eqn:Hlook.
    + destruct (IH _ _ _ _ Hnd Hrun) as (tried & skipped & Hmap & Hskip & Hres).
      exists (c :: tried), skipped. split; [|split; [done|]].
      { rewrite filter_cons_False; [done|]. unfold unclaimed. congruence. }
      destruct res as [[err|ip]| |err]; [| | done | done].
      * destruct Hres as (-> & -> & -> & Hdom). done.
      * destruct Hres as (rest & out & err & -> & ? & ? & -> & Hdom).
        exists rest, out, err. done.
    + cbv zeta in Hrun.
      destruct (exec_Output _ _ (world st)) as [[out err] w1] eqn:Hout.
      destruct (strings.Contains out _) eqn:Hcontains.
      * simplify_eq. exists [], []. split; [done|]. split; [done|].
        exists pending, out, err. split_and!; auto.
        intros key. cbn. rewrite claimed_insert. set_solver.
      * destruct (fwdnet_exec.Allocate_loop pending _) as [[res1 st1] evs1] eqn:Hrec.
        simplify_eq.
        destruct (IH _ _ _ _ Hnd Hrec) as (tried & skipped & Hmap & Hskip & Hres).
        set (st1 := mkState (<[net.IP_String c:=true]> (allocated st)) w1) in *.
        assert (Hsame : forall ips : list net.IP,
                  net.IP_String c ∉ net.IP_String <$> ips ->
                  filter (unclaimed st1) ips = filter (unclaimed st) ips).
        { intros ips Hnot. apply filter_ext_elem. intros ip Hip.
          unfold unclaimed, st1; cbn. rewrite lookup_insert_ne; [done|].
          intros Heq. apply Hnot. rewrite Heq. by apply list_elem_of_fmap_2. }
        assert (Hstep : forall ip, unclaimed st1 ip -> unclaimed st ip).
        { intros ip. unfold unclaimed, st1; cbn.
          intros [? _]%lookup_insert_None. done. }
        assert (Hdom1 : forall key (ips : list net.IP),
                  (is_Some (allocated st1 !! key) \/ key ∈ net.IP_String <$> ips) <->
                  is_Some (allocated st !! key) \/
                  key ∈ net.IP_String <$> (c :: ips)).
        { intros key ips. unfold st1; cbn. rewrite claimed_insert. set_solver. }
        assert (Hskip1 : ~ unreachable out) by (unfold unreachable; congruence).
        destruct res as [[err'|ip]| |err']; [| | done | done].
        -- destruct Hres as (-> & -> & -> & Hdom).
           exists (c :: pending), ((c, (out, err)) :: skipped). split_and!; auto.
           ++ rewrite filter_cons_True by done. cbn. rewrite Hmap. f_equal. auto.
           ++ intros key. rewrite Hdom. exact (Hdom1 key _).
        -- destruct Hres as (rest & out' & err' & -> & ? & ? & -> & Hdom).
           assert (net.IP_String c ∉ net.IP_String <$> tried).
           { intros Hin. apply Hc. rewrite fmap_app. apply elem_of_app. by left. }
           exists (c :: tried), ((c, (out, err)) :: skipped).
           split; [|split; [by constructor|]].
           { rewrite filter_cons_True by done. cbn. rewrite Hmap. f_equal. auto. }
           exists rest, out', err'. split_and!; auto.
           intros key. rewrite Hdom. exact (Hdom1 key _).
Qed.

End ExecAllocateFacts.

(* ===================================================================== *)
(** ** What a call of either allocator leaves behind *)
(* ===================================================================== *)

Section EitherAllocator.
Context {W : Type} `{!Collaborators W}.

Lemma Allocate_facts prober range (st : State W) res st' evs :
  fwdnet_Allocate prober range st = (res, st', evs) ->
  (forall key, is_Some (allocated st !! key) -> is_Some (allocated st' !! key)) /\
  (forall ip, res = Val (inr ip) ->
     unclaimed st ip /\ is_Some (allocated st' !! net.IP_String ip)) /\
  (forall code, res <> Exit code) /\
  Forall is_probe evs.
Proof.
  destruct prober; cbn; unfold fwdnet.Allocate, fwdnet_exec.Allocate;
    destruct (iprange.ParseIPRange range) as [err|ipr] eqn:Hparse.
  - unfold mret, M_ret. intros [= <- <- <-]. split_and!; auto; done.
  - intros Hrun.
    apply Allocate_loop_spec in Hrun as (tried & lives & Hmap & Hlive & Hres);
      [|by eapply addresses_NoDup].
    destruct res as [[err|ip]| |err]; [| |done|].
    + destruct Hres as (-> & -> & -> & Hdom). split_and!; try done.
      * intros key Hk. apply Hdom. by left.
      * apply Forall_fmap, Forall_true. done.
    + destruct Hres as (rest & r & Hpend & ? & ? & -> & Hdom). split_and!; try done.
      * intros key Hk. apply Hdom. by left.
      * intros ? [= <-]. split; [done|]. apply Hdom. right. set_solver.
      * apply Forall_fmap, Forall_true. done.
    + destruct Hres as (ip & rest & w & Hpend & ? & ? & -> & Hdom).
      split_and!; try done.
      * intros key Hk. apply Hdom. by left.
      * apply Forall_fmap, Forall_true. done.
  - unfold mret, M_ret. intros [= <- <- <-]. split_and!; auto; done.
  - intros Hrun.
    apply exec_Allocate_loop_spec in Hrun as (tried & skipped & Hmap & Hskip & Hres);
      [|by eapply addresses_NoDup].
    destruct res as [[err|ip]| |err]; [| |done|done].
    + destruct Hres as (-> & -> & -> & Hdom). split_and!; try done.
      * intros key Hk. apply Hdom. by left.
      * apply Forall_fmap, Forall_true. done.
    + destruct Hres as (rest & out & err & Hpend & ? & ? & -> & Hdom).
      split_and!; try done.
      * intros key Hk. apply Hdom. by left.
      * intros ? [= <-]. split; [done|]. apply Hdom. right. set_solver.
      * apply Forall_fmap, Forall_true. done.
Qed.

End EitherAllocator.

(* ===================================================================== *)
(** ** The allocator: uniqueness, order, exhaustion, probe errors *)
(* ===================================================================== *)

Section AllocateClaims.
Context {W : Type} `{!Collaborators W}.

(** The probes of one call of the ICMP allocator: each goes to an address
    that was not claimed before the call and is claimed after it, and the
    probe of the returned address was not fully answered. *)
Lemma icmp_call_probes range (st : State W) res st' evs :
  fwdnet.Allocate range st = (res, st', evs) ->
  (forall p r, EvPing p r ∈ evs ->
     allocated st !! pg_addr p = None /\ is_Some (allocated st' !! pg_addr p)) /\
  (forall ip p r, res = Val (inr ip) -> EvPing p r ∈ evs ->
     pg_addr p = net.IP_String ip -> ~ fully_live r).
Proof.
  unfold fwdnet.Allocate.
  destruct (iprange.ParseIPRange range) as [err|ipr] eqn:Hparse.
  { unfold mret, M_ret. intros [= <- <- <-].
    split; [intros p r Hin|intros ip p r _ Hin]; by apply elem_of_nil in Hin. }
  intros Hrun. pose proof (addresses_NoDup _ _ Hparse) as Hnd.
  apply Allocate_loop_spec in Hrun as (tried & lives & Hmap & Hlive & Hres);
    [|done].
  assert (Hold : forall probe, probe ∈ lives ->
            unclaimed st probe.1 /\ probe.1 ∈ tried).
  { intros probe Hin.
    assert (probe.1 ∈ filter (unclaimed st) tried) as [? ?]%list_elem_of_filter.
    { rewrite <- Hmap. by apply list_elem_of_fmap_2. }
    done. }
  cbn [iprange.pending iprange.NewAllocator] in Hres.
  destruct res as [[err|ip]| |err]; [| |done|].
  - destruct Hres as (-> & -> & -> & Hdom). split; [|done].
    intros p r (probe & [= -> ->] & Hin)%list_elem_of_fmap. cbn.
    split; [by apply Hold|]. apply Hdom. right.
    by apply list_elem_of_fmap_2, list_elem_of_fmap_2.
  - destruct Hres as (rest & r0 & Hpend & Hfree & Hr0 & -> & Hdom). split.
    + intros p r (probe & [= -> ->] & Hin)%list_elem_of_fmap. cbn.
      apply elem_of_app in Hin as [Hin|Hin%list_elem_of_singleton].
      * split; [by apply Hold|]. apply Hdom. right.
        rewrite fmap_app. apply elem_of_app. left.
        by apply list_elem_of_fmap_2, list_elem_of_fmap_2.
      * subst probe. split; [done|]. apply Hdom. right. set_solver.
    + intros ? p r [= <-] (probe & [= -> ->] & Hin)%list_elem_of_fmap Haddr.
      cbn in Haddr. apply (inj _) in Haddr.
      apply elem_of_app in Hin as [Hin|Hin%list_elem_of_singleton];
        [|by subst probe].
      exfalso. apply Hold in Hin as [_ Hin]. rewrite Haddr in Hin.
      rewrite Hpend, fmap_app, fmap_cons in Hnd.
      apply NoDup_app in Hnd as (_ & Hnd & _).
      apply (Hnd (net.IP_String ip)); [by apply list_elem_of_fmap_2|by left].
  - destruct Hres as (ip & rest & w & Hpend & ? & ? & -> & Hdom). split; [|done].
    intros p r (probe & [= -> ->] & Hin)%list_elem_of_fmap. cbn.
    split; [by apply Hold|]. apply Hdom. right.
    rewrite fmap_app. apply elem_of_app. left.
    by apply list_elem_of_fmap_2, list_elem_of_fmap_2.
Qed.

(** The ping-command allocator sends no probe of the ICMP library. *)
Lemma exec_call_no_ping range (st : State W) res st' evs p r :
  fwdnet_exec.Allocate range st = (res, st', evs) -> EvPing p r ∉ evs.
Proof.
  intros Hrun Hin.
  destruct (Allocate_facts PingCommand _ _ _ _ _ Hrun) as (_ & _ & _ & Hprobes).
  unfold fwdnet_exec.Allocate in Hrun.
  destruct (iprange.ParseIPRange range) as [err|ipr] eqn:Hparse.
  { unfold mret, M_ret in Hrun. simplify_eq. by apply elem_of_nil in Hin. }
  apply exec_Allocate_loop_spec in Hrun
    as (tried & skipped & _ & _ & Hres); [|by eapply addresses_NoDup].
  destruct res as [[err|ip]| |err]; [| |done|done].
  - destruct Hres as (_ & _ & -> & _).
    by apply list_elem_of_fmap in Hin as (? & ? & _).
  - destruct Hres as (? & ? & ? & _ & _ & _ & -> & _).
    by apply list_elem_of_fmap in Hin as (? & ? & _).
Qed.

Lemma call_probes prober range (st : State W) res st' evs :
  fwdnet_Allocate prober range st = (res, st', evs) ->
  (forall p r, EvPing p r ∈ evs ->
     allocated st !! pg_addr p = None /\ is_Some (allocated st' !! pg_addr p)) /\
  (forall ip p r, res = Val (inr ip) -> EvPing p r ∈ evs ->
     pg_addr p = net.IP_String ip -> ~ fully_live r).
Proof.
  destruct prober; cbn [fwdnet_Allocate]; [apply icmp_call_probes|].
  intros Hrun. split.
  - intros p r Hin. by destruct (exec_call_no_ping _ _ _ _ _ p r Hrun).
  - intros ip p r _ Hin. by destruct (exec_call_no_ping _ _ _ _ _ p r Hrun).
Qed.

Lemma Allocate_calls_inv prober ranges : forall (st : State W) calls final,
  Allocate_calls prober ranges st = (calls, final) ->
  (forall key, is_Some (allocated st !! key) -> is_Some (allocated final !! key)) /\
  (forall p r, EvPing p r ∈ events_of calls ->
     allocated st !! pg_addr p = None /\ is_Some (allocated final !! pg_addr p)) /\
  (forall ip, ip ∈ returned calls ->
     unclaimed st ip /\ is_Some (allocated final !! net.IP_String ip)) /\
  NoDup (net.IP_String <$> returned calls) /\
  (forall ip p r, ip ∈ returned calls -> EvPing p r ∈ events_of calls ->
     pg_addr p = net.IP_String ip -> ~ fully_live r).
Proof.
  induction ranges as [|range ranges IH]; intros st calls final Hcalls.
  { cbn in Hcalls. simplify_eq. split_and!; [done| | | |].
    - intros p r Hin. cbn in Hin. by apply elem_of_nil in Hin.
    - intros ip Hin. cbn in Hin. by apply elem_of_nil in Hin.
    - cbn. constructor.
    - intros ip p r Hin. cbn in Hin. by apply elem_of_nil in Hin. }
  cbn [Allocate_calls] in Hcalls.
  destruct (fwdnet_Allocate prober range st) as [[res st'] evs] eqn:Hcall.
  pose proof (Allocate_facts prober _ _ _ _ _ Hcall)
    as (Hmono & Hret & _ & _).
  pose proof (call_probes _ _ _ _ _ _ Hcall) as (Hprobes & Hlast).
  assert (Hnone : forall (m m' : gmap string bool) key,
            (forall k, is_Some (m !! k) -> is_Some (m' !! k)) ->
            m' !! key = None -> m !! key = None).
  { intros m m' key Hsub Hk. destruct (m !! key) eqn:Hm; [|done].
    destruct (Hsub key) as [? Hx]; [eauto|congruence]. }
  destruct res as [v| |err]; cycle 1.
  - simplify_eq. split_and!; [done| | | |].
    + intros p r Hin. apply (Hprobes p r). cbn in Hin. by rewrite app_nil_r in Hin.
    + intros ip Hin. cbn in Hin. by apply elem_of_nil in Hin.
    + cbn. constructor.
    + intros ip p r Hin. cbn in Hin. by apply elem_of_nil in Hin.
  - simplify_eq. split_and!; [done| | | |].
    + intros p r Hin. apply (Hprobes p r). cbn in Hin. by rewrite app_nil_r in Hin.
    + intros ip Hin. cbn in Hin. by apply elem_of_nil in Hin.
    + cbn. constructor.
    + intros ip p r Hin. cbn in Hin. by apply elem_of_nil in Hin.
  - destruct (Allocate_calls prober ranges st') as [calls' final'] eqn:Hrest.
    simplify_eq.
    destruct (IH _ _ _ Hrest) as (Hmono' & Hprobes' & Hret' & Hnd' & Hlive').
    assert (Hev : forall e, e ∈ events_of ((Val v, evs) :: calls') <->
              e ∈ evs \/ e ∈ events_of calls').
    { intros e. unfold events_of. cbn. by rewrite elem_of_app. }
    split_and!.
    + auto.
    + intros p r [Hin|Hin]%Hev.
      * destruct (Hprobes _ _ Hin). auto.
      * destruct (Hprobes' _ _ Hin). eauto.
    + intros ip Hin. destruct v as [err|ip0]; cbn in Hin.
      * destruct (Hret' _ Hin). split; [|done]. unfold unclaimed in *. eauto.
      * apply elem_of_cons in Hin as [->|Hin].
        -- destruct (Hret ip0 eq_refl). auto.
        -- destruct (Hret' _ Hin). split; [|done]. unfold unclaimed in *. eauto.
    + destruct v as [err|ip0]; [done|].
      change (NoDup (net.IP_String <$> ip0 :: returned calls')).
      rewrite fmap_cons. apply NoDup_cons. split; [|done].
      intros (ip & Heq & Hin)%list_elem_of_fmap.
      destruct (Hret ip0 eq_refl) as [_ Hclaimed].
      destruct (Hret' _ Hin) as [Hfree _]. unfold unclaimed in Hfree.
      rewrite Heq, Hfree in Hclaimed. by destruct Hclaimed.
    + intros ip p r Hin [Hev1|Hev2]%Hev Haddr.
      * destruct v as [err|ip0]; cbn in Hin.
        -- destruct (Hret' _ Hin) as [Hfree _]. unfold unclaimed in Hfree.
           destruct (Hprobes _ _ Hev1) as [_ Hclaimed].
           rewrite Haddr, Hfree in Hclaimed. by destruct Hclaimed.
        -- apply elem_of_cons in Hin as [->|Hin]; [by eapply Hlast|].
           destruct (Hret' _ Hin) as [Hfree _]. unfold unclaimed in Hfree.
           destruct (Hprobes _ _ Hev1) as [_ Hclaimed].
           rewrite Haddr, Hfree in Hclaimed. by destruct Hclaimed.
      * destruct v as [err|ip0]; cbn in Hin; [by eapply Hlive'|].
        apply elem_of_cons in Hin as [->|Hin]; [|by eapply Hlive'].
        destruct (Hret ip0 eq_refl) as [_ Hclaimed].
        destruct (Hprobes' _ _ Hev2) as [Hfree _].
        rewrite <- Haddr, Hfree in Hclaimed. by destruct Hclaimed.
Qed.

(** C1. Whatever ranges a process asks [Allocate] for, call after call and
    with either implementation, the addresses it is given are pairwise
    distinct (each one was unclaimed when its call began and stays in the
    table [allocated] from then on), and no probe of the ICMP library sent to
    a returned address at any time of the run had all three of its echo
    requests answered. *)
Theorem Allocate_never_repeats (prober : Prober) (ranges : list string)
  (st : State W) :
  NoDup (returned (Allocate_calls prober ranges st).1) /\
  NoDup (net.IP_String <$> returned (Allocate_calls prober ranges st).1) /\
  (forall ip, ip ∈ returned (Allocate_calls prober ranges st).1 ->
     unclaimed st ip /\
     is_Some (allocated (Allocate_calls prober ranges st).2
                !! net.IP_String ip)) /\
  (forall ip p r,
     ip ∈ returned (Allocate_calls prober ranges st).1 ->
     EvPing p r ∈ events_of (Allocate_calls prober ranges st).1 ->
     pg_addr p = net.IP_String ip -> PacketsRecv r <> 3%Z).
Proof.
  destruct (Allocate_calls prober ranges st) as [calls final] eqn:Hcalls.
  destruct (Allocate_calls_inv _ _ _ _ _ Hcalls) as (_ & _ & Hret & Hnd & Hlive).
  cbn [fst snd]. split_and!; auto.
  eapply NoDup_fmap_1, Hnd.
Qed.

End AllocateClaims.

Section AllocateOrder.
Context {W : Type} `{!Collaborators W}.

Lemma Allocate_parsed range ipr (st : State W) :
  iprange.ParseIPRange range = inr ipr ->
  fwdnet.Allocate range st = fwdnet.Allocate_loop (iprange.addresses ipr) st.
Proof. unfold fwdnet.Allocate. by intros ->. Qed.

Lemma Allocate_loop_all_live pending : forall st : State W,
  NoDup (net.IP_String <$> pending) ->
  Forall (unclaimed st) pending ->
  (forall ip w, ip ∈ pending ->
     (NewPinger (net.IP_String ip) w).1 = None /\
     fully_live (Pinger_Run (mkPinger (net.IP_String ip) 3 false) w).1) ->
  exists st' rs,
    fwdnet.Allocate_loop pending st =
      (Val (inl "No IP addresses available"), st', ping_event <$> zip pending rs) /\
    length rs = length pending /\ Forall fully_live rs.
Proof.
  induction pending as [|c pending IH]; intros st Hnd Hfree Hlive.
  { exists st, []. by rewrite Allocate_loop_nil. }
  rewrite fmap_cons in Hnd. apply NoDup_cons in Hnd as [Hc Hnd].
  apply Forall_cons in Hfree as [Hfree_c Hfree].
  rewrite Allocate_loop_cons. unfold unclaimed in Hfree_c. rewrite Hfree_c.
  cbv zeta.
  destruct (Hlive c (world st)) as [Hnew _]; [by left|].
  destruct (NewPinger (net.IP_String c) (world st)) as [err w1].
  cbn in Hnew. subst err.
  destruct (Hlive c w1) as [_ Hrun]; [by left|].
  destruct (Pinger_Run _ w1) as [r w2]. cbn in Hrun.
  unfold fully_live in Hrun. rewrite Hrun. cbn [Z.eqb Pos.eqb].
  destruct (IH (mkState (<[net.IP_String c:=true]> (allocated st)) w2))
    as (st' & rs & -> & Hlen & Hrs); [done| |by intros; apply Hlive; right|].
  - apply Forall_forall. intros ip Hip. unfold unclaimed; cbn.
    rewrite lookup_insert_ne.
    + by apply (proj1 (Forall_forall _ _) Hfree).
    + intros Heq. apply Hc. rewrite Heq. by apply list_elem_of_fmap_2.
  - exists st', (r :: rs). cbn. split_and!; [done|lia|by constructor].
Qed.

(** The loop returns the first address that is unclaimed and whose probe
    is not fully answered. *)
Lemma Allocate_loop_returns earlier ip later : forall st : State W,
  NoDup (net.IP_String <$> earlier ++ ip :: later) ->
  (forall a w, a ∈ earlier -> unclaimed st a ->
     (NewPinger (net.IP_String a) w).1 = None /\
     fully_live (Pinger_Run (mkPinger (net.IP_String a) 3 false) w).1) ->
  unclaimed st ip ->
  (forall w,
     (NewPinger (net.IP_String ip) w).1 = None /\
     ~ fully_live (Pinger_Run (mkPinger (net.IP_String ip) 3 false) w).1) ->
  exists st' lives r,
    fwdnet.Allocate_loop (earlier ++ ip :: later) st
      = (Val (inr ip), st', ping_event <$> (lives ++ [(ip, r)])) /\
    lives.*1 = filter (unclaimed st) earlier /\
    Forall (fun probe => fully_live probe.2) lives /\
    ~ fully_live r /\
    is_Some (allocated st' !! net.IP_String ip).
Proof.
  induction earlier as [|c earlier IH]; intros st Hnd Hlive Hfree Hip.
  { cbn [app]. rewrite Allocate_loop_cons. unfold unclaimed in Hfree.
    rewrite Hfree. cbv zeta.
    destruct (Hip (world st)) as [Hnew _].
    destruct (NewPinger (net.IP_String ip) (world st)) as [err w1].
    cbn in Hnew. subst err.
    destruct (Hip w1) as [_ Hrun].
    destruct (Pinger_Run _ w1) as [r w2]. cbn in Hrun.
    unfold fully_live in Hrun. apply Z.eqb_neq in Hrun. rewrite Hrun.
    eexists _, [], r. split_and!; [done|done|done| |].
    - unfold fully_live. by apply Z.eqb_neq.
    - cbn. rewrite lookup_insert_eq. by eexists. }
  cbn [app] in *. rewrite fmap_cons in Hnd. apply NoDup_cons in Hnd as [Hc Hnd].
  assert (Hne : forall a, a ∈ earlier ++ ip :: later ->
            net.IP_String a <> net.IP_String c).
  { intros a Ha Heq. apply Hc. rewrite <- Heq. by apply list_elem_of_fmap_2. }
  rewrite Allocate_loop_cons.
  destruct (allocated st !! net.IP_String c) as [b|] eqn:Hlook.
  { destruct (IH st Hnd) as (st' & lives & r & Hrun & Hmap & Hall & Hr & Hin);
      [by intros a w Ha; apply Hlive; right|done|done|].
    exists st', lives, r. split_and!; [done| |done|done|done].
    rewrite filter_cons_False; [done|]. unfold unclaimed. congruence. }
  cbv zeta.
  destruct (Hlive c (world st)) as [Hnew _]; [by left|done|].
  destruct (NewPinger (net.IP_String c) (world st)) as [err w1].
  cbn in Hnew. subst err.
  destruct (Hlive c w1) as [_ Hrun]; [by left|done|].
  destruct (Pinger_Run _ w1) as [rc w2]. cbn in Hrun.
  pose proof Hrun as Hrc. unfold fully_live in Hrun. rewrite Hrun.
  cbn [Z.eqb Pos.eqb].
  set (st1 := mkState (<[net.IP_String c:=true]> (allocated st)) w2).
  assert (Hsame : forall a, a ∈ earlier ++ ip :: later ->
            unclaimed st1 a <-> unclaimed st a).
  { intros a Ha. unfold unclaimed, st1; cbn.
    by rewrite lookup_insert_ne by (apply not_eq_sym, Hne, Ha). }
  destruct (IH st1 Hnd) as (st' & lives & r & -> & Hmap & Hall & Hr & Hin).
  - intros a w Ha Hfree1. apply Hlive; [by right|].
    apply Hsame; [|done]. apply elem_of_app. by left.
  - apply Hsame; [|done]. apply elem_of_app. right. by left.
  - done.
  - exists st', ((c, rc) :: lives), r. split_and!; [done| |by constructor|done|done].
    rewrite filter_cons_True by done. cbn. f_equal. rewrite Hmap.
    apply filter_ext_elem. intros a Ha. apply Hsame. apply elem_of_app. by left.
Qed.

End AllocateOrder.

(** C2. [Allocate] goes through the addresses of the range in the order of
    the range and returns the first one that is neither claimed nor fully
    live.  If an address of the range is unclaimed and its probe is not
    fully answered (no reply, some replies short of three, or an error on
    the wire), and every address before it is claimed or is probed fully
    live, then [Allocate] returns that address, after one probe of each
    unclaimed address before it, in order, and claims it.  Conversely, when
    it returns an address, every address before it in the range was already
    claimed or was probed and fully live, the probes went out in that order,
    and the returned address was unclaimed and its probe was not fully
    answered.  On "10.0.0.1-3" with 10.0.0.1 and 10.0.0.2 live it returns
    10.0.0.3, two calls on "10.0.0.1-2" with no live address return 10.0.0.1
    and then 10.0.0.2, and an address that answers one echo request of three
    is returned. *)
Theorem Allocate_first_free :
  (forall W (C : Collaborators W) range ipr (st : State W) earlier ip later,
     iprange.ParseIPRange range = inr ipr ->
     iprange.addresses ipr = earlier ++ ip :: later ->
     (forall a w, a ∈ earlier -> unclaimed st a ->
        (NewPinger (net.IP_String a) w).1 = None /\
        fully_live (Pinger_Run (mkPinger (net.IP_String a) 3 false) w).1) ->
     unclaimed st ip ->
     (forall w,
        (NewPinger (net.IP_String ip) w).1 = None /\
        ~ fully_live (Pinger_Run (mkPinger (net.IP_String ip) 3 false) w).1) ->
     exists st' lives r,
       fwdnet.Allocate range st
         = (Val (inr ip), st', ping_event <$> (lives ++ [(ip, r)])) /\
       lives.*1 = filter (unclaimed st) earlier /\
       Forall (fun probe => fully_live probe.2) lives /\
       ~ fully_live r /\
       is_Some (allocated st' !! net.IP_String ip)) /\
  (forall W (C : Collaborators W) range ipr (st : State W) ip st' evs,
     iprange.ParseIPRange range = inr ipr ->
     fwdnet.Allocate range st = (Val (inr ip), st', evs) ->
     exists earlier later lives r,
       iprange.addresses ipr = earlier ++ ip :: later /\
       lives.*1 = filter (unclaimed st) earlier /\
       Forall (fun probe => fully_live probe.2) lives /\
       unclaimed st ip /\ ~ fully_live r /\
       evs = ping_event <$> (lives ++ [(ip, r)])) /\
  (let C := fixture_collaborators (fixture ["10.0.0.1"; "10.0.0.2"] [] []) in
   (fwdnet.Allocate "10.0.0.1-3" fresh).1.1 = Val (inr (net.mkIP 10 0 0 3))) /\
  (let C := fixture_collaborators (fixture [] [] []) in
   (Allocate_calls IcmpLibrary ["10.0.0.1-2"; "10.0.0.1-2"] fresh).1.*1 =
     [Val (inr (net.mkIP 10 0 0 1)); Val (inr (net.mkIP 10 0 0 2))]) /\
  (let C := fixture_collaborators lossy_fixture in
   (fwdnet.Allocate "10.0.0.1-2" fresh).1.1 = Val (inr (net.mkIP 10 0 0 1))).
Proof.
  split_and!.
  - intros W C range ipr st earlier ip later Hparse Hsplit Hlive Hfree Hip.
    rewrite (Allocate_parsed _ _ _ Hparse), Hsplit.
    apply Allocate_loop_returns; [|done..].
    rewrite <- Hsplit. by eapply addresses_NoDup.
  - intros W C range ipr st ip st' evs Hparse Hrun.
    rewrite (Allocate_parsed _ _ _ Hparse) in Hrun.
    apply Allocate_loop_spec in Hrun as (tried & lives & Hmap & Hlive & Hres);
      [|by eapply addresses_NoDup].
    destruct Hres as (rest & r & Hpend & Hfree & Hr & -> & _).
    exists tried, rest, lives, r. done.
  - vm_compute. reflexivity.
  - vm_compute. reflexivity.
  - vm_compute. reflexivity.
Qed.

Lemma Allocate_first_free_witness :
  let C := fixture_collaborators lossy_fixture in
  exists st' lives r,
    fwdnet.Allocate "10.0.0.2-5" (mkState {[ "10.0.0.2" := true ]} tt)
      = (Val (inr (net.mkIP 10 0 0 4)), st',
         ping_event <$> (lives ++ [(net.mkIP 10 0 0 4, r)])) /\
    lives.*1 = filter (unclaimed (mkState {[ "10.0.0.2" := true ]} tt))
                 [net.mkIP 10 0 0 2; net.mkIP 10 0 0 3] /\
    Forall (fun probe => fully_live probe.2) lives /\
    ~ fully_live r /\
    is_Some (allocated st' !! "10.0.0.4").
Proof.
  intros C.
  refine (proj1 Allocate_first_free unit C "10.0.0.2-5"
            (iprange.mkIPRange (net.mkIP 10 0 0 2) (net.mkIP 10 0 0 5))
            (mkState {[ "10.0.0.2" := true ]} tt)
            [net.mkIP 10 0 0 2; net.mkIP 10 0 0 3] (net.mkIP 10 0 0 4)
            [net.mkIP 10 0 0 5] eq_refl _ _ _ _).
  - vm_compute. reflexivity.
  - intros a w Ha Hfree.
    apply elem_of_cons in Ha as [->|Ha]; [by vm_compute in Hfree|].
    apply list_elem_of_singleton in Ha as ->. split; vm_compute; reflexivity.
  - vm_compute. reflexivity.
  - intros w. split; [vm_compute; reflexivity|]. vm_compute. discriminate.
Defined.

(** C3. When every address of the range is fully live, [Allocate] on a fresh
    table ends with the exhaustion error after one probe of each of the K
    addresses of the range, in their order, and no other event. *)
Theorem Allocate_exhausted {W} `{!Collaborators W} range ipr (st : State W) :
  iprange.ParseIPRange range = inr ipr ->
  allocated st = ∅ ->
  (forall ip w, ip ∈ iprange.addresses ipr ->
     (NewPinger (net.IP_String ip) w).1 = None /\
     fully_live (Pinger_Run (mkPinger (net.IP_String ip) 3 false) w).1) ->
  exists st' rs,
    fwdnet.Allocate range st =
      (Val (inl "No IP addresses available"), st',
       ping_event <$> zip (iprange.addresses ipr) rs) /\
    Forall fully_live rs /\
    length rs = length (iprange.addresses ipr) /\
    length (ping_event <$> zip (iprange.addresses ipr) rs) =
      N.to_nat (net.to_N (iprange.End ipr) + 1 - net.to_N (iprange.Start ipr)).
Proof.
  intros Hparse Hfresh Hlive. rewrite (Allocate_parsed _ _ _ Hparse).
  destruct (Allocate_loop_all_live (iprange.addresses ipr) st)
    as (st' & rs & Hrun & Hlen & Hrs); [by eapply addresses_NoDup| |done|].
  { apply Forall_forall. intros ip _. unfold unclaimed. by rewrite Hfresh. }
  exists st', rs. split_and!; [done..|].
  rewrite length_fmap, length_zip, Hlen, Nat.min_id. apply addresses_length.
Qed.

Lemma Allocate_exhausted_witness :
  let C := fixture_collaborators
             (fixture ["10.0.0.1"; "10.0.0.2"; "10.0.0.3"] [] []) in
  exists st' rs,
    fwdnet.Allocate "10.0.0.1-3" fresh =
      (Val (inl "No IP addresses available"), st',
       ping_event <$> zip [net.mkIP 10 0 0 1; net.mkIP 10 0 0 2; net.mkIP 10 0 0 3] rs) /\
    Forall fully_live rs /\
    length rs = 3 /\
    length (ping_event <$>
              zip [net.mkIP 10 0 0 1; net.mkIP 10 0 0 2; net.mkIP 10 0 0 3] rs) = 3.
Proof.
  intros C.
  refine (Allocate_exhausted (W := unit) "10.0.0.1-3"
            (iprange.mkIPRange (net.mkIP 10 0 0 1) (net.mkIP 10 0 0 3)) fresh
            eq_refl eq_refl _).
  intros ip w Hip. split; [reflexivity|].
  vm_compute in Hip.
  repeat (apply elem_of_cons in Hip as [->|Hip]; [reflexivity|]).
  by apply elem_of_nil in Hip.
Defined.

Section ProbeErrors.
Context {W : Type} `{!Collaborators W}.


Lemma icmp_panic_is_NewPinger range (st : State W) err st' evs :
  fwdnet.Allocate range st = (Panic err, st', evs) ->
  exists addr w, (NewPinger addr w).1 = Some err.
Proof.
  unfold fwdnet.Allocate.
  destruct (iprange.ParseIPRange range) as [e|ipr] eqn:Hparse; [done|].
  intros Hrun.
  apply Allocate_loop_spec in Hrun as (tried & lives & Hmap & Hlive & Hres);
    [|by eapply addresses_NoDup].
  destruct Hres as (ip & rest & w & _ & _ & Hnew & _). eauto.
Qed.

Lemma exec_probe_decides range (st : State W) res st' evs :
  fwdnet_exec.Allocate range st = (res, st', evs) ->
  (exists v, res = Val v) /\
  forall name args out err, EvOutput name args out err ∈ evs ->
    (unreachable out <->
     exists ip, res = Val (inr ip) /\ args = [net.IP_String ip; "-c 2"; "-w 10"]).
Proof.
  unfold fwdnet_exec.Allocate.
  destruct (iprange.ParseIPRange range) as [e|ipr] eqn:Hparse.
  { unfold mret, M_ret. intros [= <- <- <-]. split; [eauto|].
    intros ???? Hin. by apply elem_of_nil in Hin. }
  intros Hrun. pose proof (addresses_NoDup _ _ Hparse) as Hnd.
  apply exec_Allocate_loop_spec in Hrun
    as (tried & skipped & Hmap & Hskip & Hres); [|done].
  cbn [iprange.pending iprange.NewAllocator] in Hres.
  assert (Hold : forall probe, probe ∈ skipped ->
            ~ unreachable probe.2.1 /\ probe.1 ∈ tried).
  { intros probe Hin. split; [by apply (proj1 (Forall_forall _ _) Hskip)|].
    assert (probe.1 ∈ filter (unclaimed st) tried) as [? ?]%list_elem_of_filter.
    { rewrite <- Hmap. by apply list_elem_of_fmap_2. }
    done. }
  destruct res as [[err|ip]| |err]; [| |done|done].
  - destruct Hres as (-> & -> & -> & _). split; [eauto|].
    intros name args out err (probe & [= -> -> -> ->] & Hin)%list_elem_of_fmap.
    split; [by intros ?%(proj1 (Hold _ Hin))|by intros (? & ? & _)].
  - destruct Hres as (rest & out0 & err0 & Hpend & _ & Hout0 & -> & _).
    split; [eauto|].
    intros name args out err (probe & [= -> -> -> ->] & Hin)%list_elem_of_fmap.
    apply elem_of_app in Hin as [Hin|Hin%list_elem_of_singleton].
    + destruct (Hold _ Hin) as [Hno Htried].
      split; [done|]. intros (ip' & [= <-] & [= Haddr]). exfalso.
      apply (inj _) in Haddr. rewrite Haddr in Htried.
      rewrite Hpend, fmap_app, fmap_cons in Hnd.
      apply NoDup_app in Hnd as (_ & Hnd & _).
      apply (Hnd (net.IP_String ip)); [by apply list_elem_of_fmap_2|by left].
    + subst probe. cbn. split; [eauto|done].
Qed.

End ProbeErrors.




(* ===================================================================== *)
(** ** Selectors and ports *)
(* ===================================================================== *)

Lemma string_app_assoc (a b c : string) : (a +:+ b) +:+ c = a +:+ (b +:+ c).
Proof. induction a as [|ch a IH]; [done|]. cbv [String.append]. f_equal. exact IH. Qed.

Lemma string_app_nonempty (a b : string) : a <> "" -> a +:+ b <> "".
Proof. by destruct a. Qed.

Lemma pair_text_nonempty kv : pair_text kv <> "".
Proof. unfold pair_text. destruct kv as [[|ch k] v]; done. Qed.

Lemma concat_absorb (a b : string) (rest : list string) :
  String.concat "," ((a +:+ "," +:+ b) :: rest) = String.concat "," (a :: b :: rest).
Proof.
  destruct rest as [|y ys]; cbn [String.concat]; [done|].
  by rewrite !string_app_assoc.
Qed.

Lemma selector_fold (msel : list (string * string)) : forall acc,
  acc <> "" ->
  fold_left
    (fun selector '(k, v) =>
       let selector :=
         if negb (String.eqb selector "") then selector +:+ "," else selector in
       selector +:+ (k +:+ "=" +:+ v))
    msel acc
  = String.concat "," (acc :: (pair_text <$> msel)).
Proof.
  induction msel as [|[k v] msel IH]; intros acc Hacc; [done|].
  cbn [fold_left]. cbv zeta.
  assert (String.eqb acc "" = false) as -> by by apply String.eqb_neq.
  cbn [negb]. rewrite IH.
  - rewrite fmap_cons. rewrite <- concat_absorb. by rewrite string_app_assoc.
  - rewrite string_app_assoc. by apply string_app_nonempty.
Qed.

Lemma mapToSelectorStr_concat (msel : list (string * string)) :
  services.mapToSelectorStr msel = String.concat "," (pair_text <$> msel).
Proof.
  destruct msel as [|[k v] msel]; [done|].
  unfold services.mapToSelectorStr. cbn [fold_left]. cbv zeta.
  cbn [String.eqb negb]. rewrite selector_fold; [done|].
  apply (pair_text_nonempty (k, v)).
Qed.

Lemma mapToSelectorStr_empty (msel : list (string * string)) :
  services.mapToSelectorStr msel = "" <-> msel = [].
Proof.
  split; [|by intros ->].
  rewrite mapToSelectorStr_concat.
  destruct msel as [|kv msel]; [done|]. rewrite fmap_cons. intros Hempty.
  exfalso. destruct (pair_text_nonempty kv).
  destruct (pair_text <$> msel); cbn [String.concat] in Hempty; [done|].
  by destruct (pair_text kv).
Qed.

(** C10. For a selector map [m] and any order [msel] in which a [range] over
    it yields its entries, [mapToSelectorStr] returns the empty text exactly
    when the map is empty, and otherwise the texts k=v of the entries, one
    per entry of the map, in that order, with one comma between neighbours
    and none before the first or after the last. *)
Theorem mapToSelectorStr_joins (m : gmap string string)
  (msel : list (string * string)) :
  msel ≡ₚ map_to_list m ->
  (services.mapToSelectorStr msel = "" <-> m = ∅) /\
  services.mapToSelectorStr msel = String.concat "," (pair_text <$> msel) /\
  pair_text <$> msel ≡ₚ pair_text <$> map_to_list m /\
  length (pair_text <$> msel) = size m.
Proof.
  intros Hperm. split_and!.
  - rewrite mapToSelectorStr_empty, <- map_to_list_empty_iff.
    split; [intros ->; by apply Permutation_nil|].
    intros Hm. rewrite Hm in Hperm. by apply Permutation_nil_r.
  - apply mapToSelectorStr_concat.
  - by rewrite Hperm.
  - by rewrite length_fmap, Hperm, length_map_to_list.
Qed.

Lemma mapToSelectorStr_joins_witness :
  (services.mapToSelectorStr [("app", "wx"); ("component", "api")] = "" <->
     ({[ "app" := "wx"; "component" := "api" ]} : gmap string string) = ∅) /\
  services.mapToSelectorStr [("app", "wx"); ("component", "api")] =
    String.concat "," (pair_text <$> [("app", "wx"); ("component", "api")]) /\
  pair_text <$> [("app", "wx"); ("component", "api")] ≡ₚ
    pair_text <$> map_to_list
      ({[ "app" := "wx"; "component" := "api" ]} : gmap string string) /\
  length (pair_text <$> [("app", "wx"); ("component", "api")]) =
    size ({[ "app" := "wx"; "component" := "api" ]} : gmap string string).
Proof.
  apply (mapToSelectorStr_joins
           ({[ "app" := "wx"; "component" := "api" ]} : gmap string string)).
  vm_compute. apply perm_swap.
Defined.

Lemma Atoi_digits (s : string) (n : N) :
  strconv.parse_digits s = Some n -> (n < 2 ^ 63)%N ->
  strconv.Atoi s = Some (Z.of_N n).
Proof.
  intros Hparse Hn.
  assert (Hthird : strconv.Atoi s =
            match strconv.parse_digits s with
            | Some n => if (n <? 2 ^ 63)%N then Some (Z.of_N n) else None
            | None => None
            end).
  { destruct s as [|ch s]; [done|].
    unfold strconv.parse_digits in Hparse. cbn [strconv.digits_from] in Hparse.
    destruct (strconv.digit_val ch) as [d|] eqn:Hd; [|done].
    destruct ch as [[] [] [] [] [] [] [] []]; try discriminate Hd; reflexivity. }
  rewrite Hthird, Hparse.
  by assert ((n <? 2 ^ 63)%N = true) as -> by by apply N.ltb_lt.
Qed.

Lemma Atoi_Itoa (i : Z) :
  (- 2 ^ 63 <= i < 2 ^ 63)%Z -> strconv.Atoi (strconv.Itoa i) = Some i.
Proof.
  intros Hi. unfold strconv.Itoa. destruct i as [|p|p].
  - reflexivity.
  - change (pretty (Z.pos p)) with (pretty (N.pos p)).
    rewrite (Atoi_digits _ (N.pos p)); [done|apply parse_digits_pretty|].
    change (2 ^ 63)%N with 9223372036854775808%N.
    change (2 ^ 63)%Z with 9223372036854775808%Z in Hi. lia.
  - change (pretty (Z.neg p)) with (String "-" (pretty (N.pos p))).
    cbn [strconv.Atoi]. rewrite parse_digits_pretty.
    assert ((N.pos p <=? 2 ^ 63)%N = true) as ->; [|done].
    apply N.leb_le.
    change (2 ^ 63)%N with 9223372036854775808%N.
    change (2 ^ 63)%Z with 9223372036854775808%Z in Hi. lia.
Qed.

Lemma portSearch_ports_find portName ports :
  services.portSearch_ports portName ports =
  (fun cp => strconv.Itoa (v1.cp_ContainerPort cp)) <$>
    find (named portName) ports.
Proof.
  induction ports as [|cp ports IH]; [done|].
  cbn [services.portSearch_ports find]. unfold named at 1.
  by destruct (String.eqb (v1.cp_Name cp) portName).
Qed.

Lemma portSearch_find portName containers :
  services.portSearch portName containers =
  match find (named portName) (declared_ports containers) with
  | Some cp => (strconv.Itoa (v1.cp_ContainerPort cp), true)
  | None => ("", false)
  end.
Proof.
  induction containers as [|c containers IH]; [done|].
  cbn [services.portSearch]. rewrite portSearch_ports_find.
  unfold declared_ports. rewrite fmap_cons. cbn [concat].
  change (concat (v1.c_Ports <$> containers)) with (declared_ports containers).
  induction (v1.c_Ports c) as [|cp ports IHp]; [by rewrite IH|].
  cbn [app find]. destruct (named portName cp); [done|]. exact IHp.
Qed.

(** C5. A target port that is a name is replaced by the number of the first
    port of that name among the pod's containers, so "http" with http -> 8080
    declared gives "8080"; a numeric target is used as it is, so 9090 gives
    "9090"; a name no container declares is passed on unchanged.  The
    forwarding sessions of a run carry the pod ports so computed. *)
Theorem podPort_resolution :
  (forall port name containers cp,
     strconv.Atoi name = None ->
     find (named name) (declared_ports containers) = Some cp ->
     services.podPort_of (v1.mkServicePort port (v1.StrVal name)) containers
       = strconv.Itoa (v1.cp_ContainerPort cp)) /\
  services.podPort_of (v1.mkServicePort 80 (v1.StrVal "http"))
    [v1.mkContainer [v1.mkContainerPort "http" 8080]] = "8080" /\
  (forall port i containers,
     (- 2 ^ 31 <= i < 2 ^ 31)%Z ->
     services.podPort_of (v1.mkServicePort port (v1.IntVal i)) containers
       = strconv.Itoa i) /\
  (forall port s n containers,
     strconv.Atoi s = Some n ->
     services.podPort_of (v1.mkServicePort port (v1.StrVal s)) containers = s) /\
  services.podPort_of (v1.mkServicePort 9090 (v1.IntVal 9090))
    [v1.mkContainer [v1.mkContainerPort "http" 8080]] = "9090" /\
  (forall port name containers,
     strconv.Atoi name = None ->
     find (named name) (declared_ports containers) = None ->
     services.podPort_of (v1.mkServicePort port (v1.StrVal name)) containers
       = name) /\
  (let C := fixture_collaborators (fixture [] [web_service] [web_pod]) in
   pfo_PodPort <$> spawned (services.Run IcmpLibrary default_flags fresh).2
     = ["8080"; "9090"]).
Proof.
  split_and!.
  - intros port name containers cp Hname Hfind.
    unfold services.podPort_of; cbn. by rewrite Hname, portSearch_find, Hfind.
  - reflexivity.
  - intros port i containers Hi.
    unfold services.podPort_of; cbn. rewrite Atoi_Itoa; [done|].
    change (2 ^ 31)%Z with 2147483648%Z in Hi.
    change (2 ^ 63)%Z with 9223372036854775808%Z. lia.
  - intros port s n containers Hs.
    unfold services.podPort_of; cbn. by rewrite Hs.
  - reflexivity.
  - intros port name containers Hname Hfind.
    unfold services.podPort_of; cbn. by rewrite Hname, portSearch_find, Hfind.
  - vm_compute. reflexivity.
Qed.

Lemma podPort_resolution_witness :
  services.podPort_of (v1.mkServicePort 443 (v1.StrVal "https"))
    [v1.mkContainer [v1.mkContainerPort "http" 8080];
     v1.mkContainer [v1.mkContainerPort "https" 8443;
                     v1.mkContainerPort "https" 9443]]
    = strconv.Itoa 8443 /\
  services.podPort_of (v1.mkServicePort 53 (v1.IntVal (-1))) [] = strconv.Itoa (-1) /\
  services.podPort_of (v1.mkServicePort 53 (v1.StrVal "+53")) [] = "+53" /\
  services.podPort_of (v1.mkServicePort 25 (v1.StrVal "smtp"))
    [v1.mkContainer [v1.mkContainerPort "http" 8080]] = "smtp".
Proof.
  split_and!.
  - apply (proj1 podPort_resolution 443%Z "https" _ (v1.mkContainerPort "https" 8443));
      reflexivity.
  - apply (proj1 (proj2 (proj2 podPort_resolution))). lia.
  - apply (proj1 (proj2 (proj2 (proj2 podPort_resolution))) 53%Z "+53" 53%Z).
    reflexivity.
  - apply (proj1 (proj2 (proj2 (proj2 (proj2 (proj2 podPort_resolution))))));
      reflexivity.
Defined.

Section EmptySelector.
Context {W : Type} `{!Collaborators W}.

(** C6. For a service whose selector map is empty the loop of [fwdServices]
    logs one warning and does nothing else: the table, the world and the set
    of sessions are as before, nothing fails, and the loop goes on with the
    services that follow. *)
Theorem empty_selector_is_skipped prober flags opts svc items (st : State W) :
  v1.svc_Selector svc = [] ->
  services.forward_service prober flags opts svc st
    = (Val tt, st, [EvLog (no_backing_pods svc)]) /\
  spawned [EvLog (no_backing_pods svc)] = [] /\
  services.forward_services prober flags opts (svc :: items) st
    = (let '(r, st', evs) := services.forward_services prober flags opts items st in
       (r, st', EvLog (no_backing_pods svc) :: evs)).
Proof.
  intros Hsel.
  assert (Hone : services.forward_service prober flags opts svc st
                 = (Val tt, st, [EvLog (no_backing_pods svc)])).
  { unfold services.forward_service. rewrite Hsel. reflexivity. }
  split_and!; [done|done|].
  cbn [services.forward_services]. unfold mbind, M_bind. rewrite Hone.
  by destruct (services.forward_services prober flags opts items st) as [[r st'] evs].
Qed.

End EmptySelector.

Lemma empty_selector_is_skipped_witness :
  let C := fixture_collaborators (fixture [] [headless_service; web_service] [web_pod]) in
  let opts := services.mkFwdServiceOpts (mkClientset 0) "minikube" "default"
                (mkListOptions "") (mkHosts "/etc/hosts") (mkRestConfig 0)
                true false "lo" "127.1.27.1-254" false in
  services.forward_service IcmpLibrary default_flags opts headless_service fresh
    = (Val tt, fresh, [EvLog (no_backing_pods headless_service)]) /\
  spawned [EvLog (no_backing_pods headless_service)] = [] /\
  services.forward_services IcmpLibrary default_flags opts
      [headless_service; web_service] fresh
    = (let '(r, st', evs) :=
         services.forward_services IcmpLibrary default_flags opts [web_service] fresh in
       (r, st', EvLog (no_backing_pods headless_service) :: evs)).
Proof.
  intros C opts.
  apply (empty_selector_is_skipped (W := unit) IcmpLibrary default_flags opts
           headless_service [web_service] fresh).
  reflexivity.
Defined.

(* ===================================================================== *)
(** ** What the main goroutine keeps in order *)
(* ===================================================================== *)

Lemma spawned_app (e1 e2 : list Event) :
  spawned (e1 ++ e2) = spawned e1 ++ spawned e2.
Proof. apply omap_app. Qed.

Lemma spawned_probes (evs : list Event) : Forall is_probe evs -> spawned evs = [].
Proof.
  induction 1 as [|e evs He _ IH]; [done|].
  destruct e; try done; exact IH.
Qed.

Lemma same_service_refl s : same_service s s.
Proof. unfold same_service. by split_and!. Qed.

Section Orderly.
Context {W : Type} `{!Collaborators W}.

Lemma orderly_quiet {A} (st st' : State W) (r : Res A) (evs : list Event) :
  allocated st' = allocated st ->
  Forall before_wait evs -> spawned evs = [] ->
  (forall e, e ∈ evs -> ~ bind_failure e) ->
  (forall code, r = Exit code -> code = 1%Z) ->
  orderly st r st' evs.
Proof.
  intros Htable Hbody Hnone Hbind Hexit. split; try done.
  - unfold claimed. by rewrite Htable.
  - rewrite Hnone. by intros ? ?%elem_of_nil.
  - rewrite Hnone. by intros ? ? ?%elem_of_nil.
  - intros e He Hfail. by destruct (Hbind e He).
Qed.

Lemma orderly_seq {A B} (st st1 st2 : State W) (a : A) (r : Res B) e1 e2 :
  orderly st (Val a) st1 e1 -> orderly st1 r st2 e2 ->
  orderly st r st2 (e1 ++ e2).
Proof.
  intros [Hm1 Hb1 Hf1 Hg1 Hbind1 _] [Hm2 Hb2 Hf2 Hg2 Hbind2 Hexit2].
  assert (Hback : forall ip, unclaimed st1 ip -> unclaimed st ip).
  { intros ip Hfree. unfold unclaimed in *.
    destruct (allocated st !! net.IP_String ip) eqn:Hlook; [|done].
    destruct (Hm1 (net.IP_String ip)) as [? Hx]; [by eexists|]. congruence. }
  assert (Hcross : forall s1 s2, s1 ∈ spawned e1 -> s2 ∈ spawned e2 ->
            pfo_LocalIP s1 <> pfo_LocalIP s2).
  { intros s1 s2 H1 H2 Heq.
    destruct (Hf1 _ H1) as [_ [? Hc]]. destruct (Hf2 _ H2) as [Hfree _].
    unfold unclaimed in Hfree. rewrite Heq in Hc. congruence. }
  split.
  - auto.
  - by apply Forall_app.
  - intros pfo. rewrite spawned_app.
    intros [Hin|Hin]%elem_of_app.
    + destruct (Hf1 _ Hin). auto.
    + destruct (Hf2 _ Hin). auto.
  - intros s1 s2. rewrite spawned_app.
    intros [H1|H1]%elem_of_app [H2|H2]%elem_of_app Heq; auto.
    + by destruct (Hcross s1 s2).
    + by destruct (Hcross s2 s1).
  - intros e [He|He]%elem_of_app Hfail; [|eauto].
    by specialize (Hbind1 e He Hfail).
  - done.
Qed.

Lemma orderly_Exit {A B} (st st' : State W) code evs :
  orderly st (@Exit A code) st' evs -> orderly st (@Exit B code) st' evs.
Proof.
  intros [Hm Hb Hf Hg Hbind Hexit]. split; try done.
  - intros e He Hfail. specialize (Hbind e He Hfail). by simplify_eq.
  - intros c [= <-]. by apply Hexit.
Qed.

Lemma orderly_Panic {A B} (st st' : State W) err evs :
  orderly st (@Panic A err) st' evs -> orderly st (@Panic B err) st' evs.
Proof.
  intros [Hm Hb Hf Hg Hbind Hexit]. split; try done.
  intros e He Hfail. by specialize (Hbind e He Hfail).
Qed.

Lemma keeps_bind {A B} (m : M W A) (f : A -> M W B) :
  keeps m -> (forall a, keeps (f a)) -> keeps (m ≫= f).
Proof.
  intros Hm Hf st r st' evs. unfold mbind, M_bind.
  destruct (m st) as [[r1 st1] e1] eqn:H1. specialize (Hm _ _ _ _ H1).
  destruct r1 as [a|code|err].
  - destruct (f a st1) as [[r2 st2] e2] eqn:H2. intros [= <- <- <-].
    eapply orderly_seq; [done|]. by apply (Hf a).
  - intros [= <- <- <-]. by apply (orderly_Exit (A := A)).
  - intros [= <- <- <-]. by apply (orderly_Panic (A := A)).
Qed.

Lemma keeps_ret {A} (a : A) : keeps (W := W) (mret a).
Proof.
  intros st r st' evs [= <- <- <-].
  apply orderly_quiet; try done. by intros ? ?%elem_of_nil.
Qed.

Lemma keeps_call {A} (f : W -> A * W) : keeps (call f).
Proof.
  intros st r st' evs. unfold call. destruct (f (world st)) as [a w].
  intros [= <- <- <-]. apply orderly_quiet; try done.
  by intros ? ?%elem_of_nil.
Qed.

Lemma keeps_log (msg : string) : keeps (W := W) (log_Printf msg).
Proof.
  intros st r st' evs [= <- <- <-]. apply orderly_quiet; try done.
  - by repeat constructor.
  - intros e ->%list_elem_of_singleton (? & ? & ?). done.
Qed.

Lemma keeps_print (msg : string) : keeps (W := W) (emit (EvPrint msg)).
Proof.
  intros st r st' evs [= <- <- <-]. apply orderly_quiet; try done.
  - by repeat constructor.
  - intros e ->%list_elem_of_singleton (? & ? & ?). done.
Qed.

Lemma keeps_Exit1 {A} : keeps (W := W) (os_Exit (A := A) 1).
Proof.
  intros st r st' evs [= <- <- <-]. apply orderly_quiet; try done.
  - by intros ? ?%elem_of_nil.
  - by intros ? [= <-].
Qed.

Lemma keeps_Fatalf {A} (msg : string) : keeps (W := W) (log_Fatalf (A := A) msg).
Proof.
  unfold log_Fatalf. apply keeps_bind; [apply keeps_log|].
  intros _. apply keeps_Exit1.
Qed.

Lemma keeps_Allocate prober range : keeps (fwdnet_Allocate prober range).
Proof.
  intros st r st' evs Hrun.
  destruct (Allocate_facts _ _ _ _ _ _ Hrun) as (Hmono & _ & Hexit & Hprobes).
  pose proof (spawned_probes _ Hprobes) as Hnone.
  split.
  - exact Hmono.
  - eapply Forall_impl; [exact Hprobes|]. by intros [].
  - rewrite Hnone. by intros ? ?%elem_of_nil.
  - rewrite Hnone. by intros ? ? ?%elem_of_nil.
  - intros e He (args & err & ->).
    by apply (proj1 (Forall_forall _ _) Hprobes) in He.
  - intros code ->. by destruct (Hexit code).
Qed.

End Orderly.

Lemma session_of_same flags opts svc pod0 ip s1 s2 :
  session_of flags opts svc pod0 ip s1 -> session_of flags opts svc pod0 ip s2 ->
  same_service s1 s2.
Proof.
  unfold session_of, same_service. intros ? ?. destruct_and!.
  split_and!; congruence.
Qed.

Section ForwardingOrder.
Context {W : Type} `{!Collaborators W}.
Variable prober : Prober.
Variable flags : services.Flags.

Lemma forward_ports_spec opts svc pod0 ip ports :
  forall (st : State W) r st' evs,
  services.forward_ports flags opts svc pod0 ip ports st = (r, st', evs) ->
  allocated st' = allocated st /\ Forall before_wait evs /\
  (forall pfo, pfo ∈ spawned evs -> session_of flags opts svc pod0 ip pfo) /\
  (forall e, e ∈ evs -> ~ bind_failure e) /\
  r = Val tt.
Proof.
  induction ports as [|port ports IH]; intros st r st' evs.
  { intros [= <- <- <-]. split_and!; try done.
    - by intros ? ?%elem_of_nil.
    - by intros ? ?%elem_of_nil. }
  cbn [services.forward_ports]. cbv zeta.
  unfold mbind, M_bind, call, log_Printf, emit, mret, M_ret.
  destruct (Pods_Get _ _ _ (world st)) as [[err|pod] w1].
  { intros [= <- <- <-]. split_and!; try done.
    - by repeat constructor.
    - by intros ? ?%elem_of_nil.
    - intros e ->%list_elem_of_singleton (? & ? & ?). done. }
  destruct (services.verbose flags); cbn.
  all: destruct (services.forward_ports _ _ _ _ _ ports _)
         as [[r2 st2] e2] eqn:Hrec.
  all: destruct (IH _ _ _ _ Hrec) as (Htable & Hbody & Hsess & Hbind & ->).
  all: intros [= <- <- <-]; cbn.
  all: split_and!; try done.
  all: try (repeat (constructor; [done|]); done).
  all: try (intros pfo [->|Hin]%elem_of_cons; [|by apply Hsess];
            unfold session_of; cbn; by split_and!).
  all: intros e He Hfail;
    repeat (apply elem_of_cons in He as [->|He];
            [by destruct Hfail as (? & ? & ?)|]);
    by apply (Hbind e).
Qed.

Lemma keeps_forward_service opts svc :
  keeps (services.forward_service prober flags opts svc).
Proof.
  unfold services.forward_service.
  destruct (String.eqb _ ""); [apply keeps_log|].
  intros st r st' evs. unfold mbind at 1, M_bind at 1, call at 1.
  destruct (Pods_List _ _ _ (world st)) as [[err|[|pod0 pods]] w1].
  1,2: intros [= <- <- <-]; apply orderly_quiet; try done;
    [by repeat constructor|
     intros e ->%list_elem_of_singleton (? & ? & ?); done].
  set (st1 := mkState (allocated st) w1).
  unfold mbind at 1, M_bind at 1.
  destruct (fwdnet_Allocate prober _ st1) as [[got st2] e2] eqn:Halloc.
  pose proof (keeps_Allocate _ _ _ _ _ _ Halloc) as Hord2.
  destruct (Allocate_facts _ _ _ _ _ _ Halloc) as (_ & Hret & _ & Hprobes).
  assert (Hstart : orderly st (Val tt) st1 []).
  { apply orderly_quiet; try done. by intros ? ?%elem_of_nil. }
  destruct got as [[err|ip]|code|err]; cycle 2.
  { intros [= <- <- <-].
    eapply (orderly_seq _ _ _ tt _ [] _); [exact Hstart|].
    by apply (orderly_Exit (A := error + net.IP)). }
  { intros [= <- <- <-].
    eapply (orderly_seq _ _ _ tt _ [] _); [exact Hstart|].
    by apply (orderly_Panic (A := error + net.IP)). }
  { unfold log_Printf, emit. intros [= <- <- <-].
    eapply (orderly_seq _ _ _ tt _ [] _); [exact Hstart|].
    eapply orderly_seq; [exact Hord2|].
    apply orderly_quiet; try done; [by repeat constructor|].
    intros e ->%list_elem_of_singleton (? & ? & ?). done. }
  destruct (Hret ip eq_refl) as [Hfree Hclaimed].
  cbv zeta. unfold mbind, M_bind, call, emit, log_Printf, os_Exit.
  destruct (exec_Run _ _ (world st2)) as [[err|] w3]; cbn.
  { intros [= <- <- <-]. split.
    - intros key Hk. apply (ord_mono _ _ _ _ Hord2). exact Hk.
    - apply Forall_app. split; [apply (ord_body _ _ _ _ Hord2)|].
      by repeat constructor.
    - rewrite spawned_app, (spawned_probes _ Hprobes). cbn.
      by intros ? ?%elem_of_nil.
    - rewrite spawned_app, (spawned_probes _ Hprobes). cbn.
      by intros ? ? ?%elem_of_nil.
    - done.
    - by intros ? [= <-]. }
  destruct (services.forward_ports _ _ _ _ _ _ _) as [[r4 st4] e4] eqn:Hports.
  destruct (forward_ports_spec _ _ _ _ _ _ _ _ _ Hports)
    as (Htable & Hbody & Hsess & Hbind & ->).
  intros [= <- <- <-].
  assert (Hspawned : spawned (e2 ++ EvRun "ip" ["addr"; "add";
            net.IP_String ip; "dev"; services.NetworkInterface opts] None
            :: EvLog ("🔥 DNS: " +:+ v1.svc_Name svc +:+ "." +:+
                      v1.svc_Namespace svc +:+ "." +:+ net.IP_String ip
                      +:+ ".xip.io") :: e4) = spawned e4).
  { by rewrite spawned_app, (spawned_probes _ Hprobes). }
  split.
  - intros key Hk. unfold claimed. rewrite Htable. cbn.
    apply (ord_mono _ _ _ _ Hord2). exact Hk.
  - apply Forall_app. split; [apply (ord_body _ _ _ _ Hord2)|].
    by repeat (constructor; [done|]).
  - rewrite Hspawned. intros pfo Hin.
    destruct (Hsess _ Hin) as (_ & _ & _ & _ & _ & _ & _ & -> & _).
    split; [exact Hfree|]. unfold claimed. rewrite Htable. exact Hclaimed.
  - rewrite Hspawned. intros s1 s2 H1 H2 _.
    eapply session_of_same; eauto.
  - intros e [He|He]%elem_of_app Hfail.
    + by apply (ord_bind _ _ _ _ Hord2 e He) in Hfail.
    + apply elem_of_cons in He as [->|He];
        [by destruct Hfail as (? & ? & ?)|].
      apply elem_of_cons in He as [->|He];
        [by destruct Hfail as (? & ? & ?)|].
      by destruct (Hbind e He).
  - done.
Qed.

Lemma keeps_forward_services opts items :
  keeps (services.forward_services prober flags opts items).
Proof.
  induction items as [|svc items IH]; [apply keeps_ret|].
  cbn [services.forward_services].
  apply keeps_bind; [apply keeps_forward_service|done].
Qed.

Lemma keeps_fwdServices opts : keeps (services.fwdServices prober flags opts).
Proof.
  unfold services.fwdServices. apply keeps_bind; [apply keeps_call|].
  intros [err|items]; [apply keeps_ret|].
  apply keeps_bind; [apply keeps_forward_services|]. intros _. apply keeps_ret.
Qed.

Lemma keeps_namespaces_loop hostFile restConfig clientSet listOptions i ctx nss :
  forall ii,
  keeps (services.namespaces_loop prober flags hostFile restConfig clientSet
           listOptions i ctx ii nss).
Proof.
  induction nss as [|namespace nss IH]; intros ii; [apply keeps_ret|].
  cbn [services.namespaces_loop].
  apply keeps_bind; [apply keeps_fwdServices|]. intros err.
  apply keeps_bind; [|intros _; apply IH].
  destruct err; [apply keeps_log|apply keeps_ret].
Qed.

Lemma keeps_contexts_loop hostFile cfgFilePath listOptions nss ctxs :
  forall i,
  keeps (services.contexts_loop prober flags hostFile cfgFilePath listOptions
           nss i ctxs).
Proof.
  induction ctxs as [|ctx ctxs IH]; intros i; [apply keeps_ret|].
  cbn [services.contexts_loop].
  apply keeps_bind; [apply keeps_call|]. intros [err|restConfig];
    [apply keeps_Fatalf|].
  apply keeps_bind; [apply keeps_call|]. intros [err|clientSet];
    [apply keeps_Fatalf|].
  apply keeps_bind; [apply keeps_namespaces_loop|]. intros _. apply IH.
Qed.

End ForwardingOrder.

(* ===================================================================== *)
(** ** The shape of a run of [Cmd.Run] *)
(* ===================================================================== *)

Section RunShape.
Context {W : Type} `{!Collaborators W}.

Lemma shaped_keeps (m : M W unit) : keeps m -> shaped m.
Proof. intros Hm st r st' evs Hrun. apply ended_early. by apply Hm. Qed.

Lemma shaped_bind {A} (m : M W A) (f : A -> M W unit) :
  keeps m -> (forall a, shaped (f a)) -> shaped (m ≫= f).
Proof.
  intros Hm Hf st r st' evs. unfold mbind, M_bind.
  destruct (m st) as [[r1 st1] e1] eqn:H1. specialize (Hm _ _ _ _ H1).
  destruct r1 as [a|code|err].
  - destruct (f a st1) as [[r2 st2] e2] eqn:H2. intros [= <- <- <-].
    destruct (Hf a _ _ _ _ H2) as [Hord|pre stm failed Hord -> ->].
    + apply ended_early. by eapply orderly_seq.
    + eapply (ran_through _ _ _ _ (e1 ++ pre) stm failed);
        [by eapply orderly_seq|by rewrite app_assoc|done].
  - intros [= <- <- <-]. apply ended_early. by apply (orderly_Exit (A := A)).
  - intros [= <- <- <-]. apply ended_early. by apply (orderly_Panic (A := A)).
Qed.

Lemma shaped_wait_and_save hostFile : shaped (services.wait_and_save hostFile).
Proof.
  intros st r st' evs. unfold services.wait_and_save.
  unfold mbind, M_bind, emit, log_Printf, log_Fatalf, call, os_Exit, mret, M_ret.
  cbn. destruct (Hosts_Save hostFile (world st)) as [[err|] w]; cbn.
  - intros [= <- <- <-].
    apply (ran_through _ _ _ _ [] st (Some err)); [|done|done].
    apply orderly_quiet; try done. by intros ? ?%elem_of_nil.
  - intros [= <- <- <-].
    apply (ran_through _ _ _ _ [] st None); [|done|done].
    apply orderly_quiet; try done. by intros ? ?%elem_of_nil.
Qed.

Lemma Run_shaped prober flags : shaped (services.Run prober flags).
Proof.
  unfold services.Run.
  apply shaped_bind; [apply keeps_call|]. intros [hasRoot err].
  destruct hasRoot; cbn [negb].
  2:{ apply shaped_keeps. apply keeps_bind; [apply keeps_print|]. intros _.
      destruct err; [apply keeps_Fatalf|apply keeps_ret]. }
  apply shaped_bind; [apply keeps_log|]. intros _.
  apply shaped_bind; [apply keeps_log|]. intros _.
  apply shaped_bind; [apply keeps_call|]. intros [e|hostFile].
  { apply shaped_keeps, keeps_Fatalf. }
  apply shaped_bind; [apply keeps_log|]. intros _.
  apply shaped_bind; [apply keeps_call|]. intros [e|msg].
  { apply shaped_keeps, keeps_Fatalf. }
  apply shaped_bind; [apply keeps_log|]. intros _. cbv zeta.
  destruct (String.eqb _ ""); [apply shaped_keeps, keeps_Fatalf|].
  apply shaped_bind; [apply keeps_call|]. intros [e|clientConfig].
  { apply shaped_keeps, keeps_Fatalf. }
  apply shaped_bind.
  { destruct (_ <? 1)%nat; [|apply keeps_ret].
    destruct (services.context_namespace _ _); [|apply keeps_ret].
    apply keeps_bind; [apply keeps_log|]. intros _. apply keeps_ret. }
  intros nss.
  apply shaped_bind; [apply keeps_contexts_loop|]. intros _.
  apply shaped_wait_and_save.
Qed.

End RunShape.

Lemma spawned_tail failed : spawned (tail_of failed) = [].
Proof. by destruct failed. Qed.


Lemma wait_not_before evs : Forall before_wait evs -> EvWait ∉ evs.
Proof.
  intros Hall Hin. apply (proj1 (Forall_forall _ _) Hall) in Hin as [? _]. done.
Qed.

Section RunFacts.
Context {W : Type} (st : State W) (r : Res unit) (st' : State W)
  (evs : list Event).
Hypothesis Hshape : run_shape st r st' evs.

(** Sessions of a run that share an address are of the same service. *)
Lemma run_sessions_grouped s1 s2 :
  s1 ∈ spawned evs -> s2 ∈ spawned evs ->
  pfo_LocalIP s1 = pfo_LocalIP s2 -> same_service s1 s2.
Proof.
  destruct Hshape as [Hord|pre stm failed Hord -> ->].
  - apply (ord_group _ _ _ _ Hord).
  - rewrite spawned_app, spawned_tail, app_nil_r. apply (ord_group _ _ _ _ Hord).
Qed.

(** A failed alias command ends the run with exit code 1. *)
Lemma run_bind_failure e : e ∈ evs -> bind_failure e -> r = Exit 1.
Proof.
  destruct Hshape as [Hord|pre stm failed Hord -> ->].
  - apply (ord_bind _ _ _ _ Hord).
  - intros [He|He]%elem_of_app Hfail.
    + by apply (ord_bind _ _ _ _ Hord e He) in Hfail.
    + destruct Hfail as (args & err & ->). exfalso.
      destruct failed; repeat (apply elem_of_cons in He as [He|He]; [done|]);
        by apply elem_of_nil in He.
Qed.

Lemma run_exit_code : exit_code r = 0%Z \/ exit_code r = 1%Z \/ exit_code r = 2%Z.
Proof.
  destruct Hshape as [Hord|pre stm failed Hord -> ->].
  - destruct r as [v|code|err]; cbn; auto.
    right; left. by apply (ord_exit _ _ _ _ Hord).
  - destruct failed; cbn; auto.
Qed.

(** However the events of the run are cut in two, either the first part lies
    before [wg.Wait()], or the wait is in it and the second part starts no
    session. *)
Lemma run_split done todo :
  evs = done ++ todo ->
  Forall before_wait done \/ (EvWait ∈ done /\ spawned todo = []).
Proof.
  destruct Hshape as [Hord|pre stm failed Hord -> ->].
  - intros ->. left. pose proof (ord_body _ _ _ _ Hord) as Hbody.
    by apply Forall_app in Hbody as [? _].
  - intros [(k & Hpre & ->)|(k & -> & Htail)]%app_eq_inv.
    + left. pose proof (ord_body _ _ _ _ Hord) as Hbody.
      rewrite Hpre in Hbody. by apply Forall_app in Hbody as [? _].
    + destruct k as [|e k].
      * left. rewrite app_nil_r. apply (ord_body _ _ _ _ Hord).
      * right. injection Htail as <- Htail. split.
        -- apply elem_of_app. right. by left.
        -- pose proof (spawned_tail failed) as Hnone.
           unfold tail_of in Hnone. rewrite Htail in Hnone.
           change (spawned (k ++ todo) = []) in Hnone.
           rewrite spawned_app in Hnone. by apply app_eq_nil in Hnone as [_ ?].
Qed.


End RunFacts.

(* ===================================================================== *)
(** ** The process at any instant *)
(* ===================================================================== *)

Lemma main_events_main h e :
  main_events (h ++ [process.Main e]) = main_events h ++ [e].
Proof. unfold main_events. by rewrite omap_app. Qed.

Lemma main_events_tunnel h pfo evs :
  main_events (h ++ [process.TunnelEnded pfo evs]) = main_events h.
Proof. unfold main_events. by rewrite omap_app, app_nil_r. Qed.

Lemma main_events_released h pfo evs :
  main_events (h ++ [process.Released pfo evs]) = main_events h.
Proof. unfold main_events. by rewrite omap_app, app_nil_r. Qed.

Lemma spawned_snoc evs e :
  spawned (evs ++ [e]) =
  spawned evs ++ match e with EvGo pfo => [pfo] | _ => [] end.
Proof. rewrite spawned_app. by destruct e. Qed.

Lemma elem_of_moved {A} (x y : A) (l1 l2 k : list A) :
  x ∈ (l1 ++ l2) ++ k ++ [y] -> x ∈ (l1 ++ y :: l2) ++ k.
Proof.
  rewrite !elem_of_app, !elem_of_cons, elem_of_nil. tauto.
Qed.

Lemma elem_of_removed {A} (x y : A) (l k1 k2 : list A) :
  x ∈ l ++ k1 ++ k2 -> x ∈ l ++ k1 ++ y :: k2.
Proof. rewrite !elem_of_app, elem_of_cons. tauto. Qed.

Section ProcessInvariant.
Context {W : Type} `{!Collaborators W}.
Variable outcome : Res unit.
Variable evs : list Event.
Hypothesis Hsplit : forall done todo, evs = done ++ todo ->
  Forall before_wait done \/ (EvWait ∈ done /\ spawned todo = []).

Lemma inv_step p p' :
  inv outcome evs p -> process.step outcome p p' -> inv outcome evs p'.
Proof.
  intros (Hscript & Hsess & Hphase & Hexit) Hstep.
  destruct Hstep as [pfo todo tn sp h|todo h|e todo tn sp h Hgo Hwait
                    |todo tn1 pfo tn2 sp h st r st' es Hrun
                    |todo tn sp1 pfo sp2 h st r st' es Hrun|tn sp h];
    unfold inv, process.sessions in *; cbn in *.
  - rewrite main_events_main, <- app_assoc. split_and!; [done| | |done].
    + intros s. rewrite spawned_snoc, !elem_of_app.
      intros [[Hs|Hs]|Hs]; [left; apply Hsess, elem_of_app; by left|by right|].
      left. apply Hsess, elem_of_app. by right.
    + left. destruct (Hsplit (main_events h) (EvGo pfo :: todo)) as [?|[_ ?]];
        [done| |done].
      apply Forall_app. split; [done|]. by repeat constructor.
  - rewrite main_events_main, <- app_assoc. split_and!; [done| |by right|done].
    by intros s ?%elem_of_nil.
  - rewrite main_events_main, <- app_assoc. split_and!; [done| | |done].
    + intros s Hs. rewrite spawned_snoc, elem_of_app. left. by apply Hsess.
    + destruct Hphase as [Hbefore|?]; [|by right]. left.
      destruct (Hsplit (main_events h ++ [e]) todo) as [?|[Hin _]];
        [by rewrite <- app_assoc|done|].
      exfalso. apply elem_of_app in Hin as [Hin|Hin%list_elem_of_singleton].
      * by apply wait_not_before in Hbefore.
      * by subst e.
  - rewrite main_events_tunnel. split_and!; [done| | |done].
    + intros s Hs. apply Hsess. by apply elem_of_moved.
    + destruct Hphase as [?|Hnone]; [by left|].
      apply app_eq_nil in Hnone as [Hnone _].
      by apply app_eq_nil in Hnone as [_ ?].
  - rewrite main_events_released. split_and!; [done| | |done].
    + intros s Hs. apply Hsess. by apply elem_of_removed.
    + destruct Hphase as [?|Hnone]; [by left|].
      apply app_eq_nil in Hnone as [_ Hnone].
      by apply app_eq_nil in Hnone as [_ ?].
  - split_and!; try done. by intros code [= <-].
Qed.

Lemma inv_reachable p :
  rtc (process.step outcome) (process.mkProcess evs [] [] [] None) p ->
  inv outcome evs p.
Proof.
  revert p. apply rtc_ind_r.
  - unfold inv, process.sessions; cbn. split_and!; try done. by left.
  - intros p p' _ Hstep IH. by eapply inv_step.
Qed.

(** The main goroutine can always go on up to [wg.Wait()]. *)
Lemma replay pre : forall todo tn sp h,
  Forall (fun e => is_wait e = false) pre ->
  rtc (process.step outcome)
    (process.mkProcess (pre ++ todo) tn sp h None)
    (process.mkProcess todo (tn ++ spawned pre) sp
       (h ++ (process.Main <$> pre)) None).
Proof.
  induction pre as [|e pre IH]; intros todo tn sp h Hpre.
  { cbn. by rewrite !app_nil_r. }
  apply Forall_cons in Hpre as [He Hpre].
  assert (Hhist : h ++ (process.Main <$> e :: pre)
                  = (h ++ [process.Main e]) ++ (process.Main <$> pre))
    by by rewrite <- app_assoc.
  rewrite Hhist.
  destruct (decide (exists pfo, e = EvGo pfo)) as [[pfo ->]|Hgo].
  - eapply rtc_l; [apply process.step_go|].
    replace (tn ++ spawned (EvGo pfo :: pre)) with ((tn ++ [pfo]) ++ spawned pre)
      by by rewrite <- app_assoc.
    by apply IH.
  - eapply rtc_l.
    + apply process.step_main; [|by intros ->]. intros pfo ->. apply Hgo. eauto.
    + replace (spawned (e :: pre)) with (spawned pre); [by apply IH|].
      destruct e; try done. destruct Hgo. eauto.
Qed.

End ProcessInvariant.

Section Completion.
Context {W : Type} `{!Collaborators W}.
Variable outcome : Res unit.

Lemma main_events_mains h pre :
  main_events (h ++ (process.Main <$> pre)) = main_events h ++ pre.
Proof.
  unfold main_events. rewrite omap_app. f_equal.
  induction pre as [|e pre IH]; [done|]. cbn. by f_equal.
Qed.

Lemma main_events_fmap pre : main_events (process.Main <$> pre) = pre.
Proof. apply (main_events_mains []). Qed.

(** The goroutines whose tunnel has ended can all release their address. *)
Lemma drain_stopping (st : State W) todo sp : forall h,
  exists h',
    rtc (process.step outcome) (process.mkProcess todo [] sp h None)
                               (process.mkProcess todo [] [] h' None) /\
    main_events h' = main_events h.
Proof.
  induction sp as [|pfo sp IH]; intros h; [by exists h|].
  destruct (services.deleteIP (pfo_LocalIP pfo) (pfo_NetworkInterface pfo) st)
    as [[r st'] evs] eqn:Hrun.
  destruct (IH (h ++ [process.Released pfo evs])) as (h' & Hsteps & Hmain).
  exists h'. split; [|by rewrite Hmain, main_events_released].
  eapply rtc_l; [|exact Hsteps].
  exact (process.step_release outcome todo [] [] pfo sp h st r st' evs Hrun).
Qed.

(** Whenever the world ends their tunnels, all goroutines reach
    [Wg.Done()]. *)
Lemma drain (st : State W) todo tn : forall sp h,
  exists h',
    rtc (process.step outcome) (process.mkProcess todo tn sp h None)
                               (process.mkProcess todo [] [] h' None) /\
    main_events h' = main_events h.
Proof.
  induction tn as [|pfo tn IH]; intros sp h; [by apply drain_stopping|].
  destruct (services.forwarding_tunnel pfo st) as [[r st'] evs] eqn:Hrun.
  destruct (IH (sp ++ [pfo]) (h ++ [process.TunnelEnded pfo evs]))
    as (h' & Hsteps & Hmain).
  exists h'. split; [|by rewrite Hmain, main_events_tunnel].
  eapply rtc_l; [|exact Hsteps].
  exact (process.step_tunnel_end outcome todo [] pfo tn sp h st r st' evs Hrun).
Qed.

End Completion.

Section RunCompletes.
Context {W : Type} `{!Collaborators W}.

(** Every run can come to its end: the main goroutine does all of its
    script, passing [wg.Wait()] once the tunnels have ended, and the process
    exits with the code of [Cmd.Run]. *)
Lemma run_can_complete prober flags (st : State W) :
  exists p,
    process.reachable prober flags st p /\
    process.exit_status p = Some (exit_code (services.Run prober flags st).1.1) /\
    main_events (process.history p) = (services.Run prober flags st).2.
Proof.
  unfold process.reachable, process.start.
  destruct (services.Run prober flags st) as [[r st'] evs] eqn:Hrun.
  cbn [fst snd].
  assert (Hquiet : forall l, Forall before_wait l ->
            Forall (fun e => is_wait e = false) l).
  { intros l Hl. eapply Forall_impl; [exact Hl|]. by intros e [? _]. }
  destruct (Run_shaped _ _ _ _ _ _ Hrun) as [Hord|pre stm failed Hord -> ->].
  - pose proof (replay r evs [] [] [] [] (Hquiet _ (ord_body _ _ _ _ Hord)))
      as Hsteps.
    rewrite app_nil_r in Hsteps. cbn [app] in Hsteps.
    eexists. split; [eapply rtc_r; [exact Hsteps|apply process.step_exit]|].
    split; [done|]. cbn [process.history]. apply main_events_fmap.
  - set (r := match failed with Some _ => Exit 1 | None => Val tt end) in *.
    pose proof (replay r pre (tail_of failed) [] [] []
                  (Hquiet _ (ord_body _ _ _ _ Hord))) as Hpre.
    cbn [app] in Hpre.
    destruct (drain r st (tail_of failed) (spawned pre) [] (process.Main <$> pre))
      as (h1 & Hdrain & Hmain1).
    unfold tail_of in Hdrain at 2.
    pose proof (process.step_wait r
      (EvLog ("Done..." +:+ services.nl) :: EvSave failed ::
       match failed with
       | Some err => [EvLog ("Error saving hostfile: " +:+ err +:+ services.nl)]
       | None => []
       end) h1) as Hwait.
    assert (Hrest : Forall (fun e => is_wait e = false)
              (EvLog ("Done..." +:+ services.nl) :: EvSave failed ::
               match failed with
               | Some err => [EvLog ("Error saving hostfile: " +:+ err +:+ services.nl)]
               | None => []
               end)) by (destruct failed; by repeat constructor).
    pose proof (replay r _ [] [] [] (h1 ++ [process.Main EvWait]) Hrest) as Htail.
    rewrite app_nil_r in Htail.
    assert (Hnone : spawned
              (EvLog ("Done..." +:+ services.nl) :: EvSave failed ::
               match failed with
               | Some err => [EvLog ("Error saving hostfile: " +:+ err +:+ services.nl)]
               | None => []
               end) = []) by by destruct failed.
    rewrite Hnone in Htail. cbn [app] in Htail.
    eexists. split.
    + eapply rtc_r; [|apply process.step_exit].
      etrans; [exact Hpre|]. etrans; [exact Hdrain|].
      eapply rtc_l; [exact Hwait|exact Htail].
    + split; [done|]. cbn [process.history].
      rewrite main_events_mains, main_events_main, Hmain1.
      rewrite main_events_fmap. by rewrite <- app_assoc.
Qed.

End RunCompletes.

(* ===================================================================== *)
(** ** Sessions and addresses, exit codes, and the saving of the hosts file *)
(* ===================================================================== *)

Section ProcessClaims.
Context {W : Type} `{!Collaborators W}.

Lemma reachable_inv prober flags (st : State W) p :
  process.reachable prober flags st p ->
  inv (services.Run prober flags st).1.1 (services.Run prober flags st).2 p.
Proof.
  apply inv_reachable. intros done todo.
  destruct (services.Run prober flags st) as [[r st'] evs] eqn:Hrun.
  apply (run_split st r st'). by apply (Run_shaped prober flags).
Qed.

(** C7, as the code has it.  [fwdServices] allocates one address for a
    service and starts one session for each of its ports on it.  So at any
    instant of a run two live sessions that hold the same address are
    sessions of the same service: they agree on everything but the pod port
    and the local port they forward. *)
Theorem sessions_of_an_address prober flags (st : State W) p :
  process.reachable prober flags st p ->
  forall s1 s2,
    s1 ∈ process.sessions p -> s2 ∈ process.sessions p ->
    pfo_LocalIP s1 = pfo_LocalIP s2 -> same_service s1 s2.
Proof.
  intros Hreach s1 s2 H1 H2.
  destruct (reachable_inv _ _ _ _ Hreach) as (Hscript & Hsess & _ & _).
  destruct (services.Run prober flags st) as [[r st'] evs] eqn:Hrun.
  cbn [fst snd] in *.
  apply (run_sessions_grouped st r st' evs); [by apply (Run_shaped prober flags)|..].
  - rewrite <- Hscript, spawned_app. apply elem_of_app. left. by apply Hsess.
  - rewrite <- Hscript, spawned_app. apply elem_of_app. left. by apply Hsess.
Qed.


End ProcessClaims.

(** C8, as the code has it.  When the check of the superuser fails with an
    error, [Cmd.Run] prints the notice, logs the failure and exits with code
    1; when the check just answers that the user is not the superuser, it
    prints the notice and returns, so the process ends with code 0.  A run
    in which the command that adds the address alias fails exits with code 1.
    A run ends with code 0 exactly when [Cmd.Run] returns; the only other
    codes are 1 and, for a panic, 2.  The process exits with the code of
    [Cmd.Run] as soon as that ends, whatever sessions are live, and nothing
    happens after. *)
Theorem exit_codes :
  (forall W (C : Collaborators W) prober flags (st : State W) err w,
     CheckRoot (world st) = ((false, Some err), w) ->
     services.Run prober flags st =
       (Exit 1, mkState (allocated st) w,
        [EvPrint services.root_notice;
         EvLog ("Root check failure: " +:+ err)])) /\
  (forall W (C : Collaborators W) prober flags (st : State W) w,
     CheckRoot (world st) = ((false, None), w) ->
     services.Run prober flags st =
       (Val tt, mkState (allocated st) w, [EvPrint services.root_notice])) /\
  (forall W (C : Collaborators W) prober flags (st : State W) e,
     e ∈ (services.Run prober flags st).2 -> bind_failure e ->
     (services.Run prober flags st).1.1 = Exit 1) /\
  (forall W (C : Collaborators W) prober flags (st : State W),
     (exit_code (services.Run prober flags st).1.1 = 0%Z <->
      (services.Run prober flags st).1.1 = Val tt) /\
     (exit_code (services.Run prober flags st).1.1 = 0%Z \/
      exit_code (services.Run prober flags st).1.1 = 1%Z \/
      exit_code (services.Run prober flags st).1.1 = 2%Z)) /\
  (forall W (C : Collaborators W) prober flags (st : State W) p,
     process.reachable prober flags st p ->
     (forall code, process.exit_status p = Some code ->
        code = exit_code (services.Run prober flags st).1.1 /\
        process.script p = [] /\
        forall p', ~ process.step (services.Run prober flags st).1.1 p p') /\
     (process.script p = [] -> process.exit_status p = None ->
        process.step (services.Run prober flags st).1.1 p
          (process.mkProcess [] (process.tunnelling p) (process.stopping p)
             (process.history p)
             (Some (exit_code (services.Run prober flags st).1.1))))).
Proof.
  split_and!.
  - intros W C prober flags st err w Hroot.
    unfold services.Run, mbind, M_bind, call. by rewrite Hroot.
  - intros W C prober flags st w Hroot.
    unfold services.Run, mbind, M_bind, call. by rewrite Hroot.
  - intros W C prober flags st e.
    destruct (services.Run prober flags st) as [[r st'] evs] eqn:Hrun.
    apply (run_bind_failure st r st' evs). by apply (Run_shaped prober flags).
  - intros W C prober flags st.
    destruct (services.Run prober flags st) as [[r st'] evs] eqn:Hrun.
    pose proof (Run_shaped prober flags _ _ _ _ Hrun) as Hshape.
    cbn [fst]. split; [|by apply (run_exit_code st r st' evs)].
    split; [|by intros ->].
    destruct Hshape as [Hord|pre stm failed Hord _ ->].
    + destruct r as [[]|code|err]; cbn; [done| |done].
      intros ->. by pose proof (ord_exit _ _ _ _ Hord 0%Z eq_refl).
    + by destruct failed.
  - intros W C prober flags st p Hreach.
    destruct (reachable_inv _ _ _ _ Hreach) as (_ & _ & _ & Hexit).
    split.
    + intros code Hcode. destruct (Hexit code Hcode) as [-> Hdone].
      split_and!; [done..|].
      intros p' Hstep. destruct Hstep; discriminate Hcode.
    + intros Hdone Hrunning. destruct p as [todo tn sp h status].
      cbn in *. subst todo status. apply process.step_exit.
Qed.

(** A run on a cluster with the two-port service [web_service]: after the
    main goroutine has started the second session, both are in their
    tunnel. *)
Lemma web_midrun_reachable :
  let C := fixture_collaborators (fixture [] [web_service] [web_pod]) in
  exists todo h,
    process.reachable IcmpLibrary default_flags fresh
      (process.mkProcess todo
         [web_session "8080" "80"; web_session "9090" "9090"] [] h None).
Proof.
  intros C. unfold process.reachable, process.start.
  set (r := (services.Run IcmpLibrary default_flags fresh).1.1).
  set (evs := (services.Run IcmpLibrary default_flags fresh).2).
  exists (drop 11 evs), (process.Main <$> take 11 evs).
  assert (Hquiet : Forall (fun e => is_wait e = false) (take 11 evs))
    by (vm_compute; by repeat constructor).
  pose proof (replay r (take 11 evs) (drop 11 evs) [] [] [] Hquiet) as Hsteps.
  rewrite take_drop in Hsteps.
  assert (Hspawned : [] ++ spawned (take 11 evs)
            = [web_session "8080" "80"; web_session "9090" "9090"])
    by (vm_compute; reflexivity).
  rewrite Hspawned in Hsteps. exact Hsteps.
Qed.

Lemma sessions_of_an_address_witness :
  let C := fixture_collaborators (fixture [] [web_service] [web_pod]) in
  same_service (web_session "8080" "80") (web_session "9090" "9090").
Proof.
  intros C. destruct web_midrun_reachable as (todo & h & Hreach).
  apply (sessions_of_an_address IcmpLibrary default_flags fresh _ Hreach).
  - unfold process.sessions; cbn. by left.
  - unfold process.sessions; cbn. right. by left.
  - reflexivity.
Defined.

(** C7 does not hold as stated: in the run on [web_service] two live
    sessions, one for each port, hold the address 127.1.27.1 at once. *)
Lemma two_sessions_one_address :
  let C := fixture_collaborators (fixture [] [web_service] [web_pod]) in
  exists p s1 s2,
    process.reachable IcmpLibrary default_flags fresh p /\
    process.sessions p = [s1; s2] /\ s1 <> s2 /\
    net.IP_String (pfo_LocalIP s1) = "127.1.27.1" /\
    net.IP_String (pfo_LocalIP s2) = "127.1.27.1" /\
    ~ NoDup (pfo_LocalIP <$> process.sessions p).
Proof.
  intros C. destruct web_midrun_reachable as (todo & h & Hreach).
  eexists _, (web_session "8080" "80"), (web_session "9090" "9090").
  split; [exact Hreach|]. split_and!; try reflexivity.
  - discriminate.
  - unfold process.sessions; cbn. intros Hnd.
    apply NoDup_cons in Hnd as [Hnot _]. apply Hnot. by left.
Qed.



Lemma exit_codes_witness :
  (let C := fixture_collaborators unbindable_fixture in
   (services.Run IcmpLibrary default_flags fresh).1.1 = Exit 1) /\
  (let C := fixture_collaborators unprivileged_fixture in
   services.Run IcmpLibrary default_flags fresh
     = (Val tt, fresh, [EvPrint services.root_notice])).
Proof.
  split; intros C.
  - apply (proj1 (proj2 (proj2 exit_codes)) unit C IcmpLibrary default_flags fresh
             (EvRun "ip" ["addr"; "add"; "127.1.27.1"; "dev"; "lo"]
                (Some "exit status 2"))).
    + vm_compute. do 5 right. by left.
    + by eexists _, _.
  - apply (proj1 (proj2 exit_codes) unit C IcmpLibrary default_flags fresh tt).
    reflexivity.
Defined.

(** C8 does not hold as stated: for a user who is not the superuser the
    check of the privilege fails, without an error, and the process prints
    the notice and ends with code 0. *)
Lemma unprivileged_run_exits_0 :
  let C := fixture_collaborators unprivileged_fixture in
  CheckRoot tt = ((false, None), tt) /\
  (services.Run IcmpLibrary default_flags fresh).1.1 = Val tt /\
  (services.Run IcmpLibrary default_flags fresh).2
    = [EvPrint services.root_notice] /\
  exit_code (services.Run IcmpLibrary default_flags fresh).1.1 = 0%Z /\
  exists p,
    process.reachable IcmpLibrary default_flags fresh p /\
    process.exit_status p = Some 0%Z.
Proof.
  intros C. split_and!; try (vm_compute; reflexivity).
  destruct (run_can_complete IcmpLibrary default_flags fresh)
    as (p & Hreach & Hexit & _).
  exists p. split; [done|]. rewrite Hexit. vm_compute. reflexivity.
Qed.

(* ===================================================================== *)
(** * Further properties of the code *)
(* ===================================================================== *)

(** ** The allocators *)

Section ExecAllocateOrder.
Context {W : Type} `{!Collaborators W}.

Lemma exec_Allocate_parsed range ipr (st : State W) :
  iprange.ParseIPRange range = inr ipr ->
  fwdnet_exec.Allocate range st
    = fwdnet_exec.Allocate_loop (iprange.addresses ipr) st.
Proof. unfold fwdnet_exec.Allocate. by intros ->. Qed.

(** The loop returns the first unclaimed address whose ping output says the
    host is unreachable. *)
Lemma exec_Allocate_loop_returns earlier ip later : forall st : State W,
  NoDup (net.IP_String <$> earlier ++ ip :: later) ->
  (forall a w, a ∈ earlier -> unclaimed st a ->
     ~ unreachable
         (exec_Output "ping" [net.IP_String a; "-c 2"; "-w 10"] w).1.1) ->
  unclaimed st ip ->
  (forall w,
     unreachable
       (exec_Output "ping" [net.IP_String ip; "-c 2"; "-w 10"] w).1.1) ->
  exists st' skipped out err,
    fwdnet_exec.Allocate_loop (earlier ++ ip :: later) st
      = (Val (inr ip), st', exec_event <$> (skipped ++ [(ip, (out, err))])) /\
    skipped.*1 = filter (unclaimed st) earlier /\
    Forall (fun probe => ~ unreachable probe.2.1) skipped /\
    unreachable out /\
    is_Some (allocated st' !! net.IP_String ip).
Proof.
  induction earlier as [|c earlier IH]; intros st Hnd Hskip Hfree Hip.
  { cbn [app]. rewrite exec_Allocate_loop_cons. unfold unclaimed in Hfree.
    rewrite Hfree. cbv zeta.
    pose proof (Hip (world st)) as Hout.
    destruct (exec_Output _ _ (world st)) as [[out err] w1]. cbn in Hout.
    pose proof Hout as Htext. unfold unreachable in Hout. rewrite Hout.
    eexists _, [], out, err. split_and!; [done|done|done|done|].
    cbn. rewrite lookup_insert_eq. by eexists. }
  cbn [app] in *. rewrite fmap_cons in Hnd. apply NoDup_cons in Hnd as [Hc Hnd].
  assert (Hne : forall a, a ∈ earlier ++ ip :: later ->
            net.IP_String a <> net.IP_String c).
  { intros a Ha Heq. apply Hc. rewrite <- Heq. by apply list_elem_of_fmap_2. }
  rewrite exec_Allocate_loop_cons.
  destruct (allocated st !! net.IP_String c) as [b|] eqn:Hlook.
  { destruct (IH st Hnd) as (st' & skipped & out & err & Hrun & Hmap & Hall
                              & Hout & Hin);
      [by intros a w Ha; apply Hskip; right|done|done|].
    exists st', skipped, out, err. split_and!; [done| |done|done|done].
    rewrite filter_cons_False; [done|]. unfold unclaimed. congruence. }
  cbv zeta.
  pose proof (Hskip c (world st) ltac:(by left) Hlook) as Hout.
  destruct (exec_Output _ _ (world st)) as [[outc errc] w1]. cbn in Hout.
  pose proof Hout as Hnot. unfold unreachable in Hout.
  destruct (strings.Contains outc _) eqn:Hcontains; [done|].
  set (st1 := mkState (<[net.IP_String c:=true]> (allocated st)) w1).
  assert (Hsame : forall a, a ∈ earlier ++ ip :: later ->
            unclaimed st1 a <-> unclaimed st a).
  { intros a Ha. unfold unclaimed, st1; cbn.
    by rewrite lookup_insert_ne by (apply not_eq_sym, Hne, Ha). }
  destruct (IH st1 Hnd) as (st' & skipped & out & err & -> & Hmap & Hall
                            & Hunr & Hin).
  - intros a w Ha Hfree1. apply Hskip; [by right|].
    apply Hsame; [|done]. apply elem_of_app. by left.
  - apply Hsame; [|done]. apply elem_of_app. right. by left.
  - done.
  - exists st', ((c, (outc, errc)) :: skipped), out, err.
    split_and!; [done| |by constructor|done|done].
    rewrite filter_cons_True by done. cbn. f_equal. rewrite Hmap.
    apply filter_ext_elem. intros a Ha. apply Hsame. apply elem_of_app. by left.
Qed.

(** X1. The ping-command [Allocate] goes through the addresses of the range
    in order and returns the first unclaimed one whose ping output says
    "Destination Host Unreachable".  If an address of the range is unclaimed
    and the output of its ping contains that text, whatever the error of
    the command, and every address before it is claimed or is pinged
    without that text, then [Allocate] returns that address, after one ping
    of each unclaimed address before it, in order, and claims it.
    Conversely, the address it returns was unclaimed and the output of its
    ping had the text, and every address before it was already claimed or
    was pinged, in order, without that text. *)
Theorem ping_command_takes_first_unreachable range ipr (st : State W) :
  iprange.ParseIPRange range = inr ipr ->
  (forall earlier ip later,
     iprange.addresses ipr = earlier ++ ip :: later ->
     (forall a w, a ∈ earlier -> unclaimed st a ->
        ~ unreachable
            (exec_Output "ping" [net.IP_String a; "-c 2"; "-w 10"] w).1.1) ->
     unclaimed st ip ->
     (forall w,
        unreachable
          (exec_Output "ping" [net.IP_String ip; "-c 2"; "-w 10"] w).1.1) ->
     exists st' skipped out err,
       fwdnet_exec.Allocate range st
         = (Val (inr ip), st',
            exec_event <$> (skipped ++ [(ip, (out, err))])) /\
       skipped.*1 = filter (unclaimed st) earlier /\
       Forall (fun probe => ~ unreachable probe.2.1) skipped /\
       unreachable out /\
       is_Some (allocated st' !! net.IP_String ip)) /\
  (forall ip st' evs,
     fwdnet_exec.Allocate range st = (Val (inr ip), st', evs) ->
     exists earlier later skipped out err,
       iprange.addresses ipr = earlier ++ ip :: later /\
       skipped.*1 = filter (unclaimed st) earlier /\
       Forall (fun probe => ~ unreachable probe.2.1) skipped /\
       unclaimed st ip /\ unreachable out /\
       evs = exec_event <$> (skipped ++ [(ip, (out, err))])).
Proof.
  intros Hparse. split.
  - intros earlier ip later Hsplit Hskip Hfree Hip.
    rewrite (exec_Allocate_parsed _ _ _ Hparse), Hsplit.
    apply exec_Allocate_loop_returns; [|done..].
    rewrite <- Hsplit. by eapply addresses_NoDup.
  - intros ip st' evs Hrun.
    rewrite (exec_Allocate_parsed _ _ _ Hparse) in Hrun.
    apply exec_Allocate_loop_spec in Hrun
      as (tried & skipped & Hmap & Hskip & Hres); [|by eapply addresses_NoDup].
    destruct Hres as (rest & out & err & Hpend & Hfree & Hout & -> & _).
    by exists tried, rest, skipped, out, err.
Qed.

Lemma exec_Allocate_loop_none_unreachable pending : forall st : State W,
  NoDup (net.IP_String <$> pending) ->
  Forall (unclaimed st) pending ->
  (forall ip w, ip ∈ pending ->
     ~ unreachable
         (exec_Output "ping" [net.IP_String ip; "-c 2"; "-w 10"] w).1.1) ->
  exists st' outs,
    fwdnet_exec.Allocate_loop pending st =
      (Val (inl "No IP addresses available"), st',
       exec_event <$> zip pending outs) /\
    length outs = length pending /\
    Forall (fun out => ~ unreachable out.1) outs /\
    forall ip, ip ∈ pending -> is_Some (allocated st' !! net.IP_String ip).
Proof.
  induction pending as [|c pending IH]; intros st Hnd Hfree Hsilent.
  { exists st, []. split_and!; try done. by intros ? ?%elem_of_nil. }
  rewrite fmap_cons in Hnd. apply NoDup_cons in Hnd as [Hc Hnd].
  apply Forall_cons in Hfree as [Hfree_c Hfree].
  rewrite exec_Allocate_loop_cons. unfold unclaimed in Hfree_c.
  rewrite Hfree_c. cbv zeta.
  pose proof (Hsilent c (world st) ltac:(by left)) as Hout.
  destruct (exec_Output _ _ (world st)) as [[out err] w1]. cbn in Hout.
  unfold unreachable in Hout.
  destruct (strings.Contains out _) eqn:Hcontains; [done|].
  destruct (IH (mkState (<[net.IP_String c:=true]> (allocated st)) w1))
    as (st' & outs & Hrun & Hlen & Houts & Hclaimed);
    [done| |by intros; apply Hsilent; right|].
  - apply Forall_forall. intros ip Hip. unfold unclaimed; cbn.
    rewrite lookup_insert_ne.
    + by apply (proj1 (Forall_forall _ _) Hfree).
    + intros Heq. apply Hc. rewrite Heq. by apply list_elem_of_fmap_2.
  - rewrite Hrun. exists st', ((out, err) :: outs). cbn.
    split_and!; [done|lia| |].
    + constructor; [|done]. cbn. unfold unreachable. congruence.
    + intros ip [->|Hip]%elem_of_cons; [|by apply Hclaimed].
      pose proof (exec_Allocate_loop_spec _ _ _ _ _ Hnd Hrun)
        as (tried & skipped & _ & _ & _ & _ & _ & Hdom).
      apply Hdom. left. cbn. rewrite lookup_insert_eq. by eexists.
Qed.

(** X2. When no ping of an address of the range prints "Destination Host
    Unreachable" (the address answers, or the command fails), the
    ping-command [Allocate] on a fresh table pings each of the K addresses
    once, in order, returns the exhaustion error, and leaves every address of
    the range claimed although it gave none out. *)
Theorem ping_command_exhausts_the_range range ipr (st : State W) :
  iprange.ParseIPRange range = inr ipr ->
  allocated st = ∅ ->
  (forall ip w, ip ∈ iprange.addresses ipr ->
     ~ unreachable
         (exec_Output "ping" [net.IP_String ip; "-c 2"; "-w 10"] w).1.1) ->
  exists st' outs,
    fwdnet_exec.Allocate range st =
      (Val (inl "No IP addresses available"), st',
       exec_event <$> zip (iprange.addresses ipr) outs) /\
    length outs = length (iprange.addresses ipr) /\
    Forall (fun out => ~ unreachable out.1) outs /\
    forall ip, ip ∈ iprange.addresses ipr ->
      is_Some (allocated st' !! net.IP_String ip).
Proof.
  intros Hparse Hfresh Hsilent. rewrite (exec_Allocate_parsed _ _ _ Hparse).
  apply exec_Allocate_loop_none_unreachable;
    [by eapply addresses_NoDup| |done].
  apply Forall_forall. intros ip _. unfold unclaimed. by rewrite Hfresh.
Qed.

End ExecAllocateOrder.

Lemma ping_command_takes_first_unreachable_witness :
  let C := fixture_collaborators unreachable_fixture in
  exists st' skipped out err,
    fwdnet_exec.Allocate "10.0.0.1-4" (mkState {[ "10.0.0.1" := true ]} tt)
      = (Val (inr (net.mkIP 10 0 0 3)), st',
         exec_event <$> (skipped ++ [(net.mkIP 10 0 0 3, (out, err))])) /\
    skipped.*1 = filter (unclaimed (mkState {[ "10.0.0.1" := true ]} tt))
                   [net.mkIP 10 0 0 1; net.mkIP 10 0 0 2] /\
    Forall (fun probe => ~ unreachable probe.2.1) skipped /\
    unreachable out /\
    is_Some (allocated st' !! "10.0.0.3").
Proof.
  intros C.
  refine (proj1 (ping_command_takes_first_unreachable (W := unit) "10.0.0.1-4"
                   (iprange.mkIPRange (net.mkIP 10 0 0 1) (net.mkIP 10 0 0 4))
                   (mkState {[ "10.0.0.1" := true ]} tt) eq_refl)
            [net.mkIP 10 0 0 1; net.mkIP 10 0 0 2] (net.mkIP 10 0 0 3)
            [net.mkIP 10 0 0 4] _ _ _ _).
  - vm_compute. reflexivity.
  - intros a w Ha Hfree.
    apply elem_of_cons in Ha as [->|Ha]; [by vm_compute in Hfree|].
    apply list_elem_of_singleton in Ha as ->. vm_compute. discriminate.
  - vm_compute. reflexivity.
  - intros w. vm_compute. reflexivity.
Defined.

Lemma ping_command_exhausts_the_range_witness :
  let C := fixture_collaborators silent_fixture in
  exists st' outs,
    fwdnet_exec.Allocate "10.0.0.1-2" fresh =
      (Val (inl "No IP addresses available"), st',
       exec_event <$> zip [net.mkIP 10 0 0 1; net.mkIP 10 0 0 2] outs) /\
    length outs = 2 /\
    Forall (fun out => ~ unreachable out.1) outs /\
    forall ip, ip ∈ [net.mkIP 10 0 0 1; net.mkIP 10 0 0 2] ->
      is_Some (allocated st' !! net.IP_String ip).
Proof.
  intros C.
  refine (ping_command_exhausts_the_range (W := unit) "10.0.0.1-2"
            (iprange.mkIPRange (net.mkIP 10 0 0 1) (net.mkIP 10 0 0 2)) fresh
            eq_refl eq_refl _).
  intros ip w Hip. vm_compute in Hip.
  repeat (apply elem_of_cons in Hip as [->|Hip]; [vm_compute; discriminate|]).
  by apply elem_of_nil in Hip.
Defined.

Section AllocateRuns.
Context {W : Type} `{!Collaborators W}.

Lemma probe_addr_ping (probes : list (net.IP * RunResult)) :
  omap probe_addr (ping_event <$> probes) = net.IP_String <$> probes.*1.
Proof. induction probes as [|[ip r] probes IH]; [done|]. cbn. by f_equal. Qed.

Lemma probe_addr_exec (probes : list (net.IP * (string * option error))) :
  omap probe_addr (exec_event <$> probes) = net.IP_String <$> probes.*1.
Proof. induction probes as [|[ip r] probes IH]; [done|]. cbn. by f_equal. Qed.

Lemma NoDup_filter_prefix (P : net.IP -> Prop) `{!forall ip, Decision (P ip)}
    (tried rest : list net.IP) ip :
  NoDup (net.IP_String <$> tried ++ ip :: rest) ->
  NoDup (net.IP_String <$> filter P tried) /\
  NoDup (net.IP_String <$> (filter P tried ++ [ip])).
Proof.
  intros Hnd%NoDup_fmap_1. apply NoDup_app in Hnd as (Htried & Hsep & Hrest).
  split.
  - apply NoDup_fmap_2; [apply _|]. by apply NoDup_filter.
  - apply NoDup_fmap_2; [apply _|]. apply NoDup_app. split_and!.
    + by apply NoDup_filter.
    + intros x [_ Hx]%list_elem_of_filter ->%list_elem_of_singleton.
      apply (Hsep _ Hx). by left.
    + apply NoDup_singleton.
Qed.

(** The probes of one call go to pairwise distinct addresses, each of them
    unclaimed when the call began and claimed when it ended. *)
Lemma call_probe_addrs prober range (st : State W) res st' evs :
  fwdnet_Allocate prober range st = (res, st', evs) ->
  NoDup (omap probe_addr evs) /\
  forall addr, addr ∈ omap probe_addr evs ->
    allocated st !! addr = None /\ is_Some (allocated st' !! addr).
Proof.
  assert (Hfree : forall (l : list net.IP) addr,
            addr ∈ net.IP_String <$> filter (unclaimed st) l ->
            allocated st !! addr = None).
  { intros l addr (ip & -> & [Hip _]%list_elem_of_filter)%list_elem_of_fmap.
    done. }
  destruct prober; cbn [fwdnet_Allocate];
    unfold fwdnet.Allocate, fwdnet_exec.Allocate;
    destruct (iprange.ParseIPRange range) as [err|ipr] eqn:Hparse.
  - unfold mret, M_ret. intros [= <- <- <-]. split; [constructor|].
    by intros addr ?%elem_of_nil.
  - intros Hrun. pose proof (addresses_NoDup _ _ Hparse) as Hnd.
    change (iprange.pending (iprange.NewAllocator ipr))
      with (iprange.addresses ipr) in Hrun.
    apply Allocate_loop_spec in Hrun as (tried & lives & Hmap & _ & Hres);
      [|done].
    destruct res as [[err|ip]| |err]; [| |done|].
    + destruct Hres as (-> & -> & -> & Hdom). rewrite probe_addr_ping, Hmap.
      split.
      * apply NoDup_fmap_2; [apply _|]. apply NoDup_filter.
        by eapply NoDup_fmap_1.
      * intros addr Hin. split; [by eapply Hfree|]. apply Hdom. right.
        by rewrite Hmap.
    + destruct Hres as (rest & r & Hpend & Hip & _ & -> & Hdom).
      rewrite Hpend in Hnd.
      rewrite probe_addr_ping, fmap_app, Hmap. cbn [fmap list_fmap fst].
      split; [by eapply NoDup_filter_prefix|].
      intros addr Hin. split; [|apply Hdom; right; by rewrite Hmap].
      rewrite fmap_app in Hin. apply elem_of_app in Hin as [Hin|Hin];
        [by eapply Hfree|].
      by apply list_elem_of_singleton in Hin as ->.
    + destruct Hres as (ip & rest & w & Hpend & Hip & _ & -> & Hdom).
      rewrite Hpend in Hnd. rewrite probe_addr_ping, Hmap.
      split; [by eapply (NoDup_filter_prefix _ tried rest ip)|].
      intros addr Hin. split; [by eapply Hfree|]. apply Hdom. right.
      rewrite fmap_app, Hmap. apply elem_of_app. by left.
  - unfold mret, M_ret. intros [= <- <- <-]. split; [constructor|].
    by intros addr ?%elem_of_nil.
  - intros Hrun. pose proof (addresses_NoDup _ _ Hparse) as Hnd.
    change (iprange.pending (iprange.NewAllocator ipr))
      with (iprange.addresses ipr) in Hrun.
    apply exec_Allocate_loop_spec in Hrun
      as (tried & skipped & Hmap & _ & Hres); [|done].
    destruct res as [[err|ip]| |err]; [| |done|done].
    + destruct Hres as (-> & -> & -> & Hdom). rewrite probe_addr_exec, Hmap.
      split.
      * apply NoDup_fmap_2; [apply _|]. apply NoDup_filter.
        by eapply NoDup_fmap_1.
      * intros addr Hin. split; [by eapply Hfree|]. apply Hdom. right.
        by rewrite Hmap.
    + destruct Hres as (rest & out & err & Hpend & Hip & _ & -> & Hdom).
      rewrite Hpend in Hnd.
      rewrite probe_addr_exec, fmap_app, Hmap. cbn [fmap list_fmap fst].
      split; [by eapply NoDup_filter_prefix|].
      intros addr Hin. split; [|apply Hdom; right; by rewrite Hmap].
      rewrite fmap_app in Hin. apply elem_of_app in Hin as [Hin|Hin];
        [by eapply Hfree|].
      by apply list_elem_of_singleton in Hin as ->.
Qed.

Lemma calls_probe_addrs prober ranges : forall (st : State W) calls final,
  Allocate_calls prober ranges st = (calls, final) ->
  (forall key, is_Some (allocated st !! key) -> is_Some (allocated final !! key)) /\
  NoDup (omap probe_addr (events_of calls)) /\
  forall addr, addr ∈ omap probe_addr (events_of calls) ->
    allocated st !! addr = None /\ is_Some (allocated final !! addr).
Proof.
  induction ranges as [|range ranges IH]; intros st calls final Hcalls.
  { cbn in Hcalls. simplify_eq. split_and!; [done|constructor|].
    by intros addr ?%elem_of_nil. }
  cbn [Allocate_calls] in Hcalls.
  destruct (fwdnet_Allocate prober range st) as [[res st'] evs] eqn:Hcall.
  pose proof (Allocate_facts prober _ _ _ _ _ Hcall) as (Hmono & _).
  pose proof (call_probe_addrs _ _ _ _ _ _ Hcall) as (Hnd & Hprobes).
  assert (Hone : events_of [(res, evs)] = evs).
  { unfold events_of. cbn. by rewrite app_nil_r. }
  destruct res as [v| |err]; cycle 1.
  - simplify_eq. rewrite Hone. done.
  - simplify_eq. rewrite Hone. done.
  - destruct (Allocate_calls prober ranges st') as [calls' final'] eqn:Hrest.
    simplify_eq. destruct (IH _ _ _ Hrest) as (Hmono' & Hnd' & Hprobes').
    change (events_of ((Val v, evs) :: calls')) with (evs ++ events_of calls').
    rewrite omap_app. split_and!; [auto| |].
    + apply NoDup_app. split_and!; [done| |done].
      intros addr Hin1 Hin2. destruct (Hprobes _ Hin1) as [_ Hclaimed].
      destruct (Hprobes' _ Hin2) as [Hfree _]. rewrite Hfree in Hclaimed.
      by destruct Hclaimed.
    + intros addr [Hin|Hin]%elem_of_app.
      * destruct (Hprobes _ Hin). auto.
      * destruct (Hprobes' _ Hin) as [Hfree Hclaimed]. split; [|done].
        destruct (allocated st !! addr) eqn:Hst; [|done].
        destruct (Hmono addr) as [? Hx]; [eauto|congruence].
Qed.

(** X3. Whatever ranges a process asks [Allocate] for, call after call and
    with either implementation, no address is probed twice: the addresses of
    all the probes of the run are pairwise distinct, and each of them was
    unclaimed when the run began and is claimed when it ends. *)
Theorem Allocate_never_probes_twice (prober : Prober) (ranges : list string)
  (st : State W) :
  NoDup (omap probe_addr (events_of (Allocate_calls prober ranges st).1)) /\
  forall addr,
    addr ∈ omap probe_addr (events_of (Allocate_calls prober ranges st).1) ->
    allocated st !! addr = None /\
    is_Some (allocated (Allocate_calls prober ranges st).2 !! addr).
Proof.
  destruct (Allocate_calls prober ranges st) as [calls final] eqn:Hcalls.
  by destruct (calls_probe_addrs _ _ _ _ _ Hcalls) as (_ & Hnd & Hprobes).
Qed.

Lemma Allocate_loop_all_claimed prober pending (st : State W) :
  Forall (fun ip => is_Some (allocated st !! net.IP_String ip)) pending ->
  match prober with
  | IcmpLibrary => fwdnet.Allocate_loop pending st
  | PingCommand => fwdnet_exec.Allocate_loop pending st
  end = (Val (inl "No IP addresses available"), st, []).
Proof.
  induction 1 as [|ip pending [b Hip] _ IH]; [by destruct prober|].
  destruct prober.
  - by rewrite Allocate_loop_cons, Hip.
  - by rewrite exec_Allocate_loop_cons, Hip.
Qed.

Lemma Allocate_unfold prober range ipr (st : State W) :
  iprange.ParseIPRange range = inr ipr ->
  fwdnet_Allocate prober range st =
  match prober with
  | IcmpLibrary => fwdnet.Allocate_loop (iprange.addresses ipr) st
  | PingCommand => fwdnet_exec.Allocate_loop (iprange.addresses ipr) st
  end.
Proof.
  intros Hparse. destruct prober; cbn [fwdnet_Allocate];
    unfold fwdnet.Allocate, fwdnet_exec.Allocate; by rewrite Hparse.
Qed.

(** A call for a range that parses and ends without an address leaves every
    address of the range claimed. *)
Lemma Allocate_error_claims_all prober range ipr (st : State W) err st' evs :
  iprange.ParseIPRange range = inr ipr ->
  fwdnet_Allocate prober range st = (Val (inl err), st', evs) ->
  err = "No IP addresses available" /\
  Forall (fun ip => is_Some (allocated st' !! net.IP_String ip))
         (iprange.addresses ipr).
Proof.
  intros Hparse Hrun. rewrite (Allocate_unfold _ _ _ _ Hparse) in Hrun.
  pose proof (addresses_NoDup _ _ Hparse) as Hnd.
  assert (Hall : forall (names : list net.IP),
            names = filter (unclaimed st) (iprange.addresses ipr) ->
            (forall key, is_Some (allocated st' !! key) <->
               is_Some (allocated st !! key) \/ key ∈ net.IP_String <$> names) ->
            Forall (fun ip => is_Some (allocated st' !! net.IP_String ip))
                   (iprange.addresses ipr)).
  { intros names -> Hdom. apply Forall_forall. intros ip Hip. apply Hdom.
    destruct (decide (unclaimed st ip)) as [Hfree|Hheld].
    - right. apply list_elem_of_fmap_2. by apply list_elem_of_filter.
    - left. unfold unclaimed in Hheld.
      destruct (allocated st !! net.IP_String ip); [by eexists|done]. }
  destruct prober.
  - apply Allocate_loop_spec in Hrun as (tried & lives & Hmap & _ & Hres);
      [|done].
    destruct Hres as (-> & -> & _ & Hdom). split; [done|]. by eapply Hall.
  - apply exec_Allocate_loop_spec in Hrun as (tried & lives & Hmap & _ & Hres);
      [|done].
    destruct Hres as (-> & -> & _ & Hdom). split; [done|]. by eapply Hall.
Qed.

(** X4. Exhaustion of a range is permanent. Once a call of [Allocate] for a
    range that parses has ended without an address, every later call for that
    range, in any state whose table holds at least the keys of the state the
    failed call left, returns the exhaustion error at once: it sends no probe
    and leaves the state as it is. The table never loses a key, so the
    addresses of sessions that have ended are not given out again. *)
Theorem Allocate_exhaustion_is_permanent (prober : Prober) range ipr
  (st st1 st2 : State W) err evs :
  iprange.ParseIPRange range = inr ipr ->
  fwdnet_Allocate prober range st = (Val (inl err), st1, evs) ->
  (forall key, is_Some (allocated st1 !! key) -> is_Some (allocated st2 !! key)) ->
  fwdnet_Allocate prober range st2 =
    (Val (inl "No IP addresses available"), st2, []).
Proof.
  intros Hparse Hrun Hlater.
  destruct (Allocate_error_claims_all _ _ _ _ _ _ _ Hparse Hrun) as [_ Hall].
  rewrite (Allocate_unfold _ _ _ _ Hparse).
  apply Allocate_loop_all_claimed. eapply Forall_impl; [exact Hall|].
  intros ip. apply Hlater.
Qed.

Lemma Allocate_returns_in_range prober range (st : State W) ip st' evs :
  fwdnet_Allocate prober range st = (Val (inr ip), st', evs) ->
  exists ipr, iprange.ParseIPRange range = inr ipr /\
              ip ∈ iprange.addresses ipr.
Proof.
  destruct (iprange.ParseIPRange range) as [err|ipr] eqn:Hparse.
  { destruct prober; cbn [fwdnet_Allocate];
      unfold fwdnet.Allocate, fwdnet_exec.Allocate; rewrite Hparse;
      unfold mret, M_ret; by intros [=]. }
  rewrite (Allocate_unfold _ _ _ _ Hparse). intros Hrun. exists ipr.
  split; [done|]. pose proof (addresses_NoDup _ _ Hparse) as Hnd.
  destruct prober.
  - apply Allocate_loop_spec in Hrun as (tried & lives & _ & _ & Hres); [|done].
    destruct Hres as (rest & r & -> & _). apply elem_of_app. right. by left.
  - apply exec_Allocate_loop_spec in Hrun as (tried & lives & _ & _ & Hres);
      [|done].
    destruct Hres as (rest & out & err & -> & _). apply elem_of_app. right.
    by left.
Qed.

Lemma returned_in_range prober range ipr n : forall (st : State W) calls final,
  iprange.ParseIPRange range = inr ipr ->
  Allocate_calls prober (replicate n range) st = (calls, final) ->
  forall ip, ip ∈ returned calls -> ip ∈ iprange.addresses ipr.
Proof.
  induction n as [|n IH]; intros st calls final Hparse Hcalls ip Hin.
  { cbn in Hcalls. simplify_eq. by apply elem_of_nil in Hin. }
  cbn [replicate Allocate_calls] in Hcalls.
  destruct (fwdnet_Allocate prober range st) as [[res st'] evs] eqn:Hcall.
  destruct res as [v| |err]; cycle 1.
  - simplify_eq. by apply elem_of_nil in Hin.
  - simplify_eq. by apply elem_of_nil in Hin.
  - destruct (Allocate_calls prober (replicate n range) st')
      as [calls' final'] eqn:Hrest.
    simplify_eq. destruct v as [err|ip0]; cbn in Hin; [by eapply IH|].
    apply elem_of_cons in Hin as [->|Hin]; [|by eapply IH].
    destruct (Allocate_returns_in_range _ _ _ _ _ _ Hcall) as (ipr' & Hp & Hip).
    congruence.
Qed.

(** X5. A range of K addresses gives out at most K addresses in the life of a
    process: however often [Allocate] is called for the range, with either
    implementation and from any state, the addresses it returns are addresses
    of the range and there are no more of them than the range holds. *)
Theorem Allocate_gives_at_most_the_range (prober : Prober) range ipr (n : nat)
  (st : State W) :
  iprange.ParseIPRange range = inr ipr ->
  returned (Allocate_calls prober (replicate n range) st).1
    ⊆ iprange.addresses ipr /\
  length (returned (Allocate_calls prober (replicate n range) st).1)
    <= length (iprange.addresses ipr).
Proof.
  intros Hparse.
  destruct (Allocate_calls prober (replicate n range) st)
    as [calls final] eqn:Hcalls.
  cbn [fst].
  assert (Hsub : returned calls ⊆ iprange.addresses ipr).
  { intros ip. by eapply returned_in_range. }
  split; [done|].
  destruct (Allocate_calls_inv _ _ _ _ _ Hcalls) as (_ & _ & _ & Hnd & _).
  apply submseteq_length, NoDup_submseteq; [|done].
  by eapply NoDup_fmap_1.
Qed.

End AllocateRuns.

Lemma Allocate_exhaustion_is_permanent_witness :
  let C := fixture_collaborators
             (fixture ["10.0.0.1"; "10.0.0.2"] [] []) in
  let st1 := (fwdnet_Allocate IcmpLibrary "10.0.0.1-2" fresh).1.2 in
  fwdnet_Allocate IcmpLibrary "10.0.0.1-2" st1 =
    (Val (inl "No IP addresses available"), st1, []).
Proof.
  intros C st1.
  refine (Allocate_exhaustion_is_permanent (W := unit) IcmpLibrary "10.0.0.1-2"
            (iprange.mkIPRange (net.mkIP 10 0 0 1) (net.mkIP 10 0 0 2))
            fresh st1 st1 "No IP addresses available"
            (fwdnet_Allocate IcmpLibrary "10.0.0.1-2" fresh).2
            eq_refl _ (fun _ H => H)).
  vm_compute. reflexivity.
Defined.

Lemma Allocate_gives_at_most_the_range_witness :
  let C := fixture_collaborators (fixture [] [] []) in
  returned (Allocate_calls PingCommand (replicate 5 "10.0.0.1-2") fresh).1
    ⊆ [net.mkIP 10 0 0 1; net.mkIP 10 0 0 2] /\
  length (returned (Allocate_calls PingCommand (replicate 5 "10.0.0.1-2") fresh).1)
    <= 2.
Proof.
  intros C.
  exact (Allocate_gives_at_most_the_range (W := unit) PingCommand "10.0.0.1-2"
           (iprange.mkIPRange (net.mkIP 10 0 0 1) (net.mkIP 10 0 0 2)) 5 fresh
           eq_refl).
Defined.

(** ** The port loop and the service loop of [fwdServices] *)

(** X6. The pod port handed to a forwarding session reads back as a number
    in every case but one.  For a numeric target port it is the text of that
    number; for a target that is a name some container of the pod declares
    it is the text of the container port of the first such declaration; and
    [strconv.Atoi] reads these numbers back from it.  For a target that is a
    non-numeric name no container declares the name itself is passed on,
    and that is the one case in which the pod port is not a number. *)
Theorem podPort_is_numeric_or_undeclared (port : v1.ServicePort)
  (containers : list v1.Container) :
  match v1.sp_TargetPort port with
  | v1.IntVal i => int32 i
  | v1.StrVal _ => True
  end ->
  Forall (fun cp => int32 (v1.cp_ContainerPort cp)) (declared_ports containers) ->
  match v1.sp_TargetPort port with
  | v1.IntVal i =>
      services.podPort_of port containers = strconv.Itoa i /\
      strconv.Atoi (services.podPort_of port containers) = Some i
  | v1.StrVal name =>
      match strconv.Atoi name with
      | Some n =>
          services.podPort_of port containers = name /\
          strconv.Atoi (services.podPort_of port containers) = Some n
      | None =>
          match find (named name) (declared_ports containers) with
          | Some cp =>
              services.podPort_of port containers
                = strconv.Itoa (v1.cp_ContainerPort cp) /\
              strconv.Atoi (services.podPort_of port containers)
                = Some (v1.cp_ContainerPort cp)
          | None =>
              services.podPort_of port containers = name /\
              strconv.Atoi (services.podPort_of port containers) = None
          end
      end
  end /\
  (strconv.Atoi (services.podPort_of port containers) = None <->
   exists name,
     v1.sp_TargetPort port = v1.StrVal name /\
     strconv.Atoi name = None /\
     Forall (fun cp => v1.cp_Name cp <> name) (declared_ports containers)).
Proof.
  assert (Hint : forall i, int32 i -> (- 2 ^ 63 <= i < 2 ^ 63)%Z).
  { unfold int32. intros i. change (2 ^ 31)%Z with 2147483648%Z.
    change (2 ^ 63)%Z with 9223372036854775808%Z. lia. }
  assert (Hfind : forall name,
            find (named name) (declared_ports containers) = None <->
            Forall (fun cp => v1.cp_Name cp <> name) (declared_ports containers)).
  { intros name. split.
    - intros Hnone. apply Forall_forall. intros cp Hin%list_elem_of_In.
      pose proof (find_none _ _ Hnone cp Hin) as Hnot. unfold named in Hnot.
      by apply String.eqb_neq in Hnot.
    - intros Hall. destruct (find _ _) as [cp|] eqn:Hsome; [|done].
      apply find_some in Hsome as [Hin%list_elem_of_In Hname].
      apply (proj1 (Forall_forall _ _) Hall) in Hin. unfold named in Hname.
      by apply String.eqb_eq in Hname. }
  intros Htarget Hports. unfold services.podPort_of.
  destruct (v1.sp_TargetPort port) as [i|name] eqn:Ht; cbn [v1.IntOrString_String].
  { rewrite (Atoi_Itoa i (Hint i Htarget)).
    split; [by rewrite (Atoi_Itoa i (Hint i Htarget))|].
    rewrite (Atoi_Itoa i (Hint i Htarget)). split; [done|].
    by intros (name & [=] & _). }
  destruct (strconv.Atoi name) as [n|] eqn:Hname.
  { rewrite Hname. split; [done|]. split; [done|].
    intros (name' & [= <-] & Hnone & _). congruence. }
  rewrite portSearch_find.
  destruct (find (named name) (declared_ports containers)) as [cp|] eqn:Hcp.
  - assert (Hread : strconv.Atoi (strconv.Itoa (v1.cp_ContainerPort cp))
                    = Some (v1.cp_ContainerPort cp)).
    { apply Atoi_Itoa, Hint. apply find_some in Hcp as [Hin _].
      apply list_elem_of_In in Hin.
      by apply (proj1 (Forall_forall _ _) Hports). }
    rewrite Hread. split; [done|]. split; [done|].
    intros (name' & [= <-] & _ & Hall). apply Hfind in Hall. congruence.
  - rewrite Hname. split; [done|]. split; [|done].
    intros _. exists name. split_and!; [done|done|]. by apply Hfind.
Qed.

Lemma podPort_is_numeric_or_undeclared_witness :
  (services.podPort_of (v1.mkServicePort 80 (v1.StrVal "http"))
     [v1.mkContainer [v1.mkContainerPort "web" 8000;
                      v1.mkContainerPort "http" 8080]] = "8080" /\
   strconv.Atoi
     (services.podPort_of (v1.mkServicePort 80 (v1.StrVal "http"))
        [v1.mkContainer [v1.mkContainerPort "web" 8000;
                         v1.mkContainerPort "http" 8080]]) = Some 8080%Z) /\
  (services.podPort_of (v1.mkServicePort 80 (v1.StrVal "metrics"))
     [v1.mkContainer [v1.mkContainerPort "http" 8080]] = "metrics" /\
   strconv.Atoi
     (services.podPort_of (v1.mkServicePort 80 (v1.StrVal "metrics"))
        [v1.mkContainer [v1.mkContainerPort "http" 8080]]) = None).
Proof.
  split.
  - refine (proj1 (podPort_is_numeric_or_undeclared
              (v1.mkServicePort 80 (v1.StrVal "http"))
              [v1.mkContainer [v1.mkContainerPort "web" 8000;
                               v1.mkContainerPort "http" 8080]] I _)).
    cbn. repeat constructor; vm_compute; by intros [=].
  - refine (proj1 (podPort_is_numeric_or_undeclared
              (v1.mkServicePort 80 (v1.StrVal "metrics"))
              [v1.mkContainer [v1.mkContainerPort "http" 8080]] I _)).
    cbn. repeat constructor; vm_compute; by intros [=].
Defined.

Section ServiceLoop.
Context {W : Type} `{!Collaborators W}.
Variable prober : Prober.
Variable flags : services.Flags.

Lemma forward_ports_sessions opts svc pod0 ip ports :
  forall (st : State W) r st' evs,
  services.forward_ports flags opts svc pod0 ip ports st = (r, st', evs) ->
  exists n,
    n <= length ports /\
    spawned evs = port_session flags opts svc pod0 ip <$> take n ports /\
    (n < length ports -> exists err, last evs = Some (pod_get_warning err)) /\
    (n = length ports -> forall err, pod_get_warning err ∉ evs).
Proof.
  induction ports as [|port ports IH]; intros st r st' evs.
  { intros [= <- <- <-]. exists 0. split_and!; [done|done|cbn; lia|].
    by intros _ err ?%elem_of_nil. }
  cbn [services.forward_ports]. cbv zeta.
  unfold mbind, M_bind, call, log_Printf, emit, mret, M_ret.
  destruct (Pods_Get _ _ _ (world st)) as [[err|pod] w1].
  { intros [= <- <- <-]. exists 0. split_and!; [cbn; lia|done| |cbn; lia].
    intros _. by exists err. }
  destruct (services.verbose flags); cbn.
  all: destruct (services.forward_ports _ _ _ _ _ ports _)
         as [[r2 st2] e2] eqn:Hrec.
  all: destruct (IH _ _ _ _ Hrec) as (n & Hn & Hsess & Hcut & Hall).
  all: intros [= <- <- <-]; unfold spawned in *; cbn.
  all: exists (S n); split_and!; [lia|by rewrite Hsess| |].
  all: try (intros Hlt; destruct Hcut as [err Hlast]; [lia|]; exists err;
            destruct e2; [done|]; exact Hlast).
  all: intros [= Hlen] err Hin;
    repeat (apply elem_of_cons in Hin as [Heq|Hin]; [by inversion Heq|]);
    by apply (Hall Hlen err).
Qed.

(** The port loop asks [Pods.Get] once before each session and stops when
    it fails. *)
Lemma forward_ports_gets opts svc pod0 ip ports :
  forall (st : State W) r st' evs,
  services.forward_ports flags opts svc pod0 ip ports st = (r, st', evs) ->
  exists n wn,
    got (services.ClientSet opts) (v1.pod_Namespace pod0) (v1.pod_Name pod0)
        (world st) n wn /\
    spawned evs = port_session flags opts svc pod0 ip <$> take n ports /\
    ((n = length ports /\ world st' = wn /\
      forall err, pod_get_warning err ∉ evs) \/
     (n < length ports /\
      exists err w',
        Pods_Get (services.ClientSet opts) (v1.pod_Namespace pod0)
          (v1.pod_Name pod0) wn = (inl err, w') /\
        world st' = w' /\ last evs = Some (pod_get_warning err))).
Proof.
  induction ports as [|port ports IH]; intros st r st' evs.
  { intros [= <- <- <-]. exists 0, (world st).
    split_and!; [constructor|done|]. left. split_and!; [done|done|].
    by intros err ?%elem_of_nil. }
  cbn [services.forward_ports]. cbv zeta.
  unfold mbind, M_bind, call, log_Printf, emit, mret, M_ret.
  destruct (Pods_Get _ _ _ (world st)) as [[err|pod] w1] eqn:Hget.
  { intros [= <- <- <-]. exists 0, (world st).
    split_and!; [constructor|done|]. right. split; [cbn; lia|].
    by exists err, w1. }
  destruct (services.verbose flags); cbn.
  all: destruct (services.forward_ports _ _ _ _ _ ports _)
         as [[r2 st2] e2] eqn:Hrec.
  all: destruct (IH _ _ _ _ Hrec) as (n & wn & Hgot & Hsess & Hend).
  all: intros [= <- <- <-]; unfold spawned in *; cbn.
  all: exists (S n), wn; split_and!;
         [by econstructor|by rewrite Hsess|].
  all: destruct Hend as [(-> & Hw & Hnone)|(Hlt & err & w' & Hfail & Hw & Hlast)];
    [left; split_and!; [done|done|]
    |right; split; [lia|]; exists err, w'; split_and!; [done|done|];
     destruct e2; [done|]; exact Hlast].
  all: intros err Hin;
    repeat (apply elem_of_cons in Hin as [Heq|Hin]; [by inversion Heq|]);
    by apply (Hnone err).
Qed.

(** X7. The port loop of [fwdServices] asks [Pods.Get] for the pod before
    each session and starts the sessions of a service in the order of its
    ports, each with the local port and the pod port of its service port and
    all on the one address of the service.  It goes on for as long as
    [Pods.Get] answers: either it answered for every port, and every port
    has its session and no warning is logged; or it answered for the first
    n ports and then failed, and then exactly these n ports have a session,
    the ports after them have none, and the warning with the error of
    [Pods.Get] is the last thing the loop does.  In particular, when
    [Pods.Get] never fails every port gets its session.  The loop never
    fails and leaves the table of addresses as it is. *)
Theorem forward_ports_in_port_order opts svc pod0 ip ports (st : State W) :
  (services.forward_ports flags opts svc pod0 ip ports st).1.1 = Val tt /\
  allocated (services.forward_ports flags opts svc pod0 ip ports st).1.2
    = allocated st /\
  (exists n wn,
     got (services.ClientSet opts) (v1.pod_Namespace pod0) (v1.pod_Name pod0)
         (world st) n wn /\
     spawned (services.forward_ports flags opts svc pod0 ip ports st).2
       = port_session flags opts svc pod0 ip <$> take n ports /\
     ((n = length ports /\
       world (services.forward_ports flags opts svc pod0 ip ports st).1.2 = wn /\
       forall err,
         pod_get_warning err
           ∉ (services.forward_ports flags opts svc pod0 ip ports st).2) \/
      (n < length ports /\
       exists err w',
         Pods_Get (services.ClientSet opts) (v1.pod_Namespace pod0)
           (v1.pod_Name pod0) wn = (inl err, w') /\
         world (services.forward_ports flags opts svc pod0 ip ports st).1.2
           = w' /\
         last (services.forward_ports flags opts svc pod0 ip ports st).2
           = Some (pod_get_warning err)))) /\
  ((forall w, exists pod w',
      Pods_Get (services.ClientSet opts) (v1.pod_Namespace pod0)
        (v1.pod_Name pod0) w = (inr pod, w')) ->
   spawned (services.forward_ports flags opts svc pod0 ip ports st).2
     = port_session flags opts svc pod0 ip <$> ports).
Proof.
  destruct (services.forward_ports flags opts svc pod0 ip ports st)
    as [[r st'] evs] eqn:Hrun.
  destruct (forward_ports_spec _ _ _ _ _ _ _ _ _ _ Hrun) as (Htable & _ & _ & _ & ->).
  destruct (forward_ports_gets _ _ _ _ _ _ _ _ _ Hrun)
    as (n & wn & Hgot & Hsess & Hend).
  cbn [fst snd]. split_and!; [done|done|by exists n, wn|].
  intros Hnever. rewrite Hsess.
  destruct Hend as [(-> & _)|(_ & err & w' & Hfail & _)];
    [by rewrite firstn_all|].
  destruct (Hnever wn) as (pod & w'' & Hok). congruence.
Qed.

(** X8. [fwdServices] spends nothing on a service without pods.  If its turn
    for a service sends a probe, runs a command, starts a session or changes
    the table of addresses, then the selector map of the service is not
    empty and [Pods.List], asked in the namespace of the service for the
    selector joined with commas, answered with at least one pod. *)
Theorem forward_service_spends_on_pods_only opts svc (st : State W) :
  Exists spends (services.forward_service prober flags opts svc st).2 \/
  allocated (services.forward_service prober flags opts svc st).1.2
    <> allocated st ->
  v1.svc_Selector svc <> [] /\
  exists pod0 pods w,
    Pods_List (services.ClientSet opts) (v1.svc_Namespace svc)
      (mkListOptions (String.concat "," (pair_text <$> v1.svc_Selector svc)))
      (world st) = (inr (pod0 :: pods), w).
Proof.
  assert (Hlog : forall msg, ~ Exists spends [EvLog msg]).
  { intros msg [Hx|Hx%Exists_nil]%Exists_cons; done. }
  destruct (services.forward_service prober flags opts svc st)
    as [[r st'] evs] eqn:Hrun.
  cbn [fst snd]. revert Hrun.
  unfold services.forward_service. cbv zeta.
  destruct (String.eqb _ "") eqn:Hsel.
  { intros [= <- <- <-] [Hsp|Hta]; [by apply Hlog in Hsp|by destruct Hta]. }
  apply String.eqb_neq in Hsel. rewrite mapToSelectorStr_concat in *.
  unfold mbind at 1, M_bind at 1, call at 1.
  destruct (Pods_List _ _ _ (world st)) as [[err|[|pod0 pods]] w1] eqn:Hlist.
  1,2: intros [= <- <- <-] [Hsp|Hta]; [by apply Hlog in Hsp|by destruct Hta].
  intros _ _. split; [|by exists pod0, pods, w1].
  intros Hnil. apply Hsel. by rewrite Hnil.
Qed.

End ServiceLoop.

Lemma forward_service_spends_on_pods_only_witness :
  let C := fixture_collaborators (fixture [] [web_service] [web_pod]) in
  v1.svc_Selector web_service <> [] /\
  exists pod0 pods w,
    Pods_List (services.ClientSet web_opts) (v1.svc_Namespace web_service)
      (mkListOptions
         (String.concat "," (pair_text <$> v1.svc_Selector web_service)))
      (world fresh) = (inr (pod0 :: pods), w).
Proof.
  intros C.
  apply (forward_service_spends_on_pods_only (W := unit) IcmpLibrary
           default_flags web_opts web_service fresh).
  left. vm_compute. apply Exists_cons_hd. exact I.
Defined.


Lemma forward_ports_in_port_order_witness :
  let C := troubled_collaborators in
  spawned (services.forward_ports default_flags web_opts web_service web_pod
             (net.mkIP 127 1 27 1) (v1.svc_Ports web_service)
             (mkState ∅ 0)).2
    = [web_session "8080" "80"] /\
  last (services.forward_ports default_flags web_opts web_service web_pod
          (net.mkIP 127 1 27 1) (v1.svc_Ports web_service) (mkState ∅ 0)).2
    = Some (pod_get_warning "pods web-0 not found").
Proof.
  intros C.
  destruct (forward_ports_in_port_order (W := nat) default_flags web_opts
              web_service web_pod (net.mkIP 127 1 27 1)
              (v1.svc_Ports web_service) (mkState ∅ 0))
    as (_ & _ & (n & wn & Hgot & Hsess & Hend) & _).
  assert (Hn : n = 1 /\ wn = 1).
  { inversion Hgot as [|w pod w1 n1 w2 Hget Hmore]; subst.
    - destruct Hend as [([=] & _)|(_ & err & w' & Hfail & _)].
      by vm_compute in Hfail.
    - injection Hget as _ <-.
      inversion Hmore as [|w pod' w1 n2 w2' Hget' _]; subst; [done|].
      by vm_compute in Hget'. }
  destruct Hn as [-> ->]. split; [exact Hsess|].
  destruct Hend as [([=] & _)|(_ & err & w' & Hfail & _ & Hlast)].
  injection Hfail as <- _. exact Hlast.
Defined.

(** ** Properties of the stretches of [Cmd.Run] *)

Section Stretches.
Context {W : Type} `{!Collaborators W}.
Variable P : State W -> Res unit -> State W -> list Event -> Prop.
Hypothesis P_lawful : lawful P.

Lemma obeys_bind {A B} (m : M W A) (f : A -> M W B) :
  obeys P m -> (forall a, obeys P (f a)) -> obeys P (m ≫= f).
Proof.
  intros Hm Hf st r st' evs. unfold mbind, M_bind.
  destruct (m st) as [[r1 st1] e1] eqn:H1. specialize (Hm _ _ _ _ H1).
  destruct r1 as [a|code|err].
  - destruct (f a st1) as [[r2 st2] e2] eqn:H2. intros [= <- <- <-].
    eapply (law_seq _ P_lawful); [exact Hm|]. by apply (Hf a).
  - by intros [= <- <- <-].
  - by intros [= <- <- <-].
Qed.

Lemma obeys_ret {A} (a : A) : obeys P (mret a).
Proof. intros st r st' evs [= <- <- <-]. by apply (law_quiet _ P_lawful). Qed.

Lemma obeys_call {A} (f : W -> A * W) : obeys P (call f).
Proof.
  intros st r st' evs. unfold call. destruct (f (world st)) as [a w].
  intros [= <- <- <-]. by apply (law_quiet _ P_lawful).
Qed.

Variable prober : Prober.
Variable flags : services.Flags.

Hypothesis P_log : forall msg, obeys P (log_Printf msg).
Hypothesis P_print : forall msg, obeys P (emit (EvPrint msg)).
Hypothesis P_fatal : forall (A : Type) msg,
  fatal msg -> obeys P (log_Fatalf (A := A) msg).
Hypothesis P_wait : forall hostFile, obeys P (services.wait_and_save hostFile).

Section Loops.
Variable hostFile : Hosts.
Variable ctxs : list string.
Hypothesis P_service : forall opts svc,
  run_opts flags hostFile ctxs opts ->
  obeys P (services.forward_service prober flags opts svc).

Lemma obeys_forward_services opts items :
  run_opts flags hostFile ctxs opts ->
  obeys P (services.forward_services prober flags opts items).
Proof.
  intros Hopts. induction items as [|svc items IH]; [apply obeys_ret|].
  cbn [services.forward_services].
  apply obeys_bind; [by apply P_service|]. intros _. exact IH.
Qed.

Lemma obeys_fwdServices opts :
  run_opts flags hostFile ctxs opts ->
  obeys P (services.fwdServices prober flags opts).
Proof.
  intros Hopts. unfold services.fwdServices.
  apply obeys_bind; [apply obeys_call|].
  intros [err|items]; [apply obeys_ret|].
  apply obeys_bind; [by apply obeys_forward_services|]. intros _.
  apply obeys_ret.
Qed.

Lemma obeys_namespaces_loop restConfig clientSet listOptions i ctx nss :
  ctxs !! i = Some ctx ->
  forall ii,
  obeys P (services.namespaces_loop prober flags hostFile restConfig clientSet
             listOptions i ctx ii nss).
Proof.
  intros Hctx. induction nss as [|namespace nss IH]; intros ii;
    [apply obeys_ret|].
  cbn [services.namespaces_loop].
  apply obeys_bind.
  { apply obeys_fwdServices. unfold run_opts; cbn.
    split_and!; [done..|]. by exists i, ii. }
  intros err. apply obeys_bind; [|intros _; apply IH].
  destruct err; [apply P_log|apply obeys_ret].
Qed.

Lemma obeys_contexts_loop cfgFilePath listOptions nss rest :
  forall i,
  (forall k ctx, rest !! k = Some ctx -> ctxs !! (i + k) = Some ctx) ->
  obeys P (services.contexts_loop prober flags hostFile cfgFilePath listOptions
             nss i rest).
Proof.
  induction rest as [|ctx rest IH]; intros i Hrest; [apply obeys_ret|].
  cbn [services.contexts_loop].
  apply obeys_bind; [apply obeys_call|]. intros [err|restConfig];
    [apply P_fatal; constructor|].
  apply obeys_bind; [apply obeys_call|]. intros [err|clientSet];
    [apply P_fatal; constructor|].
  apply obeys_bind.
  { apply obeys_namespaces_loop. specialize (Hrest 0 ctx eq_refl).
    by rewrite Nat.add_0_r in Hrest. }
  intros _. apply IH. intros k c Hk. specialize (Hrest (S k) c Hk).
  by rewrite Nat.add_succ_r in Hrest.
Qed.

End Loops.

Hypothesis P_service : forall hostFile current opts svc,
  run_opts flags hostFile (run_contexts flags current) opts ->
  obeys P (services.forward_service prober flags opts svc).

Lemma obeys_Run : obeys P (services.Run prober flags).
Proof.
  unfold services.Run.
  apply obeys_bind; [apply obeys_call|]. intros [hasRoot err].
  destruct hasRoot; cbn [negb].
  2:{ apply obeys_bind; [apply P_print|]. intros _.
      destruct err; [apply P_fatal; constructor|apply obeys_ret]. }
  apply obeys_bind; [apply P_log|]. intros _.
  apply obeys_bind; [apply P_log|]. intros _.
  apply obeys_bind; [apply obeys_call|]. intros [e|hostFile].
  { apply P_fatal; constructor. }
  apply obeys_bind; [apply P_log|]. intros _.
  apply obeys_bind; [apply obeys_call|]. intros [e|msg].
  { apply P_fatal; constructor. }
  apply obeys_bind; [apply P_log|]. intros _. cbv zeta.
  destruct (String.eqb _ ""); [apply P_fatal; constructor|].
  apply obeys_bind; [apply obeys_call|]. intros [e|clientConfig].
  { apply P_fatal; constructor. }
  apply obeys_bind.
  { destruct (_ <? 1)%nat; [|apply obeys_ret].
    destruct (services.context_namespace _ _); [|apply obeys_ret].
    apply obeys_bind; [apply P_log|]. intros _. apply obeys_ret. }
  intros nss.
  apply obeys_bind; [|intros _; apply P_wait].
  apply (obeys_contexts_loop hostFile
           (run_contexts flags (CurrentContext clientConfig))).
  - intros opts svc. apply P_service.
  - by intros k ctx Hk.
Qed.

(** The runs of one turn of the loop over [services.Items]. *)
Lemma forward_service_cases opts svc (st : State W) r st' evs :
  services.forward_service prober flags opts svc st = (r, st', evs) ->
  (exists msg, evs = [EvLog msg] /\ r = Val tt /\ allocated st' = allocated st) \/
  exists st1 got st2 probes,
    allocated st1 = allocated st /\
    fwdnet_Allocate prober (services.NetworkRange opts) st1
      = (got, st2, probes) /\
    match got with
    | Val (inl err) =>
        evs = probes ++ [EvLog ("WARNING: Error getting IP address: " +:+ err
                                +:+ services.nl)] /\
        r = Val tt /\ st' = st2
    | Val (inr ip) =>
        exists failed st3,
          allocated st3 = allocated st2 /\
          match failed with
          | Some err =>
              evs = probes ++
                [EvRun "ip" (alias_args ip (services.NetworkInterface opts))
                   (Some err);
                 EvPrint ("Cannot ifconfig " +:+ services.NetworkInterface opts
                          +:+ " alias " +:+ net.IP_String ip +:+ " up: "
                          +:+ err +:+ services.nl)] /\
              r = Exit 1 /\ st' = st3
          | None =>
              exists pod0 msg tail,
                services.forward_ports flags opts svc pod0 ip (v1.svc_Ports svc)
                  st3 = (r, st', tail) /\
                evs = probes ++
                  EvRun "ip" (alias_args ip (services.NetworkInterface opts)) None
                  :: EvLog msg :: tail
          end
    | Exit code => False
    | Panic err => r = Panic err /\ evs = probes /\ st' = st2
    end.
Proof.
  unfold services.forward_service. cbv zeta.
  destruct (String.eqb _ "").
  { intros [= <- <- <-]. left. by eexists. }
  unfold mbind at 1, M_bind at 1, call at 1.
  destruct (Pods_List _ _ _ (world st)) as [[err|[|pod0 pods]] w1].
  1,2: intros [= <- <- <-]; left; by eexists.
  set (st1 := mkState (allocated st) w1).
  unfold mbind at 1, M_bind at 1.
  destruct (fwdnet_Allocate prober _ st1) as [[got st2] probes] eqn:Halloc.
  intros Hrun. right. exists st1, got, st2, probes. split_and!; [done|done|].
  destruct (Allocate_facts _ _ _ _ _ _ Halloc) as (_ & _ & Hexit & _).
  destruct got as [[err|ip]|code|err]; [| |by destruct (Hexit code)|].
  - revert Hrun. unfold log_Printf, emit. by intros [= <- <- <-].
  - revert Hrun. unfold mbind, M_bind, call, emit, log_Printf, os_Exit.
    destruct (exec_Run _ _ (world st2)) as [[err|] w3]; cbn.
    + intros [= <- <- <-]. exists (Some err), (mkState (allocated st2) w3).
      by split_and!.
    + destruct (services.forward_ports _ _ _ _ _ _ _)
        as [[r4 st4] e4] eqn:Hports.
      intros [= <- <- <-]. exists None, (mkState (allocated st2) w3).
      split; [done|]. by eexists pod0, _, e4.
  - revert Hrun. by intros [= <- <- <-].
Qed.

End Stretches.

(** ** The sessions of a run *)

Section RunSessions.
Context {W : Type} `{!Collaborators W}.
Variable prober : Prober.
Variable flags : services.Flags.
Variable Q : PortForwardOpts -> Prop.

Lemma lawful_sessions :
  lawful (W := W) (fun _ _ _ evs => forall pfo, pfo ∈ spawned evs -> Q pfo).
Proof.
  split.
  - by intros st st' _ pfo ?%elem_of_nil.
  - intros st st1 st2 r e1 e2 H1 H2 pfo.
    rewrite spawned_app, elem_of_app. intros [?|?]; auto.
Qed.

Lemma sessions_log msg :
  obeys (W := W) (fun _ _ _ evs => forall pfo, pfo ∈ spawned evs -> Q pfo)
    (log_Printf msg).
Proof. intros s r0 s' es [= <- <- <-] pfo Hin. by apply elem_of_nil in Hin. Qed.

Lemma sessions_print msg :
  obeys (W := W) (fun _ _ _ evs => forall pfo, pfo ∈ spawned evs -> Q pfo)
    (emit (EvPrint msg)).
Proof. intros s r0 s' es [= <- <- <-] pfo Hin. by apply elem_of_nil in Hin. Qed.

Lemma sessions_fatal (A : Type) msg :
  obeys (W := W) (fun _ _ _ evs => forall pfo, pfo ∈ spawned evs -> Q pfo)
    (log_Fatalf (A := A) msg).
Proof. intros s r0 s' es [= <- <- <-] pfo Hin. by apply elem_of_nil in Hin. Qed.

Lemma sessions_wait hostFile :
  obeys (W := W) (fun _ _ _ evs => forall pfo, pfo ∈ spawned evs -> Q pfo)
    (services.wait_and_save hostFile).
Proof.
  intros s r0 s' es Hsave pfo Hin.
  revert Hsave. unfold services.wait_and_save.
  unfold mbind, M_bind, emit, log_Printf, log_Fatalf, call, os_Exit, mret, M_ret.
  cbn. destruct (Hosts_Save hostFile (world s)) as [[err|] w]; cbn;
    intros [= <- <- <-]; by apply elem_of_nil in Hin.
Qed.

Section OneLoop.
Variable hostFile : Hosts.
Variable ctxs : list string.

Hypothesis Q_port :
  forall opts svc pod0 ip port ipr,
    run_opts flags hostFile ctxs opts ->
    iprange.ParseIPRange (services.NetworkRange opts) = inr ipr ->
    ip ∈ iprange.addresses ipr ->
    Q (port_session flags opts svc pod0 ip port).

Lemma service_sessions opts svc :
  run_opts flags hostFile ctxs opts ->
  obeys (fun _ _ _ evs => forall pfo, pfo ∈ spawned evs -> Q pfo)
    (services.forward_service prober flags opts svc).
Proof.
  intros Hopts s r0 s' es Hsvc pfo Hin.
  apply forward_service_cases in Hsvc
    as [(msg & -> & _)|(st1 & got & st2 & probes & _ & Halloc & Hgot)];
    [by apply elem_of_nil in Hin|].
  destruct (Allocate_facts _ _ _ _ _ _ Halloc) as (_ & _ & _ & Hprobes).
  pose proof (spawned_probes _ Hprobes) as Hnone.
  destruct got as [[err|ip]|code|err]; [| |done|].
  - destruct Hgot as (-> & _). rewrite spawned_app, Hnone in Hin.
    by apply elem_of_nil in Hin.
  - destruct Hgot as ([err|] & st3 & _ & Hrest).
    + destruct Hrest as (-> & _). rewrite spawned_app, Hnone in Hin.
      by apply elem_of_nil in Hin.
    + destruct Hrest as (pod0 & msg & tail & Hports & ->).
      rewrite spawned_app, Hnone in Hin. cbn in Hin.
      destruct (forward_ports_sessions _ _ _ _ _ _ _ _ _ _ Hports)
        as (n & _ & Hsess & _).
      change (pfo ∈ spawned tail) in Hin. rewrite Hsess in Hin.
      apply list_elem_of_fmap in Hin as (port & -> & _).
      destruct (Allocate_returns_in_range _ _ _ _ _ _ Halloc)
        as (ipr & Hparse & Hip).
      by eapply Q_port.
  - destruct Hgot as (_ & -> & _). rewrite Hnone in Hin.
    by apply elem_of_nil in Hin.
Qed.

Lemma loop_sessions cfgFilePath listOptions nss (st : State W) pfo :
  pfo ∈ spawned
          ((services.contexts_loop prober flags hostFile cfgFilePath listOptions
              nss 0 ctxs ≫= fun _ => services.wait_and_save hostFile) st).2 ->
  Q pfo.
Proof.
  destruct ((services.contexts_loop prober flags hostFile cfgFilePath listOptions
               nss 0 ctxs ≫= fun _ => services.wait_and_save hostFile) st)
    as [[r st'] evs] eqn:Hrun.
  revert pfo. cbn [snd].
  refine (obeys_bind _ lawful_sessions _ _ _ _ _ _ _ _ Hrun).
  - apply (obeys_contexts_loop _ lawful_sessions prober flags sessions_log
             (fun A msg _ => sessions_fatal A msg) hostFile ctxs
             service_sessions).
    by intros k ctx Hk.
  - intros _. apply sessions_wait.
Qed.

End OneLoop.

Hypothesis Q_port :
  forall hostFile current opts svc pod0 ip port ipr,
    run_opts flags hostFile (run_contexts flags current) opts ->
    iprange.ParseIPRange (services.NetworkRange opts) = inr ipr ->
    ip ∈ iprange.addresses ipr ->
    Q (port_session flags opts svc pod0 ip port).

Lemma Run_sessions (st : State W) pfo :
  pfo ∈ spawned (services.Run prober flags st).2 -> Q pfo.
Proof.
  destruct (services.Run prober flags st) as [[r st'] evs] eqn:Hrun.
  revert pfo. cbn [snd].
  refine (obeys_Run _ lawful_sessions prober flags sessions_log sessions_print
            (fun A msg _ => sessions_fatal A msg) sessions_wait _ _ _ _ _ Hrun).
  intros hostFile current opts svc. apply service_sessions.
  intros. by eapply Q_port.
Qed.

End RunSessions.

Section RunSessionsFacts.
Context {W : Type} `{!Collaborators W}.

(** X9. Every session a run of [Cmd.Run] starts carries the flags of the
    run: the publisher "Services" without output, the interface of the flag
    [iface], the flag [exitOnFail]; and its address is one of the addresses
    of the range of the flag [networkRange], which therefore parses.  A run
    with a range that does not parse starts no session. *)
Theorem sessions_carry_the_flags prober flags (st : State W) pfo :
  pfo ∈ spawned (services.Run prober flags st).2 ->
  pfo_Out pfo = mkPublisher "Services" false /\
  pfo_NetworkInterface pfo = services.iface flags /\
  pfo_ExitOnFail pfo = services.exitOnFail flags /\
  exists ipr,
    iprange.ParseIPRange (services.networkRange flags) = inr ipr /\
    pfo_LocalIP pfo ∈ iprange.addresses ipr.
Proof.
  apply (Run_sessions prober flags (fun pfo =>
    pfo_Out pfo = mkPublisher "Services" false /\
    pfo_NetworkInterface pfo = services.iface flags /\
    pfo_ExitOnFail pfo = services.exitOnFail flags /\
    exists ipr,
      iprange.ParseIPRange (services.networkRange flags) = inr ipr /\
      pfo_LocalIP pfo ∈ iprange.addresses ipr)).
  intros hostFile current opts svc pod0 ip port ipr
    (_ & Hif & Hrange & _) Hparse Hip. cbn.
  split_and!; [done|done|done|]. exists ipr. by rewrite <- Hrange.
Qed.

(** X10. A session of a run is remote exactly when its context is not the
    first of the contexts the run goes through (those of the flag,
    followed by a current context when the flag names none); only
    sessions of the first context have the short host name, so no session
    is both remote and short-named. *)
Theorem sessions_remote_by_context prober flags (st : State W) pfo :
  pfo ∈ spawned (services.Run prober flags st).2 ->
  exists current (i : nat),
    run_contexts flags current !! i = Some (pfo_Context pfo) /\
    pfo_Remote pfo = (0 <? i)%nat /\
    (pfo_ShortName pfo = true -> i = 0).
Proof.
  apply (Run_sessions prober flags (fun pfo =>
    exists current (i : nat),
      run_contexts flags current !! i = Some (pfo_Context pfo) /\
      pfo_Remote pfo = (0 <? i)%nat /\
      (pfo_ShortName pfo = true -> i = 0))).
  intros hostFile current opts svc pod0 ip port ipr
    (_ & _ & _ & _ & i & ii & Hctx & Hshort & Hremote) _ _. cbn.
  exists current, i. split_and!; [done|done|].
  rewrite Hshort. intros [Hi _]%andb_true_iff.
  apply Nat.ltb_lt in Hi. lia.
Qed.

End RunSessionsFacts.

Lemma web_session_spawned :
  let C := fixture_collaborators (fixture [] [web_service] [web_pod]) in
  web_session "8080" "80"
    ∈ spawned (services.Run IcmpLibrary default_flags fresh).2.
Proof.
  intros C.
  assert (Hrun : spawned (services.Run IcmpLibrary default_flags fresh).2
                 = [web_session "8080" "80"; web_session "9090" "9090"])
    by (vm_compute; reflexivity).
  rewrite Hrun. by left.
Defined.

Lemma sessions_carry_the_flags_witness :
  let C := fixture_collaborators (fixture [] [web_service] [web_pod]) in
  pfo_Out (web_session "8080" "80") = mkPublisher "Services" false /\
  pfo_NetworkInterface (web_session "8080" "80") = "lo" /\
  pfo_ExitOnFail (web_session "8080" "80") = false /\
  exists ipr,
    iprange.ParseIPRange "127.1.27.1-254" = inr ipr /\
    net.mkIP 127 1 27 1 ∈ iprange.addresses ipr.
Proof.
  intros C.
  exact (sessions_carry_the_flags (W := unit) IcmpLibrary default_flags fresh
           (web_session "8080" "80") web_session_spawned).
Defined.

Lemma sessions_remote_by_context_witness :
  let C := fixture_collaborators (fixture [] [web_service] [web_pod]) in
  exists current (i : nat),
    run_contexts default_flags current !! i = Some "minikube" /\
    false = (0 <? i)%nat /\ (true = true -> i = 0).
Proof.
  intros C.
  exact (sessions_remote_by_context (W := unit) IcmpLibrary default_flags fresh
           (web_session "8080" "80") web_session_spawned).
Defined.

(** ** The order and the causes of the events of a run *)

Section RunOrder.
Context {W : Type} `{!Collaborators W}.
Variable prober : Prober.
Variable flags : services.Flags.

Lemma forward_ports_events opts svc pod0 ip ports :
  forall (st : State W) r st' evs,
  services.forward_ports flags opts svc pod0 ip ports st = (r, st', evs) ->
  Forall log_or_go evs.
Proof.
  induction ports as [|port ports IH]; intros st r st' evs.
  { by intros [= <- <- <-]. }
  cbn [services.forward_ports]. cbv zeta.
  unfold mbind, M_bind, call, log_Printf, emit, mret, M_ret.
  destruct (Pods_Get _ _ _ (world st)) as [[err|pod] w1].
  { intros [= <- <- <-]. by repeat constructor. }
  destruct (services.verbose flags); cbn.
  all: destruct (services.forward_ports _ _ _ _ _ ports _)
         as [[r2 st2] e2] eqn:Hrec.
  all: pose proof (IH _ _ _ _ Hrec) as Htail.
  all: intros [= <- <- <-]; cbn.
  all: by repeat (constructor; [done|]).
Qed.

Lemma go_in_spawned (evs : list Event) pfo :
  EvGo pfo ∈ evs -> pfo ∈ spawned evs.
Proof.
  intros Hin. unfold spawned. apply list_elem_of_omap.
  by exists (EvGo pfo).
Qed.

Lemma lawful_aliased_first :
  lawful (W := W) (fun _ _ _ evs => aliased_first evs).
Proof.
  split.
  - by intros st st' _ i pfo Hi.
  - intros st st1 st2 r e1 e2 H1 H2 i pfo Hi.
    apply lookup_app_Some in Hi as [Hi|[Hlen Hi]].
    + destruct (H1 i pfo Hi) as (j & Hj & Hadded). exists j. split; [done|].
      by apply lookup_app_l_Some.
    + destruct (H2 _ pfo Hi) as (j & Hj & Hadded).
      exists (length e1 + j). split; [lia|].
      by rewrite lookup_app_r, Nat.add_sub' by lia.
Qed.

(** X11. No session is started on an address that is not on the interface:
    in the events of a run of [Cmd.Run], the start of every session comes
    after an [ip addr add] command for the address and the interface of that
    session, and that command succeeded. *)
Theorem sessions_start_after_their_alias (st : State W) (i : nat) pfo :
  (services.Run prober flags st).2 !! i = Some (EvGo pfo) ->
  exists j, j < i /\
    (services.Run prober flags st).2 !! j
      = Some (EvRun "ip" ["addr"; "add"; net.IP_String (pfo_LocalIP pfo); "dev";
                          pfo_NetworkInterface pfo] None).
Proof.
  revert i pfo. change (aliased_first (services.Run prober flags st).2).
  destruct (services.Run prober flags st) as [[r st'] evs] eqn:Hrun.
  cbn [snd].
  refine (obeys_Run _ lawful_aliased_first prober flags _ _ _ _ _ _ _ _ _ Hrun).
  - by intros msg s r0 s' es [= <- <- <-] [|[|i]] pfo Hi.
  - by intros msg s r0 s' es [= <- <- <-] [|[|i]] pfo Hi.
  - by intros A msg _ s r0 s' es [= <- <- <-] [|[|i]] pfo Hi.
  - intros hostFile s r0 s' es. unfold services.wait_and_save.
    unfold mbind, M_bind, emit, log_Printf, log_Fatalf, call, os_Exit, mret, M_ret.
    cbn. destruct (Hosts_Save hostFile (world s)) as [[err|] w]; cbn.
    + by intros [= <- <- <-] [|[|[|[|[|i]]]]] pfo Hi.
    + by intros [= <- <- <-] [|[|[|[|i]]]] pfo Hi.
  - intros hostFile current opts svc _ s r0 s' es Hsvc.
    apply forward_service_cases in Hsvc
      as [(msg & -> & _)|(st1 & got & st2 & probes & _ & Halloc & Hgot)].
    { by intros [|[|i]] pfo Hi. }
    destruct (Allocate_facts _ _ _ _ _ _ Halloc) as (_ & _ & _ & Hprobes).
    assert (Hnot : forall i pfo, probes !! i <> Some (EvGo pfo)).
    { intros i pfo Hi%list_elem_of_lookup_2.
      by apply (proj1 (Forall_forall _ _) Hprobes) in Hi. }
    destruct got as [[err|ip]|code|err]; [| |done|].
    + destruct Hgot as (-> & _). intros i pfo Hi.
      apply lookup_app_Some in Hi as [Hi|[_ Hi]]; [by apply Hnot in Hi|].
      by destruct (i - length probes) as [|[|k]].
    + destruct Hgot as ([err|] & st3 & _ & Hrest).
      * destruct Hrest as (-> & _). intros i pfo Hi.
        apply lookup_app_Some in Hi as [Hi|[_ Hi]]; [by apply Hnot in Hi|].
        by destruct (i - length probes) as [|[|[|k]]].
      * destruct Hrest as (pod0 & msg & tail & Hports & ->). intros i pfo Hi.
        apply lookup_app_Some in Hi as [Hi|[Hlen Hi]]; [by apply Hnot in Hi|].
        exists (length probes). split.
        -- destruct (i - length probes) as [|k] eqn:Hk; [done|lia].
        -- rewrite lookup_app_r, Nat.sub_diag by lia. cbn.
           destruct (i - length probes) as [|[|k]]; [done|done|]. cbn in Hi.
           apply list_elem_of_lookup_2, go_in_spawned in Hi.
           destruct (forward_ports_spec _ _ _ _ _ _ _ _ _ _ Hports)
             as (_ & _ & Hsess & _).
           destruct (Hsess _ Hi) as (_ & _ & _ & _ & _ & _ & _ & Hip & Hif & _).
           unfold alias_added. by rewrite Hip, Hif.
    + destruct Hgot as (_ & -> & _). intros i pfo Hi. by apply Hnot in Hi.
Qed.

Lemma lawful_exit_cause :
  lawful (W := W) (fun _ r _ evs => ends_with_a_cause prober r evs).
Proof.
  split; [done|].
  intros st st1 st2 r e1 e2 _. destruct r as [v|code|err]; [done| |done].
  intros [-> Hcause]. split; [done|].
  destruct Hcause as [(msg & pre & -> & Hmsg)|(pre & ip & iface & err & ->)].
  - left. exists msg, (e1 ++ pre). by rewrite app_assoc.
  - right. exists (e1 ++ pre), ip, iface, err. by rewrite app_assoc.
Qed.

Lemma Allocate_panic range (st : State W) err st' evs :
  fwdnet_Allocate prober range st = (Panic err, st', evs) ->
  prober = IcmpLibrary /\ exists addr w, (NewPinger addr w).1 = Some err.
Proof.
  destruct prober; cbn [fwdnet_Allocate]; intros Hrun.
  - split; [done|]. by eapply icmp_panic_is_NewPinger.
  - by destruct (exec_probe_decides _ _ _ _ _ Hrun) as [[v ?] _].
Qed.

(** X12. A run of [Cmd.Run] that does not return ends for one of these
    reasons and no other.  It exits with code 1 right after a fatal message
    (root check, hosts file, its backup, kubeconfig, REST configuration,
    client, saving the hosts file), or right after the command that adds an
    address alias failed and the notice of it was printed.  Or it panics,
    which only the allocator with the ICMP library does, with the error
    [NewPinger] returned. *)
Theorem Run_ends_with_a_cause (st : State W) :
  match (services.Run prober flags st).1.1 with
  | Val _ => True
  | Exit code => code = 1%Z /\ exit_cause (services.Run prober flags st).2
  | Panic err =>
      prober = IcmpLibrary /\ exists addr w, (NewPinger addr w).1 = Some err
  end.
Proof.
  destruct (services.Run prober flags st) as [[r st'] evs] eqn:Hrun.
  cbn [fst snd].
  assert (Hends : ends_with_a_cause prober (outcome r) evs).
  { refine (obeys_Run _ lawful_exit_cause prober flags _ _ _ _ _ _ _ _ _ Hrun).
    - by intros msg s r0 s' es [= <- <- <-].
    - by intros msg s r0 s' es [= <- <- <-].
    - intros A msg Hmsg s r0 s' es [= <- <- <-]. split; [done|].
      left. by exists msg, [].
    - intros hostFile s r0 s' es. unfold services.wait_and_save.
      unfold mbind, M_bind, emit, log_Printf, log_Fatalf, call, os_Exit, mret,
        M_ret.
      cbn. destruct (Hosts_Save hostFile (world s)) as [[err|] w]; cbn;
        intros [= <- <- <-]; [|done].
      split; [done|]. left. eexists _, [_; _; _]. split; [done|]. constructor.
    - intros hostFile current opts svc _ s r0 s' es Hsvc.
      apply forward_service_cases in Hsvc
        as [(msg & -> & -> & _)|(st1 & got & st2 & probes & _ & Halloc & Hgot)];
        [done|].
      destruct got as [[err|ip]|code|err]; [| |done|].
      + by destruct Hgot as (_ & -> & _).
      + destruct Hgot as ([err|] & st3 & _ & Hrest).
        * destruct Hrest as (-> & -> & _). split; [done|]. right.
          by exists probes, ip, (services.NetworkInterface opts), err.
        * destruct Hrest as (pod0 & msg & tail & Hports & _).
          by destruct (forward_ports_spec _ _ _ _ _ _ _ _ _ _ Hports)
            as (_ & _ & _ & _ & ->).
      + destruct Hgot as (-> & _). by eapply Allocate_panic. }
  by destruct r.
Qed.

End RunOrder.

Lemma sessions_start_after_their_alias_witness :
  let C := fixture_collaborators (fixture [] [web_service] [web_pod]) in
  exists j, j < 8 /\
    (services.Run IcmpLibrary default_flags fresh).2 !! j
      = Some (EvRun "ip" ["addr"; "add"; "127.1.27.1"; "dev"; "lo"] None).
Proof.
  intros C.
  refine (sessions_start_after_their_alias (W := unit) IcmpLibrary default_flags
            fresh 8 (web_session "8080" "80") _).
  vm_compute. reflexivity.
Defined.

(** ** The addresses a run spends *)

Section RunAddresses.
Context {W : Type} `{!Collaborators W}.
Variable prober : Prober.
Variable flags : services.Flags.

Lemma lawful_uses (key : Event -> option string) :
  lawful (W := W) (fun st _ st' evs => uses key st st' evs).
Proof.
  split.
  - intros st st' Htable. unfold uses. rewrite Htable. cbn.
    split_and!; [done|constructor|]. by intros k ?%elem_of_nil.
  - intros st st1 st2 r e1 e2 (Hmono1 & Hnd1 & Hfresh1) (Hmono2 & Hnd2 & Hfresh2).
    unfold uses. rewrite omap_app. split_and!; [auto| |].
    + apply NoDup_app. split_and!; [done| |done].
      intros k Hin1 Hin2. destruct (Hfresh1 _ Hin1) as [_ Hclaimed].
      destruct (Hfresh2 _ Hin2) as [Hfree _]. rewrite Hfree in Hclaimed.
      by destruct Hclaimed.
    + intros k [Hin|Hin]%elem_of_app.
      * destruct (Hfresh1 _ Hin). auto.
      * destruct (Hfresh2 _ Hin) as [Hfree Hclaimed]. split; [|done].
        destruct (allocated st !! k) eqn:Hst; [|done].
        destruct (Hmono1 k) as [? Hx]; [eauto|congruence].
Qed.

Lemma lawful_and (P Q : State W -> Res unit -> State W -> list Event -> Prop) :
  lawful P -> lawful Q -> lawful (fun st r st' evs => P st r st' evs /\ Q st r st' evs).
Proof.
  intros HP HQ. split.
  - intros st st' Htable. split; by apply law_quiet.
  - intros st st1 st2 r e1 e2 [HP1 HQ1] [HP2 HQ2].
    split; by eapply law_seq.
Qed.

Lemma lawful_added_probed :
  lawful (W := W) (fun _ _ _ evs =>
    forall k, k ∈ omap added_addr evs -> k ∈ omap probe_addr evs).
Proof.
  split.
  - by intros st st' _ k ?%elem_of_nil.
  - intros st st1 st2 r e1 e2 H1 H2 k. rewrite !omap_app, !elem_of_app.
    intros [?|?]; auto.
Qed.

Lemma uses_nothing (key : Event -> option string) (st st' : State W) evs :
  allocated st' = allocated st -> omap key evs = [] -> uses key st st' evs.
Proof.
  intros Htable Hnone. unfold uses. rewrite Htable, Hnone.
  split_and!; [done|constructor|]. by intros k ?%elem_of_nil.
Qed.

Lemma added_probes (evs : list Event) :
  Forall is_probe evs -> omap added_addr evs = [].
Proof.
  induction 1 as [|e evs He _ IH]; [done|]. destruct e; try done; exact IH.
Qed.

Lemma added_log_or_go (evs : list Event) :
  Forall log_or_go evs -> omap added_addr evs = [].
Proof.
  induction 1 as [|e evs He _ IH]; [done|]. destruct e; try done; exact IH.
Qed.

Lemma probed_log_or_go (evs : list Event) :
  Forall log_or_go evs -> omap probe_addr evs = [].
Proof.
  induction 1 as [|e evs He _ IH]; [done|]. destruct e; try done; exact IH.
Qed.

(** A call that returns an address has probed it. *)
Lemma Allocate_returned_probed range (st : State W) ip st' evs :
  fwdnet_Allocate prober range st = (Val (inr ip), st', evs) ->
  net.IP_String ip ∈ omap probe_addr evs.
Proof.
  intros Hrun.
  destruct (Allocate_returns_in_range _ _ _ _ _ _ Hrun) as (ipr & Hparse & _).
  rewrite (Allocate_unfold _ _ _ _ Hparse) in Hrun.
  pose proof (addresses_NoDup _ _ Hparse) as Hnd.
  destruct prober.
  - apply Allocate_loop_spec in Hrun as (tried & lives & _ & _ & Hres); [|done].
    destruct Hres as (rest & r & _ & _ & _ & -> & _).
    rewrite probe_addr_ping, !fmap_app. apply elem_of_app. right. by left.
  - apply exec_Allocate_loop_spec in Hrun as (tried & lives & _ & _ & Hres);
      [|done].
    destruct Hres as (rest & out & err & _ & _ & _ & -> & _).
    rewrite probe_addr_exec, !fmap_app. apply elem_of_app. right. by left.
Qed.

(** What one turn of the loop over [services.Items] spends. *)
Lemma forward_service_spent opts svc (st : State W) r st' evs :
  services.forward_service prober flags opts svc st = (r, st', evs) ->
  (allocated st' = allocated st /\
   omap probe_addr evs = [] /\ omap added_addr evs = []) \/
  exists st1 got st2 probes,
    allocated st1 = allocated st /\
    fwdnet_Allocate prober (services.NetworkRange opts) st1
      = (got, st2, probes) /\
    allocated st' = allocated st2 /\
    omap probe_addr evs = omap probe_addr probes /\
    omap added_addr evs =
      match got with Val (inr ip) => [net.IP_String ip] | _ => [] end.
Proof.
  intros Hsvc.
  apply forward_service_cases in Hsvc
    as [(msg & -> & _ & Htable)|(st1 & got & st2 & probes & Htable & Halloc & Hgot)];
    [by left|].
  right. exists st1, got, st2, probes. split; [done|]. split; [done|].
  destruct (Allocate_facts _ _ _ _ _ _ Halloc) as (_ & _ & _ & Hprobes).
  pose proof (added_probes _ Hprobes) as Hnone.
  destruct got as [[err|ip]|code|err]; [| |done|].
  - destruct Hgot as (-> & _ & ->). rewrite !omap_app, Hnone. cbn.
    by rewrite app_nil_r.
  - destruct Hgot as ([err|] & st3 & Htable3 & Hrest).
    + destruct Hrest as (-> & _ & ->). rewrite !omap_app, Hnone. cbn.
      by rewrite app_nil_r.
    + destruct Hrest as (pod0 & msg & tail & Hports & ->).
      pose proof (forward_ports_events _ _ _ _ _ _ _ _ _ _ Hports) as Htail.
      destruct (forward_ports_spec _ _ _ _ _ _ _ _ _ _ Hports)
        as (Htable4 & _).
      rewrite !omap_app, Hnone. cbn.
      rewrite (added_log_or_go _ Htail), (probed_log_or_go _ Htail).
      rewrite app_nil_r. split_and!; [congruence|done|done].
  - destruct Hgot as (_ & -> & ->). by rewrite Hnone.
Qed.

(** X13. A run of [Cmd.Run] spends every address at most once: the probes of
    the run go to pairwise distinct addresses, the [ip addr add] commands of
    the run are for pairwise distinct addresses, and each of these commands
    is for an address the run has probed.  The addresses probed were not in
    the table when the run began and are in it when the run ends. *)
Theorem Run_spends_each_address_once (st : State W) :
  NoDup (omap probe_addr (services.Run prober flags st).2) /\
  NoDup (omap added_addr (services.Run prober flags st).2) /\
  (forall addr, addr ∈ omap added_addr (services.Run prober flags st).2 ->
     addr ∈ omap probe_addr (services.Run prober flags st).2) /\
  (forall addr, addr ∈ omap probe_addr (services.Run prober flags st).2 ->
     allocated st !! addr = None /\
     is_Some (allocated (services.Run prober flags st).1.2 !! addr)).
Proof.
  destruct (services.Run prober flags st) as [[r st'] evs] eqn:Hrun.
  cbn [fst snd].
  cut ((uses probe_addr st st' evs /\ uses added_addr st st' evs) /\
       forall k, k ∈ omap added_addr evs -> k ∈ omap probe_addr evs).
  { intros [[(_ & Hnd1 & Hfresh1) (_ & Hnd2 & _)] Hsub]. by split_and!. }
  refine (obeys_Run _
            (lawful_and _ _
               (lawful_and _ _ (lawful_uses probe_addr) (lawful_uses added_addr))
               lawful_added_probed)
            prober flags _ _ _ _ _ _ _ _ _ Hrun).
  - intros msg s r0 s' es [= <- <- <-].
    split; [split; by apply uses_nothing|]. by intros k ?%elem_of_nil.
  - intros msg s r0 s' es [= <- <- <-].
    split; [split; by apply uses_nothing|]. by intros k ?%elem_of_nil.
  - intros A msg _ s r0 s' es [= <- <- <-].
    split; [split; by apply uses_nothing|]. by intros k ?%elem_of_nil.
  - intros hostFile s r0 s' es. unfold services.wait_and_save.
    unfold mbind, M_bind, emit, log_Printf, log_Fatalf, call, os_Exit, mret, M_ret.
    cbn. destruct (Hosts_Save hostFile (world s)) as [[err|] w]; cbn;
      intros [= <- <- <-].
    all: split; [split; by apply uses_nothing|]; by intros k ?%elem_of_nil.
  - intros hostFile current opts svc _ s r0 s' es Hsvc.
    apply forward_service_spent in Hsvc
      as [(Htable & Hp & Ha)|(st1 & got & st2 & probes & Htable & Halloc
                              & Htable' & Hp & Ha)].
    { split; [split; by apply uses_nothing|]. rewrite Ha.
      by intros k ?%elem_of_nil. }
    destruct (Allocate_facts _ _ _ _ _ _ Halloc) as (Hmono & Hret & _ & _).
    destruct (call_probe_addrs _ _ _ _ _ _ Halloc) as (Hnd & Hfresh).
    unfold uses. rewrite Hp, Ha, Htable', <- Htable.
    split_and!; [done|done|done|done| | |].
    + destruct got as [[err|ip]|code|err]; try constructor.
      * apply not_elem_of_nil.
      * constructor.
    + destruct got as [[err|ip]|code|err]; try by intros k ?%elem_of_nil.
      intros k ->%list_elem_of_singleton. by apply Hret.
    + destruct got as [[err|ip]|code|err]; try by intros k ?%elem_of_nil.
      intros k ->%list_elem_of_singleton.
      by eapply Allocate_returned_probed.
Qed.

End RunAddresses.

(** ** The set-up of a run *)

Section RunSetup.
Context {W : Type} `{!Collaborators W}.

Lemma bind_events_call {A B} (f : W -> A * W) (k : A -> M W B) (st : State W) :
  ((call f ≫= k) st).2
  = (k (f (world st)).1 (mkState (allocated st) (f (world st)).2)).2.
Proof.
  unfold mbind, M_bind, call. destruct (f (world st)) as [a w]. cbn.
  by destruct (k a _) as [[r st'] evs].
Qed.

Lemma bind_events_emit {B} e (k : unit -> M W B) (st : State W) :
  ((emit e ≫= k) st).2 = e :: (k tt st).2.
Proof.
  unfold mbind, M_bind, emit. by destruct (k tt st) as [[r st'] evs].
Qed.

Lemma bind_events_val {A B} (m : M W A) (k : A -> M W B) (st : State W)
    a st1 e1 :
  m st = (Val a, st1, e1) -> ((m ≫= k) st).2 = e1 ++ (k a st1).2.
Proof.
  intros Hm. unfold mbind, M_bind. rewrite Hm.
  by destruct (k a st1) as [[r st'] evs].
Qed.

(** X14. [Cmd.Run] touches nothing before its set-up is complete.  If a run
    sends a probe, runs a command, starts a session, reaches [wg.Wait()] or
    saves the hosts file, then the user was the superuser, the hosts file
    was loaded and backed up, the flag [kubeconfig] was not empty and the
    configuration was read, in this order; and every session of the run
    carries the hosts file that was loaded. *)
Theorem nothing_before_the_setup prober flags (st : State W) e :
  e ∈ (services.Run prober flags st).2 ->
  spends e \/ e = EvWait \/ is_save e = true ->
  exists err w1 hostFile w2 msg w3 cfg w4,
    CheckRoot (world st) = ((true, err), w1) /\
    NewHostsDefault w1 = (inr hostFile, w2) /\
    BackupHostFile hostFile w2 = (inr msg, w3) /\
    services.kubeconfig flags <> "" /\
    GetConfig (services.kubeconfig flags) w3 = (inr cfg, w4) /\
    forall pfo, e = EvGo pfo -> pfo_Hostfile pfo = hostFile.
Proof.
  intros Hin Hkind.
  assert (Hmsg : forall msg, e <> EvLog msg /\ e <> EvPrint msg).
  { intros msg. split; intros ->; by destruct Hkind as [?|[?|?]]. }
  unfold services.Run in Hin. rewrite bind_events_call in Hin.
  destruct (CheckRoot (world st)) as [[hasRoot err] w1] eqn:Hroot.
  cbn [fst snd] in Hin. destruct hasRoot; cbn [negb] in Hin.
  2:{ rewrite bind_events_emit in Hin.
      apply elem_of_cons in Hin as [->|Hin]; [by destruct (Hmsg services.root_notice)|].
      destruct err as [err|]; cbn in Hin.
      - apply list_elem_of_singleton in Hin as ->. by destruct (Hmsg ("Root check failure: " +:+ err)).
      - by apply elem_of_nil in Hin. }
  unfold log_Printf in Hin. rewrite !bind_events_emit in Hin.
  do 2 (apply elem_of_cons in Hin as [->|Hin]; [by edestruct Hmsg|]).
  rewrite bind_events_call in Hin. cbn [world allocated] in Hin.
  destruct (NewHostsDefault w1) as [[e1|hostFile] w2] eqn:Hhosts;
    cbn [fst snd world allocated] in Hin.
  { cbn in Hin. apply list_elem_of_singleton in Hin as ->. by edestruct Hmsg. }
  rewrite bind_events_emit in Hin.
  apply elem_of_cons in Hin as [->|Hin]; [by edestruct Hmsg|].
  rewrite bind_events_call in Hin. cbn [world allocated] in Hin.
  destruct (BackupHostFile hostFile w2) as [[e2|msg] w3] eqn:Hbackup;
    cbn [fst snd world allocated] in Hin.
  { cbn in Hin. apply list_elem_of_singleton in Hin as ->. by edestruct Hmsg. }
  rewrite bind_events_emit in Hin.
  apply elem_of_cons in Hin as [->|Hin]; [by edestruct Hmsg|].
  cbv zeta in Hin.
  destruct (String.eqb (services.kubeconfig flags) "") eqn:Hcfg.
  { cbn in Hin. apply list_elem_of_singleton in Hin as ->. by edestruct Hmsg. }
  apply String.eqb_neq in Hcfg.
  rewrite bind_events_call in Hin. cbn [world allocated] in Hin.
  destruct (GetConfig (services.kubeconfig flags) w3) as [[e3|cfg] w4] eqn:Hget;
    cbn [fst snd world allocated] in Hin.
  { cbn in Hin. apply list_elem_of_singleton in Hin as ->. by edestruct Hmsg. }
  exists err, w1, hostFile, w2, msg, w3, cfg, w4.
  split_and!; [done..|].
  intros pfo ->.
  assert (Hloop : forall nss (s : State W),
            EvGo pfo ∈
              ((services.contexts_loop prober flags hostFile
                  (services.kubeconfig flags)
                  (mkListOptions (services.selector flags)) nss 0
                  (run_contexts flags (CurrentContext cfg))
                ≫= fun _ => services.wait_and_save hostFile) s).2 ->
            pfo_Hostfile pfo = hostFile).
  { intros nss s Hgo%go_in_spawned. revert Hgo.
    apply (loop_sessions prober flags (fun pfo => pfo_Hostfile pfo = hostFile)
             hostFile (run_contexts flags (CurrentContext cfg))).
    by intros opts svc pod0 ip port ipr (Hhf & _) _ _. }
  destruct (length (services.namespaces flags) <? 1)%nat.
  - destruct (services.context_namespace _ _) as [ctx|].
    + erewrite bind_events_val in Hin; [|reflexivity].
      apply elem_of_cons in Hin as [[=]|Hin]. by eapply Hloop.
    + erewrite bind_events_val in Hin; [|reflexivity]. by eapply Hloop.
  - erewrite bind_events_val in Hin; [|reflexivity]. by eapply Hloop.
Qed.

End RunSetup.

Lemma nothing_before_the_setup_witness :
  let C := fixture_collaborators (fixture [] [web_service] [web_pod]) in
  exists err w1 hostFile w2 msg w3 cfg w4,
    CheckRoot (world fresh) = ((true, err), w1) /\
    NewHostsDefault w1 = (inr hostFile, w2) /\
    BackupHostFile hostFile w2 = (inr msg, w3) /\
    services.kubeconfig default_flags <> "" /\
    GetConfig (services.kubeconfig default_flags) w3 = (inr cfg, w4) /\
    forall pfo, EvGo (web_session "8080" "80") = EvGo pfo ->
      pfo_Hostfile pfo = hostFile.
Proof.
  intros C.
  refine (nothing_before_the_setup (W := unit) IcmpLibrary default_flags fresh
            (EvGo (web_session "8080" "80")) _ (or_introl I)).
  apply list_elem_of_lookup_2 with 8. vm_compute. reflexivity.
Defined.

(** ** The goroutine of a session *)

Section Goroutine.
Context {W : Type} `{!Collaborators W}.
Variable prober : Prober.
Variable flags : services.Flags.

(** The goroutine of a session, from the end of its tunnel to its
    [Wg.Done()], on the whole. *)
Lemma forwarding_run pfo (st : State W) :
  exists perr w0 out err w1,
    PortForward pfo (world st) = (perr, w0) /\
    exec_CombinedOutput "ip" ["addr"; "show"; pfo_NetworkInterface pfo] w0
      = ((out, err), w1) /\
    exists w removal,
      services.forwarding pfo st
        = (Val tt, mkState (allocated st) w,
           match perr with
           | Some e => [EvLog ("ERROR: " +:+ e)]
           | None => []
           end ++
           [EvLog ("Stopped forwarding " +:+ pfo_Service pfo +:+ " in "
                   +:+ pfo_Namespace pfo +:+ ".");
            EvOutput "ip" ["addr"; "show"; pfo_NetworkInterface pfo] out err] ++
           match err with
           | Some e =>
               [EvLog ("Error listing " +:+ pfo_NetworkInterface pfo
                       +:+ " IP addresses: " +:+ e +:+ services.nl)]
           | None => []
           end ++ removal) /\
      if strings.Contains out (net.IP_String (pfo_LocalIP pfo))
      then exists failed,
             exec_Run "ip" ["addr"; "del"; net.IP_String (pfo_LocalIP pfo);
                            "dev"; pfo_NetworkInterface pfo] w1 = (failed, w) /\
             removal =
               EvRun "ip" ["addr"; "del"; net.IP_String (pfo_LocalIP pfo);
                           "dev"; pfo_NetworkInterface pfo] failed ::
               match failed with
               | Some e =>
                   [EvLog ("Cannot ifconfig " +:+ pfo_NetworkInterface pfo
                           +:+ " alias " +:+ net.IP_String (pfo_LocalIP pfo)
                           +:+ " down: " +:+ e +:+ services.nl)]
               | None => []
               end
      else removal = [] /\ w = w1.
Proof.
  unfold services.forwarding, services.forwarding_tunnel, services.deleteIP.
  cbv zeta. unfold mbind, M_bind, call, emit, log_Printf, mret, M_ret.
  destruct (PortForward pfo (world st)) as [perr w0] eqn:Htunnel.
  exists perr, w0.
  destruct perr as [perr|]; cbn.
  all: destruct (exec_CombinedOutput _ _ w0) as [[out err] w1] eqn:Hlist.
  all: exists out, err, w1; split; [done|]; split; [done|].
  all: destruct err as [err|]; cbn.
  all: destruct (strings.Contains out _) eqn:Hshown; cbn.
  all: try (destruct (exec_Run _ _ w1) as [[failed|] w2] eqn:Hdel; cbn).
  all: eexists _, _; split; [reflexivity|]; cbn.
  all: first [by eexists|done].
Qed.

(** X15. The goroutine of a session always reaches its [Wg.Done()].  After
    its tunnel has ended, with or without an error, it logs that it stopped
    forwarding and lists the addresses of its interface, whatever the tunnel
    returned; a failure of the listing is logged and stops nothing.  Then it
    runs the [ip addr del] of its own address on its own interface exactly
    when the output of the listing contains the text of the address, and
    logs a failure of that command; it runs no other command.  It never
    exits or panics, starts no session, and leaves the table of addresses as
    it is. *)
Theorem forwarding_releases_its_own_address pfo (st : State W) :
  (services.forwarding pfo st).1.1 = Val tt /\
  allocated (services.forwarding pfo st).1.2 = allocated st /\
  spawned (services.forwarding pfo st).2 = [] /\
  exists perr w0 out err w1 removal,
    PortForward pfo (world st) = (perr, w0) /\
    exec_CombinedOutput "ip" ["addr"; "show"; pfo_NetworkInterface pfo] w0
      = ((out, err), w1) /\
    (services.forwarding pfo st).2
      = match perr with
        | Some e => [EvLog ("ERROR: " +:+ e)]
        | None => []
        end ++
        [EvLog ("Stopped forwarding " +:+ pfo_Service pfo +:+ " in "
                +:+ pfo_Namespace pfo +:+ ".");
         EvOutput "ip" ["addr"; "show"; pfo_NetworkInterface pfo] out err] ++
        match err with
        | Some e =>
            [EvLog ("Error listing " +:+ pfo_NetworkInterface pfo
                    +:+ " IP addresses: " +:+ e +:+ services.nl)]
        | None => []
        end ++ removal /\
    (if strings.Contains out (net.IP_String (pfo_LocalIP pfo))
     then exists failed,
            exec_Run "ip" ["addr"; "del"; net.IP_String (pfo_LocalIP pfo);
                           "dev"; pfo_NetworkInterface pfo] w1
              = (failed, world (services.forwarding pfo st).1.2) /\
            removal =
              EvRun "ip" ["addr"; "del"; net.IP_String (pfo_LocalIP pfo);
                          "dev"; pfo_NetworkInterface pfo] failed ::
              match failed with
              | Some e =>
                  [EvLog ("Cannot ifconfig " +:+ pfo_NetworkInterface pfo
                          +:+ " alias " +:+ net.IP_String (pfo_LocalIP pfo)
                          +:+ " down: " +:+ e +:+ services.nl)]
              | None => []
              end
     else removal = [] /\ world (services.forwarding pfo st).1.2 = w1) /\
    commands (services.forwarding pfo st).2
      = if strings.Contains out (net.IP_String (pfo_LocalIP pfo))
        then [alias_removal pfo] else [].
Proof.
  destruct (forwarding_run pfo st)
    as (perr & w0 & out & err & w1 & Htunnel & Hlist & w & removal & -> & Hrem).
  cbn [fst snd allocated world].
  assert (Hsp : spawned removal = [] /\
                commands removal
                = if strings.Contains out (net.IP_String (pfo_LocalIP pfo))
                  then [alias_removal pfo] else []).
  { destruct (strings.Contains out _).
    - destruct Hrem as ([failed|] & _ & ->); done.
    - by destruct Hrem as [-> _]. }
  destruct Hsp as [Hsp Hcm].
  split_and!; [done|done| |].
  - destruct perr, err; cbn; exact Hsp.
  - exists perr, w0, out, err, w1, removal. split_and!; [done|done|done|done|].
    destruct perr, err; cbn; exact Hcm.
Qed.


End Goroutine.


Lemma forwarding_releases_its_own_address_witness :
  let C := troubled_collaborators in
  commands (services.forwarding (web_session "8080" "80") (mkState ∅ 0)).2
    = [("ip", ["addr"; "del"; "127.1.27.1"; "dev"; "lo"])] /\
  EvOutput "ip" ["addr"; "show"; "lo"] "    inet 127.1.27.1/8 scope host lo"
    (Some "signal: killed")
    ∈ (services.forwarding (web_session "8080" "80") (mkState ∅ 0)).2.
Proof.
  intros C.
  destruct (forwarding_releases_its_own_address (W := nat)
              (web_session "8080" "80") (mkState ∅ 0))
    as (_ & _ & _ & perr & w0 & out & err & w1 & removal
        & Htunnel & Hlist & Hevs & _ & Hcommands).
  injection Htunnel as <- <-. injection Hlist as <- <- <-.
  split; [exact Hcommands|].
  rewrite Hevs. apply elem_of_app. right. right. by left.
Defined.
